(** * Copy-on-write block backup: the scheduler of [block/backup.c] and its
    earlier variant [backup.c]

    Both files implement the same job: a background sweep ([backup_run])
    copies every 64 KiB cluster of a source device to a target, while a hook
    in the guest's I/O path ([backup_before_write_notify], resp.
    [backup_before_read] / [backup_before_write]) forces the copy of a cluster
    before the guest touches it.  Everything runs as cooperatively scheduled
    coroutines: a coroutine runs until it suspends in an I/O call, a sleep or
    a queue wait.

    The embedding follows that structure.  Each source function is cut at its
    suspension points into segments, every segment is a function on the state
    of the whole job, and a [step] function lets the environment pick which
    suspended coroutine continues and with which I/O result.  Theorems
    quantify over all schedules. *)

From Stdlib Require Import ZArith List Bool Lia.
From Stdlib.Strings Require Import Byte.
From stdpp Require Import base list.

Local Open Scope Z_scope.

(** ** Integers, constants and helpers shared by both files *)

(** Conversion to [int] (32 bit, two's complement). *)
Definition to_int (x : Z) : Z := (x + 2 ^ 31) mod 2 ^ 32 - 2 ^ 31.

(** Conversion to [int64_t]. *)
Definition to_int64 (x : Z) : Z := (x + 2 ^ 63) mod 2 ^ 64 - 2 ^ 63.

(** Conversion to [uint64_t]. *)
Definition to_uint64 (x : Z) : Z := x mod 2 ^ 64.

(** Modelled from the spec: [BDRV_SECTOR_SIZE] is declared in block/block.h,
    which is not among the sources; the spec fixes the sector at 512 bytes. *)
Definition BDRV_SECTOR_SIZE : Z := 512.

Definition BACKUP_CLUSTER_BITS : Z := 16.
Definition BACKUP_CLUSTER_SIZE : Z := Z.shiftl 1 BACKUP_CLUSTER_BITS.
Definition BACKUP_SECTORS_PER_CLUSTER : Z := BACKUP_CLUSTER_SIZE / BDRV_SECTOR_SIZE.

(** Modelled from the spec: the macros [MIN] and [DIV_ROUND_UP] come from
    qemu's common headers, which are not among the sources; the spec writes
    them as [min] and [ceil (_ / _)].  Sector and cluster numbers are
    non-negative and far below [2 ^ 63], where C's [/] is [Z.div]. *)
Definition MIN (a b : Z) : Z := if a <? b then a else b.
Definition DIV_ROUND_UP (n d : Z) : Z := (n + d - 1) / d.

(** Modelled from the spec: [buffer_is_zero] lives in util/cutils.c, which is
    not among the sources; the spec reads it as "the buffer's first [len]
    bytes are all zero". *)
Definition byte_is_zero (b : byte) : bool :=
  match b with x00 => true | _ => false end.
Definition buffer_is_zero (buf : list byte) (len : Z) : bool :=
  forallb byte_is_zero (take (Z.to_nat len) buf).

(** [errno] values used below. *)
Definition EIO : Z := 5.
Definition ENOSPC : Z := 28.

(** What an I/O call hands back when the coroutine is resumed: the return
    value and, for a read, the contents of the buffer. *)
Record io_result := IoResult { io_ret : Z; io_data : list byte }.

(** ** Error policy (blockdev.h / blockjob.c) *)

Inductive BlockdevOnError :=
| BLOCKDEV_ON_ERROR_REPORT | BLOCKDEV_ON_ERROR_IGNORE
| BLOCKDEV_ON_ERROR_ENOSPC | BLOCKDEV_ON_ERROR_STOP.

Inductive BlockErrorAction :=
| BDRV_ACTION_REPORT | BDRV_ACTION_IGNORE | BDRV_ACTION_STOP.

(** Modelled from the spec: [block_job_error_action] is part of blockjob.c,
    which is not among the sources.  Section 4.G: report gives up, ignore
    retries, stop pauses the job and retries, enospc behaves as stop iff the
    error is "no space" and as report otherwise.  Pausing only delays the next
    wake-up of the sweep, which the untimed model allows anyway. *)
Definition block_job_error_action (on_err : BlockdevOnError) (is_read : bool)
    (error : Z) : BlockErrorAction :=
  match on_err with
  | BLOCKDEV_ON_ERROR_ENOSPC =>
      if error =? ENOSPC then BDRV_ACTION_STOP else BDRV_ACTION_REPORT
  | BLOCKDEV_ON_ERROR_STOP => BDRV_ACTION_STOP
  | BLOCKDEV_ON_ERROR_REPORT => BDRV_ACTION_REPORT
  | BLOCKDEV_ON_ERROR_IGNORE => BDRV_ACTION_IGNORE
  end.

Definition is_report (a : BlockErrorAction) : bool :=
  match a with BDRV_ACTION_REPORT => true | _ => false end.

(** What the environment can do between two suspension points. *)
Inductive action :=
| ACancel                               (* block_job_cancel *)
| ASetLength (v : Z)                    (* bdrv_getlength answers [v] from now on *)
| AGuestWrite (sector_num nb_sectors : Z) (* a tracked guest write arrives *)
| AGuestRead (sector_num nb_sectors : Z)  (* a tracked guest read arrives *)
| AResume (i : nat) (r : io_result)     (* coroutine of call [i] continues *)
| AWake.                                (* the sweep's sleep or drain ends *)

(** Observable operations, in the order they are issued.  [i] numbers the
    [backup_do_cow] call that issues the operation; [error_is_read] says
    whether the caller passed a place for the failing side. *)
Inductive event :=
| EvCow (i : nat) (sector_num nb_sectors : Z) (error_is_read : bool)
| EvRead (i : nat) (sector n : Z)
| EvWriteZeroes (i : nat) (sector n : Z)
| EvWrite (i : nat) (sector n : Z) (data : list byte)
| EvRatelimit (n : Z)
| EvSleep
| EvErrorAction (is_read : bool) (error : Z)
| EvCompleted (ret : Z).

(** * The engine of block/backup.c *)
Module BlockBackup.

Record CowRequest := mkReq { req_owner : nat; req_start : Z; req_end : Z }.

(** Modelled from the spec: HBitmap (util/hbitmap.c) is not among the
    sources.  Section 4.A: one bit per cluster, [get c] and [set c]. *)
Definition HBitmap := Z -> bool.
Definition hbitmap_alloc : HBitmap := fun _ => false.
Definition hbitmap_get (hb : HBitmap) (item : Z) : bool := hb item.
Definition hbitmap_set (hb : HBitmap) (item : Z) : HBitmap :=
  fun c => if c =? item then true else hb c.

(** Where a [backup_do_cow] call stands. *)
Inductive cow_pc :=
| CowGate                (* runnable, (re)scanning the in-flight list *)
| CowWaiting (on : nat)  (* in qemu_co_queue_wait on the request of call [on] *)
| CowReading             (* in bdrv_co_readv *)
| CowWriting             (* in bdrv_co_write_zeroes or bdrv_co_writev *)
| CowReturned.

(** The locals of one [backup_do_cow] call. *)
Record Frame := mkFrame {
  cow_sector_num : Z;
  cow_nb_sectors : Z;
  cow_has_error_is_read : bool;        (* error_is_read != NULL *)
  cow_error_is_read : option bool;     (* *error_is_read, None while unwritten *)
  cow_start : Z;
  cow_end : Z;
  cow_total_sectors : Z;
  cow_n : Z;
  cow_ret : Z;
  cow_request : CowRequest;
  cow_at : cow_pc }.

Record BackupBlockJob := mkJob {
  common_len : Z;
  common_offset : Z;
  common_speed : Z;
  common_cancelled : bool;
  on_source_error : BlockdevOnError;
  on_target_error : BlockdevOnError;
  sectors_read : Z;
  bitmap : HBitmap;
  inflight_reqs : list CowRequest }.

(** Where [backup_run] stands. *)
Inductive run_pc :=
| RunSleeping            (* in block_job_sleep_ns *)
| RunInCow (i : nat)     (* inside its backup_do_cow call [i] *)
| RunDraining            (* in qemu_co_rwlock_wrlock *)
| RunCompleted.

(** The locals of [backup_run]. *)
Record Run := mkRun {
  run_start : Z;
  run_end : Z;
  run_ret : Z;
  run_at : run_pc }.

Record State := mkState {
  st_job : BackupBlockJob;
  st_length : Z;                 (* current answer of bdrv_getlength (bs) *)
  st_frames : list Frame;        (* every backup_do_cow call so far *)
  st_run : Run;
  st_before_write : bool;        (* the notifier is registered *)
  st_trace : list event }.

(** *** Field updates *)

Definition set_at (pc : cow_pc) (f : Frame) : Frame :=
  mkFrame (cow_sector_num f) (cow_nb_sectors f) (cow_has_error_is_read f)
    (cow_error_is_read f) (cow_start f) (cow_end f) (cow_total_sectors f)
    (cow_n f) (cow_ret f) (cow_request f) pc.
Definition set_ret (ret : Z) (f : Frame) : Frame :=
  mkFrame (cow_sector_num f) (cow_nb_sectors f) (cow_has_error_is_read f)
    (cow_error_is_read f) (cow_start f) (cow_end f) (cow_total_sectors f)
    (cow_n f) ret (cow_request f) (cow_at f).
Definition set_start (start : Z) (f : Frame) : Frame :=
  mkFrame (cow_sector_num f) (cow_nb_sectors f) (cow_has_error_is_read f)
    (cow_error_is_read f) start (cow_end f) (cow_total_sectors f)
    (cow_n f) (cow_ret f) (cow_request f) (cow_at f).
Definition set_n (n : Z) (f : Frame) : Frame :=
  mkFrame (cow_sector_num f) (cow_nb_sectors f) (cow_has_error_is_read f)
    (cow_error_is_read f) (cow_start f) (cow_end f) (cow_total_sectors f)
    n (cow_ret f) (cow_request f) (cow_at f).
Definition set_total_sectors (t : Z) (f : Frame) : Frame :=
  mkFrame (cow_sector_num f) (cow_nb_sectors f) (cow_has_error_is_read f)
    (cow_error_is_read f) (cow_start f) (cow_end f) t
    (cow_n f) (cow_ret f) (cow_request f) (cow_at f).
Definition set_request (r : CowRequest) (f : Frame) : Frame :=
  mkFrame (cow_sector_num f) (cow_nb_sectors f) (cow_has_error_is_read f)
    (cow_error_is_read f) (cow_start f) (cow_end f) (cow_total_sectors f)
    (cow_n f) (cow_ret f) r (cow_at f).

(** [if (error_is_read) { *error_is_read = v; }] *)
Definition store_error_is_read (v : bool) (f : Frame) : Frame :=
  mkFrame (cow_sector_num f) (cow_nb_sectors f) (cow_has_error_is_read f)
    (if cow_has_error_is_read f then Some v else cow_error_is_read f)
    (cow_start f) (cow_end f) (cow_total_sectors f)
    (cow_n f) (cow_ret f) (cow_request f) (cow_at f).

Definition set_offset (v : Z) (j : BackupBlockJob) : BackupBlockJob :=
  mkJob (common_len j) v (common_speed j) (common_cancelled j)
    (on_source_error j) (on_target_error j) (sectors_read j) (bitmap j)
    (inflight_reqs j).
Definition set_cancelled (v : bool) (j : BackupBlockJob) : BackupBlockJob :=
  mkJob (common_len j) (common_offset j) (common_speed j) v
    (on_source_error j) (on_target_error j) (sectors_read j) (bitmap j)
    (inflight_reqs j).
Definition set_sectors_read (v : Z) (j : BackupBlockJob) : BackupBlockJob :=
  mkJob (common_len j) (common_offset j) (common_speed j) (common_cancelled j)
    (on_source_error j) (on_target_error j) v (bitmap j) (inflight_reqs j).
Definition set_bitmap (v : HBitmap) (j : BackupBlockJob) : BackupBlockJob :=
  mkJob (common_len j) (common_offset j) (common_speed j) (common_cancelled j)
    (on_source_error j) (on_target_error j) (sectors_read j) v
    (inflight_reqs j).
Definition set_inflight_reqs (v : list CowRequest) (j : BackupBlockJob)
    : BackupBlockJob :=
  mkJob (common_len j) (common_offset j) (common_speed j) (common_cancelled j)
    (on_source_error j) (on_target_error j) (sectors_read j) (bitmap j) v.

Definition set_job (j : BackupBlockJob) (s : State) : State :=
  mkState j (st_length s) (st_frames s) (st_run s) (st_before_write s)
    (st_trace s).
Definition set_length (v : Z) (s : State) : State :=
  mkState (st_job s) v (st_frames s) (st_run s) (st_before_write s)
    (st_trace s).
Definition set_frames (fs : list Frame) (s : State) : State :=
  mkState (st_job s) (st_length s) fs (st_run s) (st_before_write s)
    (st_trace s).
Definition set_run (r : Run) (s : State) : State :=
  mkState (st_job s) (st_length s) (st_frames s) r (st_before_write s)
    (st_trace s).
Definition set_before_write (b : bool) (s : State) : State :=
  mkState (st_job s) (st_length s) (st_frames s) (st_run s) b (st_trace s).
Definition emit (e : event) (s : State) : State :=
  mkState (st_job s) (st_length s) (st_frames s) (st_run s)
    (st_before_write s) (st_trace s ++ [e]).

Definition set_frame (i : nat) (f : Frame) (s : State) : State :=
  set_frames (<[i := f]> (st_frames s)) s.

(** *** In-flight requests *)

(** [end > req->start && start < req->end] *)
Definition overlaps (start end_ : Z) (req : CowRequest) : bool :=
  (req_start req <? end_) && (start <? req_end req).

(** One pass of the QLIST_FOREACH in [wait_for_overlapping_requests]: the
    first request in list order that overlaps, if any. *)
Definition wait_for_overlapping_requests (j : BackupBlockJob)
    (start end_ : Z) : option CowRequest :=
  List.find (overlaps start end_) (inflight_reqs j).

(** QLIST_INSERT_HEAD; the fresh wait queue is empty. *)
Definition cow_request_begin (req : CowRequest) (j : BackupBlockJob)
    : BackupBlockJob :=
  set_inflight_reqs (req :: inflight_reqs j) j.

(** qemu_co_queue_restart_all: a waiter returns from qemu_co_queue_wait, sets
    [retry] and scans again once it is scheduled. *)
Definition restart (i : nat) (f : Frame) : Frame :=
  match cow_at f with
  | CowWaiting on => if Nat.eqb on i then set_at CowGate f else f
  | _ => f
  end.

Definition owned_by (i : nat) (req : CowRequest) : bool :=
  Nat.eqb (req_owner req) i.

(** QLIST_REMOVE and the wake-up of everybody queued on the request. *)
Definition cow_request_end (i : nat) (s : State) : State :=
  set_frames (restart i <$> st_frames s)
    (set_job (set_inflight_reqs
                (List.filter (fun r => negb (owned_by i r))
                   (inflight_reqs (st_job s))) (st_job s)) s).

(** *** backup_do_cow, segment by segment *)

(** The label [out]: the request ends, the lock is released, the call returns
    [ret]. *)
Definition backup_do_cow_out (i : nat) (f : Frame) (s : State) : State :=
  set_frame i (set_at CowReturned f) (cow_request_end i s).

(** The head of the cluster loop: clusters whose bit is set are skipped.
    [k] bounds the iterations by [end - start]. *)
Fixpoint skip_copied (k : nat) (hb : HBitmap) (start : Z) : Z * bool :=
  match k with
  | O => (start, false)
  | S k' =>
      if hbitmap_get hb start then skip_copied k' hb (start + 1)
      else (start, true)
  end.

(** [for (; start < end; start++)] up to the source read of the next cluster
    that is not copied yet. *)
Definition backup_do_cow_loop (i : nat) (f : Frame) (s : State) : State :=
  match skip_copied (Z.to_nat (cow_end f - cow_start f))
          (bitmap (st_job s)) (cow_start f) with
  | (start, false) => backup_do_cow_out i (set_start start f) s
  | (start, true) =>
      let n := MIN BACKUP_SECTORS_PER_CLUSTER
                 (cow_total_sectors f - start * BACKUP_SECTORS_PER_CLUSTER) in
      emit (EvRead i (start * BACKUP_SECTORS_PER_CLUSTER) n)
        (set_frame i (set_at CowReading (set_n n (set_start start f))) s)
  end.

(** After the overlap wait: register the request, query the length, enter the
    loop. *)
Definition backup_do_cow_begin (i : nat) (f : Frame) (s : State) : State :=
  let req := mkReq i (cow_start f) (cow_end f) in
  let s := set_job (cow_request_begin req (st_job s)) s in
  let f := set_request req f in
  let total_sectors := st_length s in
  let f := set_total_sectors total_sectors f in
  if total_sectors <? 0 then
    backup_do_cow_out i
      (set_ret (to_int total_sectors) (store_error_is_read true f)) s
  else
    backup_do_cow_loop i
      (set_total_sectors (total_sectors / BDRV_SECTOR_SIZE) f) s.

(** One scan of [wait_for_overlapping_requests]; without an overlap the call
    goes on, otherwise it queues on the overlapping request. *)
Definition backup_do_cow_gate (i : nat) (f : Frame) (s : State) : State :=
  match wait_for_overlapping_requests (st_job s) (cow_start f) (cow_end f) with
  | Some req => set_frame i (set_at (CowWaiting (req_owner req)) f) s
  | None => backup_do_cow_begin i f s
  end.

(** Entry of call number [i]. *)
Definition backup_do_cow (i : nat) (sector_num nb_sectors : Z)
    (error_is_read : bool) (s : State) : State :=
  let start := sector_num / BACKUP_SECTORS_PER_CLUSTER in
  let end_ := DIV_ROUND_UP (sector_num + nb_sectors)
                BACKUP_SECTORS_PER_CLUSTER in
  let f := mkFrame sector_num nb_sectors error_is_read None start end_ 0 0 0
             (mkReq i 0 0) CowGate in
  backup_do_cow_gate i f
    (emit (EvCow i sector_num nb_sectors error_is_read)
       (set_frames (st_frames s ++ [f]) s)).

(** bdrv_co_readv returned [r]. *)
Definition backup_do_cow_read_done (i : nat) (f : Frame) (r : io_result)
    (s : State) : State :=
  let f := set_ret (io_ret r) f in
  if io_ret r <? 0 then
    backup_do_cow_out i (store_error_is_read true f) s
  else
    let sector := cow_start f * BACKUP_SECTORS_PER_CLUSTER in
    let len := cow_n f * BDRV_SECTOR_SIZE in
    let s := set_frame i (set_at CowWriting f) s in
    if buffer_is_zero (io_data r) len then
      emit (EvWriteZeroes i sector (cow_n f)) s
    else
      emit (EvWrite i sector (cow_n f) (take (Z.to_nat len) (io_data r))) s.

(** The target write returned [r]. *)
Definition backup_do_cow_write_done (i : nat) (f : Frame) (r : io_result)
    (s : State) : State :=
  let f := set_ret (io_ret r) f in
  if io_ret r <? 0 then
    backup_do_cow_out i (store_error_is_read false f) s
  else
    let j := st_job s in
    let j := set_bitmap (hbitmap_set (bitmap j) (cow_start f)) j in
    let j := set_sectors_read (to_uint64 (sectors_read j + cow_n f)) j in
    let j := set_offset
               (to_int64 (common_offset j + cow_n f * BDRV_SECTOR_SIZE)) j in
    backup_do_cow_loop i (set_start (cow_start f + 1) f) (set_job j s).

(** A suspended call continues. *)
Definition resume_cow (i : nat) (r : io_result) (s : State) : State :=
  match st_frames s !! i with
  | None => s
  | Some f =>
      match cow_at f with
      | CowGate => backup_do_cow_gate i f s
      | CowReading => backup_do_cow_read_done i f r s
      | CowWriting => backup_do_cow_write_done i f r s
      | CowWaiting _ | CowReturned => s
      end
  end.

(** *** The interceptor *)

Record BdrvTrackedRequest := mkTracked { t_sector_num : Z; t_nb_sectors : Z }.

(** The notifier runs in the writer's coroutine; its return value is that of
    the call it makes, which gets the next free number. *)
Definition backup_before_write_notify (req : BdrvTrackedRequest) (s : State)
    : State :=
  backup_do_cow (length (st_frames s)) (t_sector_num req) (t_nb_sectors req)
    false s.

(** What call [i] returned, once it has. *)
Definition returned (s : State) (i : nat) : option Z :=
  match st_frames s !! i with
  | Some f => match cow_at f with CowReturned => Some (cow_ret f) | _ => None end
  | None => None
  end.

(** *** backup_run *)

Definition backup_error_action (j : BackupBlockJob) (read : bool) (error : Z)
    : BlockErrorAction :=
  if read then block_job_error_action (on_source_error j) true error
  else block_job_error_action (on_target_error j) false error.

Definition set_run_at (pc : run_pc) (s : State) : State :=
  set_run (mkRun (run_start (st_run s)) (run_end (st_run s))
             (run_ret (st_run s)) pc) s.
Definition set_run_start (v : Z) (s : State) : State :=
  set_run (mkRun v (run_end (st_run s)) (run_ret (st_run s))
             (run_at (st_run s))) s.
Definition set_run_ret (v : Z) (s : State) : State :=
  set_run (mkRun (run_start (st_run s)) (run_end (st_run s)) v
             (run_at (st_run s))) s.

Definition pending (f : Frame) : bool :=
  match cow_at f with CowReturned => false | _ => true end.

(** After the write lock is granted: the job reports [ret]. *)
Definition backup_run_complete (s : State) : State :=
  emit (EvCompleted (run_ret (st_run s))) (set_run_at RunCompleted s).

(** The code after the loop: the notifier is removed and the write lock is
    requested; it is granted once no [backup_do_cow] call holds the lock. *)
Definition backup_run_exit (s : State) : State :=
  let s := set_before_write false s in
  if existsb pending (st_frames s) then set_run_at RunDraining s
  else backup_run_complete s.

(** The loop test and the body up to block_job_sleep_ns. *)
Definition backup_run_loop (s : State) : State :=
  if run_start (st_run s) <? run_end (st_run s) then
    if common_cancelled (st_job s) then backup_run_exit s
    else if negb (common_speed (st_job s) =? 0) then
      let j := st_job s in
      emit EvSleep
        (set_run_at RunSleeping
           (set_job (set_sectors_read 0 j)
              (emit (EvRatelimit (sectors_read j)) s)))
    else emit EvSleep (set_run_at RunSleeping s)
  else backup_run_exit s.

(** [start++] of the for statement, then the loop again. *)
Definition backup_run_next (s : State) : State :=
  backup_run_loop (set_run_start (run_start (st_run s) + 1) s).

(** The sweep's [backup_do_cow] call returned [ret]; [error_is_read] is the
    local the call wrote to (it is read only after an error). *)
Definition backup_run_cow_done (ret : Z) (error_is_read : option bool)
    (s : State) : State :=
  let s := set_run_ret ret s in
  if ret <? 0 then
    let read := default false error_is_read in
    let error := to_int (- ret) in
    let act := backup_error_action (st_job s) read error in
    let s := emit (EvErrorAction read error) s in
    if is_report act then backup_run_exit s
    else backup_run_next (set_run_start (run_start (st_run s) - 1) s)
  else backup_run_next s.

(** If the sweep is inside call [i] and the call has returned, the sweep goes
    on. *)
Definition backup_run_resume (i : nat) (s : State) : State :=
  match run_at (st_run s) with
  | RunInCow j =>
      if Nat.eqb j i then
        match st_frames s !! i with
        | Some f =>
            match cow_at f with
            | CowReturned =>
                backup_run_cow_done (cow_ret f) (cow_error_is_read f) s
            | _ => s
            end
        | None => s
        end
      else s
  | _ => s
  end.

(** block_job_sleep_ns returned: second cancellation check, then the copy of
    cluster [start]. *)
Definition backup_run_wake (s : State) : State :=
  if common_cancelled (st_job s) then backup_run_exit s
  else
    let i := length (st_frames s) in
    backup_run_resume i
      (backup_do_cow i (run_start (st_run s) * BACKUP_SECTORS_PER_CLUSTER) 1
         true (set_run_at (RunInCow i) s)).

(** [backup_run] from its entry to the first suspension. *)
Definition backup_run (j : BackupBlockJob) (length_bs : Z) : State :=
  let end_ := DIV_ROUND_UP (length_bs / BDRV_SECTOR_SIZE)
                BACKUP_SECTORS_PER_CLUSTER in
  let j := set_bitmap hbitmap_alloc (set_inflight_reqs [] j) in
  backup_run_loop
    (mkState j length_bs [] (mkRun 0 end_ 0 RunSleeping) true []).

(** [backup_start]; [iostatus] says whether I/O status reporting is enabled
    on the source.  Modelled from the spec: block_job_create (blockjob.c) is
    not among the sources; it fills in the common part of the job and refuses
    a speed that [backup_set_speed] refuses. *)
Definition backup_start (length_bs speed : Z)
    (on_source_error on_target_error : BlockdevOnError) (iostatus : bool)
    : option State :=
  match on_source_error with
  | BLOCKDEV_ON_ERROR_STOP | BLOCKDEV_ON_ERROR_ENOSPC =>
      if iostatus then
        if speed <? 0 then None
        else Some (backup_run
                     (mkJob length_bs 0 speed false on_source_error
                        on_target_error 0 hbitmap_alloc []) length_bs)
      else None
  | _ =>
      if speed <? 0 then None
      else Some (backup_run
                   (mkJob length_bs 0 speed false on_source_error
                      on_target_error 0 hbitmap_alloc []) length_bs)
  end.

(** *** The scheduler *)

Definition step (s : State) (a : action) : State :=
  match a with
  | ACancel => set_job (set_cancelled true (st_job s)) s
  | ASetLength v => set_length v s
  | AGuestWrite sector_num nb_sectors =>
      if st_before_write s then
        backup_before_write_notify (mkTracked sector_num nb_sectors) s
      else s
  | AGuestRead _ _ => s
  | AResume i r => backup_run_resume i (resume_cow i r s)
  | AWake =>
      match run_at (st_run s) with
      | RunSleeping => backup_run_wake s
      | RunDraining =>
          if existsb pending (st_frames s) then s else backup_run_complete s
      | _ => s
      end
  end.

Definition run (s : State) (acts : list action) : State :=
  fold_left step acts s.

(** *** Vocabulary of the proofs *)

Fixpoint disjoint_reqs (l : list CowRequest) : Prop :=
  match l with
  | [] => True
  | r :: l' =>
      (forall r', In r' l' -> overlaps (req_start r) (req_end r) r' = false)
      /\ disjoint_reqs l'
  end.

Definition copying (f : Frame) : Prop :=
  cow_at f = CowReading \/ cow_at f = CowWriting.

(** Call [i], with locals [f], has its request in the list. *)
Definition holds (s : State) (i : nat) (f : Frame) : Prop :=
  cow_request f = mkReq i (req_start (cow_request f)) (cow_end f)
  /\ In (cow_request f) (inflight_reqs (st_job s))
  /\ (forall r, In r (inflight_reqs (st_job s)) -> req_owner r = i ->
        r = cow_request f)
  /\ req_start (cow_request f) <= cow_start f
  /\ (forall c, req_start (cow_request f) <= c < cow_start f ->
        hbitmap_get (bitmap (st_job s)) c = true)
  /\ cow_error_is_read f = None.

Definition no_request (s : State) (i : nat) : Prop :=
  forall r, In r (inflight_reqs (st_job s)) -> req_owner r <> i.

Definition at_cluster (s : State) (f : Frame) : Prop :=
  cow_start f < cow_end f
  /\ hbitmap_get (bitmap (st_job s)) (cow_start f) = false
  /\ cow_n f = MIN BACKUP_SECTORS_PER_CLUSTER
                 (cow_total_sectors f
                  - cow_start f * BACKUP_SECTORS_PER_CLUSTER).

(** [error_is_read] is written only on the way to a negative return value
    (the length query's value is converted to [int] on its way to [ret]). *)
Definition written_on_error (f : Frame) : Prop :=
  (cow_error_is_read f = None \/ cow_ret f < 0
   \/ (cow_total_sectors f < 0 /\ cow_ret f = to_int (cow_total_sectors f)))
  /\ (cow_has_error_is_read f = false -> cow_error_is_read f = None).

Definition frame_ok (s : State) (i : nat) (f : Frame) : Prop :=
  match cow_at f with
  | CowReading =>
      holds s i f /\ at_cluster s f
      /\ In (EvRead i (cow_start f * BACKUP_SECTORS_PER_CLUSTER) (cow_n f))
           (st_trace s)
  | CowWriting =>
      holds s i f /\ at_cluster s f
      /\ (In (EvWriteZeroes i (cow_start f * BACKUP_SECTORS_PER_CLUSTER)
                (cow_n f)) (st_trace s)
          \/ exists d,
               In (EvWrite i (cow_start f * BACKUP_SECTORS_PER_CLUSTER)
                     (cow_n f) d) (st_trace s))
  | CowGate | CowWaiting _ => no_request s i /\ cow_error_is_read f = None
  | CowReturned => no_request s i /\ written_on_error f
  end.

Definition reg_on (P : nat -> Prop) (s : State) : Prop :=
  disjoint_reqs (inflight_reqs (st_job s))
  /\ (forall r, In r (inflight_reqs (st_job s)) ->
        (req_owner r < length (st_frames s))%nat)
  /\ (forall r, In r (inflight_reqs (st_job s)) -> P (req_owner r) ->
        exists f, st_frames s !! req_owner r = Some f
                  /\ cow_request f = r /\ copying f)
  /\ (forall j f, P j -> st_frames s !! j = Some f -> frame_ok s j f).

Definition reg_inv (s : State) : Prop := reg_on (fun _ => True) s.

Definition sweep_event (e : event) : Prop :=
  match e with
  | EvRatelimit _ | EvSleep | EvErrorAction _ _ | EvCompleted _ => True
  | _ => False
  end.

Definition cow_event (e : event) : Prop :=
  match e with
  | EvCow _ _ _ _ | EvRead _ _ _ | EvWriteZeroes _ _ _ | EvWrite _ _ _ _ => True
  | _ => False
  end.

(** The sweep's own code touches neither the requests, the bitmap, the
    progress counter nor the frames, and issues no I/O. *)
Definition same_core (s s' : State) : Prop :=
  inflight_reqs (st_job s') = inflight_reqs (st_job s)
  /\ bitmap (st_job s') = bitmap (st_job s)
  /\ common_offset (st_job s') = common_offset (st_job s)
  /\ common_len (st_job s') = common_len (st_job s)
  /\ st_length s' = st_length s
  /\ st_frames s' = st_frames s
  /\ exists l, st_trace s' = st_trace s ++ l /\ Forall sweep_event l.

Definition io_event (e : event) : Prop :=
  match e with
  | EvRead _ _ _ | EvWriteZeroes _ _ _ | EvWrite _ _ _ _ => True
  | _ => False
  end.

(** What a segment of [backup_do_cow] other than a successful write leaves
    alone. *)
Definition cow_quiet (s s' : State) : Prop :=
  st_run s' = st_run s
  /\ st_before_write s' = st_before_write s
  /\ st_length s' = st_length s
  /\ common_len (st_job s') = common_len (st_job s)
  /\ common_cancelled (st_job s') = common_cancelled (st_job s)
  /\ common_speed (st_job s') = common_speed (st_job s)
  /\ on_source_error (st_job s') = on_source_error (st_job s)
  /\ on_target_error (st_job s') = on_target_error (st_job s)
  /\ bitmap (st_job s') = bitmap (st_job s)
  /\ common_offset (st_job s') = common_offset (st_job s)
  /\ sectors_read (st_job s') = sectors_read (st_job s)
  /\ length (st_frames s') = length (st_frames s)
  /\ exists l, st_trace s' = st_trace s ++ l /\ Forall io_event l.

(** The state right after the bookkeeping of a successful target write. *)
Definition publish (f : Frame) (s : State) : State :=
  let j := st_job s in
  let j := set_bitmap (hbitmap_set (bitmap j) (cow_start f)) j in
  let j := set_sectors_read (to_uint64 (sectors_read j + cow_n f)) j in
  let j := set_offset
             (to_int64 (common_offset j + cow_n f * BDRV_SECTOR_SIZE)) j in
  set_job j s.

Definition dev_sectors (L : Z) : Z := L / BDRV_SECTOR_SIZE.

Definition dev_clusters (L : Z) : Z :=
  DIV_ROUND_UP (dev_sectors L) BACKUP_SECTORS_PER_CLUSTER.

Definition cluster_sectors (T c : Z) : Z :=
  MIN BACKUP_SECTORS_PER_CLUSTER (T - c * BACKUP_SECTORS_PER_CLUSTER).

(** Sectors of the clusters below [k] whose bit is set. *)
Fixpoint copied (hb : HBitmap) (T : Z) (k : nat) : Z :=
  match k with
  | O => 0
  | S k' =>
      copied hb T k'
      + (if hbitmap_get hb (Z.of_nat k') then cluster_sectors T (Z.of_nat k')
         else 0)
  end.

Definition io_ok (T : Z) (e : event) : Prop :=
  match e with
  | EvRead _ sector n | EvWriteZeroes _ sector n | EvWrite _ sector n _ =>
      exists c, 0 <= c /\ sector = c * BACKUP_SECTORS_PER_CLUSTER
                /\ n = cluster_sectors T c /\ 0 < n /\ sector + n <= T
  | _ => True
  end.

(** The environment the accounting relies on: the device keeps its length
    [L] (a length query may fail), and guest writes lie within the device. *)
Definition acct_ok (L : Z) (a : action) : Prop :=
  match a with
  | ASetLength v => v = L \/ v < 0
  | AGuestWrite sector_num nb_sectors =>
      0 <= sector_num /\ 0 <= nb_sectors
      /\ sector_num + nb_sectors <= dev_sectors L
  | _ => True
  end.

Definition acct_frame (L : Z) (f : Frame) : Prop :=
  cow_at f <> CowReturned ->
  0 <= cow_start f /\ cow_end f <= dev_clusters L
  /\ (copying f -> cow_total_sectors f = dev_sectors L).

Definition acct_core_on (P : nat -> Prop) (L : Z) (s : State) : Prop :=
  common_len (st_job s) = L
  /\ (st_length s = L \/ st_length s < 0)
  /\ (forall c, hbitmap_get (bitmap (st_job s)) c = true ->
        0 <= c < dev_clusters L)
  /\ common_offset (st_job s)
     = BDRV_SECTOR_SIZE
       * copied (bitmap (st_job s)) (dev_sectors L) (Z.to_nat (dev_clusters L))
  /\ (forall i f, P i -> st_frames s !! i = Some f -> acct_frame L f)
  /\ Forall (io_ok (dev_sectors L)) (st_trace s).

Definition acct_run (L : Z) (s : State) : Prop :=
  run_end (st_run s) = dev_clusters L
  /\ 0 <= run_start (st_run s)
  /\ (run_at (st_run s) = RunSleeping ->
      run_start (st_run s) < run_end (st_run s)).

Definition acct_inv (L : Z) (s : State) : Prop :=
  acct_core_on (fun _ => True) L s /\ acct_run L s.

Definition target_write_issued (s : State) (i : nat) (f : Frame) : Prop :=
  In (EvWriteZeroes i (cow_start f * BACKUP_SECTORS_PER_CLUSTER) (cow_n f))
    (st_trace s)
  \/ exists d,
       In (EvWrite i (cow_start f * BACKUP_SECTORS_PER_CLUSTER) (cow_n f) d)
         (st_trace s).

(** *** Cancellation *)
Definition exited (s : State) : Prop :=
  run_at (st_run s) = RunDraining \/ run_at (st_run s) = RunCompleted.



(** The arguments of a call stay what they were at its entry. *)
Definition static_eq (f f' : Frame) : Prop :=
  cow_sector_num f' = cow_sector_num f
  /\ cow_nb_sectors f' = cow_nb_sectors f
  /\ cow_has_error_is_read f' = cow_has_error_is_read f.

(** While the sweep is inside a call, the call is the one it made: for one
    sector at its cluster, with a place for the failing side. *)
Definition sweep_inv (s : State) : Prop :=
  forall i, run_at (st_run s) = RunInCow i ->
    exists f, st_frames s !! i = Some f
              /\ cow_has_error_is_read f = true
              /\ cow_sector_num f
                 = run_start (st_run s) * BACKUP_SECTORS_PER_CLUSTER
              /\ cow_nb_sectors f = 1
              /\ cow_at f <> CowReturned.

Definition frames_kept (i : nat) (f : Frame) (s s' : State) : Prop :=
  (forall j fj, j <> i -> st_frames s !! j = Some fj ->
     st_frames s' !! j = Some fj \/ st_frames s' !! j = Some (restart i fj))
  /\ exists f', st_frames s' !! i = Some f' /\ static_eq f f'.

(** Inside the loop body the loop test holds. *)
Definition loop_inv (s : State) : Prop :=
  ~ exited s -> run_start (st_run s) < run_end (st_run s).

(** Everything that holds in every state the job can reach. *)
Definition inv (s : State) : Prop := reg_inv s /\ sweep_inv s /\ loop_inv s.

(** *** The completed sweep *)

(** The first cluster of a call's range. *)
Definition first_cluster (f : Frame) : Z :=
  cow_sector_num f / BACKUP_SECTORS_PER_CLUSTER.

(** A call that has returned a non-negative value has left every cluster of
    its range with the bit set; before that it still knows where its range
    starts. *)
Definition covered (hb : HBitmap) (f : Frame) : Prop :=
  cow_end f
  = DIV_ROUND_UP (cow_sector_num f + cow_nb_sectors f)
      BACKUP_SECTORS_PER_CLUSTER
  /\ match cow_at f with
     | CowGate | CowWaiting _ => cow_start f = first_cluster f
     | CowReading | CowWriting => req_start (cow_request f) = first_cluster f
     | CowReturned =>
         0 <= cow_ret f ->
         forall c, first_cluster f <= c < cow_end f -> hbitmap_get hb c = true
     end.

Definition covered_on (P : nat -> Prop) (s : State) : Prop :=
  forall j f, P j -> st_frames s !! j = Some f -> covered (bitmap (st_job s)) f.

(** A failing length query answers with a negated errno, which fits [int]. *)
Definition errno_fits (v : Z) : Prop := v < 0 -> - 2 ^ 31 <= v.

Definition length_fits (a : action) : Prop :=
  match a with ASetLength v => errno_fits v | _ => True end.

(** The sweep has copied every cluster below its position, and it leaves the
    loop only cancelled, with an error to report, or at the end. *)
Definition swept (s : State) : Prop :=
  0 <= run_start (st_run s)
  /\ (forall c, 0 <= c < run_start (st_run s) ->
        hbitmap_get (bitmap (st_job s)) c = true)
  /\ (exited s ->
      common_cancelled (st_job s) = true \/ run_ret (st_run s) < 0
      \/ run_end (st_run s) <= run_start (st_run s)).

Definition sweep_done (E : Z) (s : State) : Prop :=
  errno_fits (st_length s) /\ run_end (st_run s) = E
  /\ swept s /\ covered_on (fun _ => True) s.


(** *** Waiting calls, the drain and the rate limit *)

(** A call queued on a request waits for another call, which is in I/O. *)
Definition waiters_ok (s : State) : Prop :=
  forall j f on, st_frames s !! j = Some f -> cow_at f = CowWaiting on ->
    on <> j /\ exists fo, st_frames s !! on = Some fo /\ copying fo.

(** What one segment of call [i] does to the frames: the call is in I/O
    afterwards, or it queues on a call in I/O (and was not in I/O itself), or
    it returns and wakes everybody queued on it. *)
Definition seg_shape (i : nat) (s s' : State) : Prop :=
  (exists f', st_frames s' = <[i := f']> (st_frames s)
     /\ (copying f'
         \/ (exists on, cow_at f' = CowWaiting on /\ on <> i
               /\ (exists fo, st_frames s !! on = Some fo /\ copying fo)
               /\ forall fi, st_frames s !! i = Some fi -> ~ copying fi)))
  \/ (exists f', st_frames s' = <[i := f']> (restart i <$> st_frames s)
        /\ cow_at f' = CowReturned).

Definition all_returned (s : State) : Prop :=
  Forall (fun f => cow_at f = CowReturned) (st_frames s).

(** Once the sweep has left its loop the notifier is gone, and the job
    completes only when every call has returned. *)
Definition drained (s : State) : Prop :=
  (exited s -> st_before_write s = false)
  /\ (run_at (st_run s) = RunCompleted -> all_returned s).

(** Nothing observable distinguishes the two states, and no call moved. *)
Definition frozen (s s' : State) : Prop :=
  st_trace s' = st_trace s /\ st_frames s' = st_frames s
  /\ st_run s' = st_run s /\ st_before_write s' = st_before_write s
  /\ bitmap (st_job s') = bitmap (st_job s)
  /\ common_offset (st_job s') = common_offset (st_job s)
  /\ inflight_reqs (st_job s') = inflight_reqs (st_job s).



(** *** Target writes follow source reads *)
Definition is_target_write (e : event) : Prop :=
  match e with
  | EvWrite _ _ _ _ | EvWriteZeroes _ _ _ => True
  | _ => False
  end.

(** The same call has read the sectors that [e] writes. *)
Definition read_before (l : list event) (e : event) : Prop :=
  match e with
  | EvWrite i sector n _ | EvWriteZeroes i sector n => In (EvRead i sector n) l
  | _ => True
  end.

(** Every target write in the trace comes after the source read of the same
    sectors by the same call. *)
Definition writes_follow_reads (l : list event) : Prop :=
  forall p e, l !! p = Some e -> read_before (take p l) e.

(** A stretch of code that issues no target write. *)
Definition no_write (s s' : State) : Prop :=
  exists l, st_trace s' = st_trace s ++ l
            /\ Forall (fun e => ~ is_target_write e) l.

(** [block_job_cancel]: the flag is set, nothing else. *)
Definition cancel (s : State) : State :=
  set_job (set_cancelled true (st_job s)) s.

End BlockBackup.

(** * The variant engine of backup.c *)
Module Backup.

(** Modelled from the spec: [BITS_PER_LONG] is declared in qemu/bitops.h,
    which is not among the sources; the bitmap of section 3 holds one bit per
    cluster, packed here into the 64-bit [unsigned long] of the LP64 hosts. *)
Definition BITS_PER_LONG : Z := 64.

Definition BACKUP_BLOCKS_PER_CLUSTER : Z :=
  BACKUP_CLUSTER_SIZE / BDRV_SECTOR_SIZE.

Inductive cow_pc :=
| CowReading             (* in drv->bdrv_co_readv *)
| CowWriting             (* in bdrv_co_writev *)
| CowReturned.

(** The locals of one [backup_do_cow] call. *)
Record Frame := mkFrame {
  cow_sector_num : Z;
  cow_nb_sectors : Z;
  cow_start : Z;
  cow_end : Z;
  cow_ret : Z;
  cow_at : cow_pc }.

Record BackupBlockJob := mkJob {
  common_len : Z;
  common_offset : Z;
  common_speed : Z;
  common_cancelled : bool;
  sectors_read : Z;
  bitmap : list Z;               (* unsigned long *bitmap *)
  bitmap_size : Z }.

Inductive run_pc :=
| RunSleeping            (* in block_job_sleep_ns *)
| RunInCow (i : nat)     (* in bdrv_co_backup, served by call [i] *)
| RunDraining            (* in qemu_co_rwlock_wrlock *)
| RunCompleted.

Record Run := mkRun {
  run_start : Z;
  run_end : Z;
  run_ret : Z;
  run_at : run_pc }.

Record State := mkState {
  st_job : BackupBlockJob;
  st_length : Z;                 (* current answer of bdrv_getlength (bs) *)
  st_frames : list Frame;        (* every backup_do_cow call so far *)
  st_run : Run;
  st_aborted : bool;             (* an assert failed *)
  st_trace : list event }.

(** *** The bitmap *)

(** [None] is a failed [assert (job->bitmap_size > idx)]. *)
Definition backup_get_bitmap (j : BackupBlockJob) (cluster_num : Z)
    : option bool :=
  let idx := cluster_num / BITS_PER_LONG in
  if (0 <=? idx) && (idx <? bitmap_size j) then
    let bit := cluster_num mod BITS_PER_LONG in
    match bitmap j !! Z.to_nat idx with
    | Some val => Some (negb (Z.land val (Z.shiftl 1 bit) =? 0))
    | None => None
    end
  else None.

Definition backup_set_bitmap (j : BackupBlockJob) (cluster_num : Z)
    (dirty : bool) : option (list Z) :=
  let idx := cluster_num / BITS_PER_LONG in
  if (0 <=? idx) && (idx <? bitmap_size j) then
    let bit := cluster_num mod BITS_PER_LONG in
    match bitmap j !! Z.to_nat idx with
    | Some val =>
        let val := if dirty then Z.lor val (Z.shiftl 1 bit)
                   else Z.land val (to_uint64 (Z.lnot (Z.shiftl 1 bit))) in
        Some (<[Z.to_nat idx := val]> (bitmap j))
    | None => None
    end
  else None.

(** *** Field updates *)

Definition set_at (pc : cow_pc) (f : Frame) : Frame :=
  mkFrame (cow_sector_num f) (cow_nb_sectors f) (cow_start f) (cow_end f)
    (cow_ret f) pc.
Definition set_ret (ret : Z) (f : Frame) : Frame :=
  mkFrame (cow_sector_num f) (cow_nb_sectors f) (cow_start f) (cow_end f)
    ret (cow_at f).
Definition set_start (start : Z) (f : Frame) : Frame :=
  mkFrame (cow_sector_num f) (cow_nb_sectors f) start (cow_end f)
    (cow_ret f) (cow_at f).

Definition set_offset (v : Z) (j : BackupBlockJob) : BackupBlockJob :=
  mkJob (common_len j) v (common_speed j) (common_cancelled j)
    (sectors_read j) (bitmap j) (bitmap_size j).
Definition set_cancelled (v : bool) (j : BackupBlockJob) : BackupBlockJob :=
  mkJob (common_len j) (common_offset j) (common_speed j) v
    (sectors_read j) (bitmap j) (bitmap_size j).
Definition set_sectors_read (v : Z) (j : BackupBlockJob) : BackupBlockJob :=
  mkJob (common_len j) (common_offset j) (common_speed j) (common_cancelled j)
    v (bitmap j) (bitmap_size j).
Definition set_bitmap (v : list Z) (j : BackupBlockJob) : BackupBlockJob :=
  mkJob (common_len j) (common_offset j) (common_speed j) (common_cancelled j)
    (sectors_read j) v (bitmap_size j).

Definition set_job (j : BackupBlockJob) (s : State) : State :=
  mkState j (st_length s) (st_frames s) (st_run s) (st_aborted s)
    (st_trace s).
Definition set_length (v : Z) (s : State) : State :=
  mkState (st_job s) v (st_frames s) (st_run s) (st_aborted s) (st_trace s).
Definition set_frames (fs : list Frame) (s : State) : State :=
  mkState (st_job s) (st_length s) fs (st_run s) (st_aborted s) (st_trace s).
Definition set_run (r : Run) (s : State) : State :=
  mkState (st_job s) (st_length s) (st_frames s) r (st_aborted s)
    (st_trace s).
Definition abort (s : State) : State :=
  mkState (st_job s) (st_length s) (st_frames s) (st_run s) true (st_trace s).
Definition emit (e : event) (s : State) : State :=
  mkState (st_job s) (st_length s) (st_frames s) (st_run s) (st_aborted s)
    (st_trace s ++ [e]).
Definition set_frame (i : nat) (f : Frame) (s : State) : State :=
  set_frames (<[i := f]> (st_frames s)) s.

(** *** backup_do_cow, segment by segment *)

(** The label [out]. *)
Definition backup_do_cow_out (i : nat) (f : Frame) (s : State) : State :=
  set_frame i (set_at CowReturned f) s.

(** [for (; start < end; start++)] up to the source read of the next cluster
    whose bit is clear; the bit is set before the read is issued.  [k] bounds
    the iterations by [end - start]. *)
Fixpoint backup_do_cow_loop (k : nat) (i : nat) (f : Frame) (s : State)
    : State :=
  match k with
  | O => backup_do_cow_out i f s
  | S k' =>
      match backup_get_bitmap (st_job s) (cow_start f) with
      | None => abort s
      | Some true =>
          backup_do_cow_loop k' i (set_start (cow_start f + 1) f) s
      | Some false =>
          match backup_set_bitmap (st_job s) (cow_start f) true with
          | None => abort s
          | Some bm =>
              emit (EvRead i (cow_start f * BACKUP_BLOCKS_PER_CLUSTER)
                      BACKUP_BLOCKS_PER_CLUSTER)
                (set_frame i (set_at CowReading f)
                   (set_job (set_bitmap bm (st_job s)) s))
          end
      end
  end.

Definition backup_do_cow_continue (i : nat) (f : Frame) (s : State) : State :=
  backup_do_cow_loop (Z.to_nat (cow_end f - cow_start f)) i f s.

(** Entry of call number [i]. *)
Definition backup_do_cow (i : nat) (sector_num nb_sectors : Z) (s : State)
    : State :=
  let start := sector_num / BACKUP_BLOCKS_PER_CLUSTER in
  let end_ := (sector_num + nb_sectors + BACKUP_BLOCKS_PER_CLUSTER - 1)
              / BACKUP_BLOCKS_PER_CLUSTER in
  let f := mkFrame sector_num nb_sectors start end_ 0 CowReading in
  backup_do_cow_continue i f
    (emit (EvCow i sector_num nb_sectors false)
       (set_frames (st_frames s ++ [f]) s)).

(** drv->bdrv_co_readv returned [r]. *)
Definition backup_do_cow_read_done (i : nat) (f : Frame) (r : io_result)
    (s : State) : State :=
  let f := set_ret (io_ret r) f in
  if io_ret r <? 0 then backup_do_cow_out i f s
  else
    let zero := buffer_is_zero (io_data r) BACKUP_CLUSTER_SIZE in
    let j := st_job s in
    let s := set_job (set_sectors_read
                        (to_uint64 (sectors_read j + BACKUP_BLOCKS_PER_CLUSTER))
                        j) s in
    if negb zero then
      emit (EvWrite i (cow_start f * BACKUP_BLOCKS_PER_CLUSTER)
              BACKUP_BLOCKS_PER_CLUSTER
              (take (Z.to_nat BACKUP_CLUSTER_SIZE) (io_data r)))
        (set_frame i (set_at CowWriting f) s)
    else backup_do_cow_continue i (set_start (cow_start f + 1) f) s.

(** bdrv_co_writev returned [r]. *)
Definition backup_do_cow_write_done (i : nat) (f : Frame) (r : io_result)
    (s : State) : State :=
  let f := set_ret (io_ret r) f in
  if io_ret r <? 0 then backup_do_cow_out i f s
  else backup_do_cow_continue i (set_start (cow_start f + 1) f) s.

Definition resume_cow (i : nat) (r : io_result) (s : State) : State :=
  match st_frames s !! i with
  | None => s
  | Some f =>
      match cow_at f with
      | CowReading => backup_do_cow_read_done i f r s
      | CowWriting => backup_do_cow_write_done i f r s
      | CowReturned => s
      end
  end.

(** What call [i] returned, once it has. *)
Definition returned (s : State) (i : nat) : option Z :=
  match st_frames s !! i with
  | Some f => match cow_at f with CowReturned => Some (cow_ret f) | _ => None end
  | None => None
  end.

(** *** The hooks of the job type *)

(** A hook runs in the guest request's coroutine; its return value is that of
    the call it makes, which gets the next free number.  The [qiov] argument
    is not used. *)
Definition backup_before_read (sector_num nb_sectors : Z) (s : State)
    : State :=
  backup_do_cow (length (st_frames s)) sector_num nb_sectors s.

Definition backup_before_write (sector_num nb_sectors : Z) (s : State)
    : State :=
  backup_do_cow (length (st_frames s)) sector_num nb_sectors s.

Record BlockJobType := mkJobType {
  before_read : option (Z -> Z -> State -> State);
  before_write : option (Z -> Z -> State -> State);
  job_type : list byte }.

Definition backup_job_type : BlockJobType :=
  mkJobType (Some backup_before_read) (Some backup_before_write)
    [x62; x61; x63; x6b; x75; x70].

(** *** backup_run *)

Definition set_run_at (pc : run_pc) (s : State) : State :=
  set_run (mkRun (run_start (st_run s)) (run_end (st_run s))
             (run_ret (st_run s)) pc) s.
Definition set_run_start (v : Z) (s : State) : State :=
  set_run (mkRun v (run_end (st_run s)) (run_ret (st_run s))
             (run_at (st_run s))) s.
Definition set_run_ret (v : Z) (s : State) : State :=
  set_run (mkRun (run_start (st_run s)) (run_end (st_run s)) v
             (run_at (st_run s))) s.

Definition pending (f : Frame) : bool :=
  match cow_at f with CowReturned => false | _ => true end.

Definition backup_run_complete (s : State) : State :=
  emit (EvCompleted (run_ret (st_run s))) (set_run_at RunCompleted s).

(** The code after the loop: the write lock is granted once no
    [backup_do_cow] call holds the lock. *)
Definition backup_run_exit (s : State) : State :=
  if existsb pending (st_frames s) then set_run_at RunDraining s
  else backup_run_complete s.

(** The loop test and the body up to block_job_sleep_ns. *)
Definition backup_run_loop (s : State) : State :=
  if run_start (st_run s) <? run_end (st_run s) then
    if common_cancelled (st_job s) then backup_run_exit (set_run_ret (-1) s)
    else if negb (common_speed (st_job s) =? 0) then
      let j := st_job s in
      emit EvSleep
        (set_run_at RunSleeping
           (set_job (set_sectors_read 0 j)
              (emit (EvRatelimit (sectors_read j)) s)))
    else emit EvSleep (set_run_at RunSleeping s)
  else backup_run_exit s.

(** [start++] of the for statement, then the loop again. *)
Definition backup_run_next (s : State) : State :=
  backup_run_loop (set_run_start (run_start (st_run s) + 1) s).

(** bdrv_co_backup returned [ret]. *)
Definition backup_run_cow_done (ret : Z) (s : State) : State :=
  let s := set_run_ret ret s in
  if ret <? 0 then backup_run_exit s
  else
    let j := st_job s in
    backup_run_next
      (set_job (set_offset (to_int64 (common_offset j + BACKUP_CLUSTER_SIZE))
                  j) s).

Definition backup_run_resume (i : nat) (s : State) : State :=
  match run_at (st_run s) with
  | RunInCow j =>
      if Nat.eqb j i then
        match returned s i with
        | Some ret => backup_run_cow_done ret s
        | None => s
        end
      else s
  | _ => s
  end.

(** Modelled from the spec: [bdrv_co_backup] is part of block.c, which is not
    among the sources.  Section 4.F, step 4: the sweep invokes the
    copy-on-write engine for a one-sector range at the cluster; the comment at
    the call says the detour only adds the request tracking. *)
Definition bdrv_co_backup (i : nat) (sector_num nb_sectors : Z) (s : State)
    : State :=
  backup_do_cow i sector_num nb_sectors s.

(** block_job_sleep_ns returned. *)
Definition backup_run_wake (s : State) : State :=
  if common_cancelled (st_job s) then backup_run_exit (set_run_ret (-1) s)
  else
    match backup_get_bitmap (st_job s) (run_start (st_run s)) with
    | None => abort s
    | Some true => backup_run_next s
    | Some false =>
        let i := length (st_frames s) in
        backup_run_resume i
          (bdrv_co_backup i
             (run_start (st_run s) * BACKUP_BLOCKS_PER_CLUSTER) 1
             (set_run_at (RunInCow i) s))
    end.

(** [backup_run] from its entry to the first suspension. *)
Definition backup_run (j : BackupBlockJob) (length_bs : Z) : State :=
  let end_ := (length_bs / BDRV_SECTOR_SIZE + BACKUP_BLOCKS_PER_CLUSTER - 1)
              / BACKUP_BLOCKS_PER_CLUSTER in
  backup_run_loop
    (mkState j length_bs [] (mkRun 0 end_ 0 RunSleeping) false []).

(** Modelled from the spec: block_job_create (blockjob.c) is not among the
    sources; it fills in the common part of the job and refuses a speed that
    [backup_set_speed] refuses. *)
Definition backup_start (length_bs speed : Z) : option State :=
  if speed <? 0 then None
  else
    let bitmap_size :=
      (length_bs / BDRV_SECTOR_SIZE
       + BACKUP_BLOCKS_PER_CLUSTER * BITS_PER_LONG - 1)
      / (BACKUP_BLOCKS_PER_CLUSTER * BITS_PER_LONG) in
    Some (backup_run
            (mkJob length_bs 0 speed false 0
               (replicate (Z.to_nat bitmap_size) 0) (to_int bitmap_size))
            length_bs).

(** *** The scheduler *)

(** Modelled from the spec: the block layer's dispatch to the hooks is part
    of block.c, which is not among the sources.  Section 6: the hook is called
    with the request's sector range before the request is submitted and its
    result gates the request; hooks are consulted while the device has a
    job. *)
Definition hook (h : option (Z -> Z -> State -> State))
    (sector_num nb_sectors : Z) (s : State) : State :=
  match run_at (st_run s), h with
  | RunCompleted, _ | _, None => s
  | _, Some f => f sector_num nb_sectors s
  end.

Definition step (s : State) (a : action) : State :=
  if st_aborted s then s else
  match a with
  | ACancel => set_job (set_cancelled true (st_job s)) s
  | ASetLength v => set_length v s
  | AGuestWrite sector_num nb_sectors =>
      hook (before_write backup_job_type) sector_num nb_sectors s
  | AGuestRead sector_num nb_sectors =>
      hook (before_read backup_job_type) sector_num nb_sectors s
  | AResume i r => backup_run_resume i (resume_cow i r s)
  | AWake =>
      match run_at (st_run s) with
      | RunSleeping => backup_run_wake s
      | RunDraining =>
          if existsb pending (st_frames s) then s else backup_run_complete s
      | _ => s
      end
  end.

Definition run (s : State) (acts : list action) : State :=
  fold_left step acts s.

(** *** Vocabulary of the proofs *)

(** What the variant ever issues: reads and writes of a whole cluster,
    never a write-zeroes, never a question to the error policy. *)
Definition whole_cluster (e : event) : Prop :=
  match e with
  | EvRead _ _ n | EvWrite _ _ n _ => n = BACKUP_BLOCKS_PER_CLUSTER
  | EvWriteZeroes _ _ _ | EvErrorAction _ _ => False
  | _ => True
  end.

Definition cluster_read (e : event) : Prop :=
  match e with EvRead _ _ n => n = BACKUP_BLOCKS_PER_CLUSTER | _ => False end.

Definition sweep_event (e : event) : Prop :=
  match e with
  | EvRatelimit _ | EvSleep | EvCompleted _ => True
  | _ => False
  end.

Definition grows (P : event -> Prop) (s s' : State) : Prop :=
  exists l, st_trace s' = st_trace s ++ l /\ Forall P l.

(** *** Zero clusters in the variant *)
Definition no_target_op (e : event) : Prop :=
  match e with
  | EvWrite _ _ _ _ | EvWriteZeroes _ _ _ => False
  | _ => True
  end.

(** *** The sweep of the variant *)
Definition exited (s : State) : Prop :=
  run_at (st_run s) = RunDraining \/ run_at (st_run s) = RunCompleted.

(** *** The bitmap as a vector of bits *)

(** [g_new0 (unsigned long, bitmap_size)]: the array has [bitmap_size]
    words. *)
Definition bitmap_wf (j : BackupBlockJob) : Prop :=
  length (bitmap j) = Z.to_nat (bitmap_size j).

(** Guest requests that lie inside a device of [len] bytes. *)
Definition in_device (len : Z) (a : action) : Prop :=
  match a with
  | AGuestWrite sector_num nb_sectors | AGuestRead sector_num nb_sectors =>
      0 <= sector_num /\ 0 <= nb_sectors
      /\ sector_num + nb_sectors <= len / BDRV_SECTOR_SIZE
  | _ => True
  end.

(** The clusters of a device of [len] bytes, as [backup_run] counts them. *)
Definition clusters (len : Z) : Z :=
  (len / BDRV_SECTOR_SIZE + BACKUP_BLOCKS_PER_CLUSTER - 1)
  / BACKUP_BLOCKS_PER_CLUSTER.

Definition frame_fits (E : Z) (f : Frame) : Prop :=
  cow_at f <> CowReturned -> 0 <= cow_start f /\ cow_end f <= E.

(** No assert has failed and none can: the bitmap has a bit for every
    cluster below [E], and calls and sweep stay below [E]. *)
Definition fits_core (E : Z) (s : State) : Prop :=
  st_aborted s = false
  /\ bitmap_wf (st_job s)
  /\ E <= BITS_PER_LONG * bitmap_size (st_job s)
  /\ run_end (st_run s) = E
  /\ 0 <= run_start (st_run s)
  /\ Forall (frame_fits E) (st_frames s).

Definition fits (E : Z) (s : State) : Prop :=
  fits_core E s
  /\ (run_at (st_run s) = RunSleeping -> run_start (st_run s) < E).

(** The sectors at which source reads were issued, in order. *)
Definition read_sectors (l : list event) : list Z :=
  flat_map (fun e => match e with EvRead _ sector _ => [sector] | _ => [] end)
    l.

(** Every source read so far was issued at the start of a cluster whose bit
    is set, and no two at the same sector. *)
Definition reads_marked (s : State) : Prop :=
  NoDup (read_sectors (st_trace s))
  /\ forall sector, In sector (read_sectors (st_trace s)) ->
       exists c, sector = c * BACKUP_BLOCKS_PER_CLUSTER
                 /\ backup_get_bitmap (st_job s) c = Some true.

(** What the sweep's own code leaves alone. *)
Definition kept (s s' : State) : Prop :=
  bitmap (st_job s') = bitmap (st_job s)
  /\ bitmap_size (st_job s') = bitmap_size (st_job s)
  /\ st_frames s' = st_frames s
  /\ st_aborted s' = st_aborted s
  /\ run_end (st_run s') = run_end (st_run s)
  /\ read_sectors (st_trace s') = read_sectors (st_trace s).

(** What a segment of [backup_do_cow] leaves alone. *)
Definition cow_kept (s s' : State) : Prop :=
  st_run s' = st_run s
  /\ common_offset (st_job s') = common_offset (st_job s)
  /\ bitmap_size (st_job s') = bitmap_size (st_job s)
  /\ common_cancelled (st_job s') = common_cancelled (st_job s).

(** *** The drain *)
Definition all_returned (s : State) : Prop :=
  Forall (fun f => cow_at f = CowReturned) (st_frames s).

(** The job completes only when every call has returned. *)
Definition drained (s : State) : Prop :=
  run_at (st_run s) = RunCompleted -> all_returned s.

(** Nothing observable distinguishes the two states, and no call moved. *)
Definition frozen (s s' : State) : Prop :=
  st_trace s' = st_trace s /\ st_frames s' = st_frames s
  /\ st_run s' = st_run s /\ st_aborted s' = st_aborted s
  /\ bitmap (st_job s') = bitmap (st_job s)
  /\ common_offset (st_job s') = common_offset (st_job s).

End Backup.

(** * Concrete runs

    Small devices and schedules on which the theorems below are
    instantiated. *)
Module Scenarios.

Definition io_error : io_result := IoResult (- EIO) [].
Definition io_done : io_result := IoResult 0 [].
Definition io_pattern : io_result := IoResult 0 [x01].
Definition io_zeroes : io_result :=
  IoResult 0 (replicate (Z.to_nat BACKUP_CLUSTER_SIZE) x00).

(** [backup_start] of block/backup.c on a device of [len] bytes, unlimited
    speed, the same policy [p] on both sides. *)
Definition main_start (len : Z) (p : BlockdevOnError) : BlockBackup.State :=
  BlockBackup.backup_run
    (BlockBackup.mkJob len 0 0 false p p 0 BlockBackup.hbitmap_alloc []) len.

(** [backup_start] of backup.c on a device of at most 64 clusters. *)
Definition variant_start (len : Z) : Backup.State :=
  Backup.backup_run (Backup.mkJob len 0 0 false 0 [0] 1) len.

(** One sector, one short cluster. *)
Definition one_sector : Z := 512.


(** A guest write arrives while the sweep copies the cluster it touches. *)
Definition write_during_sweep : list action :=
  [AWake; AGuestWrite 0 1; AResume 0 io_pattern].

End Scenarios.

(** * Facts about block/backup.c *)
Module BlockBackupFacts.
Import BlockBackup.

Lemma skip_copied_spec k hb start c b :
  skip_copied k hb start = (c, b) ->
  start <= c <= start + Z.of_nat k
  /\ (forall x, start <= x < c -> hbitmap_get hb x = true)
  /\ (if b then hbitmap_get hb c = false /\ c < start + Z.of_nat k
      else c = start + Z.of_nat k).
Proof.
  revert start. induction k as [|k IH]; intros start; simpl.
  - intros [= <- <-]. split; [lia|]. split; [|lia]. intros x Hx. lia.
  - destruct (hbitmap_get hb start) eqn:Hb.
    + intros H. apply IH in H. destruct H as (H1 & H2 & H3).
      split; [lia|]. split.
      * intros x Hx. destruct (Z.eq_dec x start) as [->|]; [done|].
        apply H2. lia.
      * destruct b; [split; [tauto | lia] | lia].
    + intros [= <- <-]. split; [lia|]. split; [|split; [done|lia]].
      intros x Hx. lia.
Qed.

Lemma overlaps_sym r1 r2 :
  overlaps (req_start r1) (req_end r1) r2
  = overlaps (req_start r2) (req_end r2) r1.
Proof. unfold overlaps. apply andb_comm. Qed.

Lemma disjoint_reqs_filter p l :
  disjoint_reqs l -> disjoint_reqs (List.filter p l).
Proof.
  induction l as [|r l IH]; simpl; [done|].
  intros [H1 H2]. destruct (p r); simpl; [split|]; auto.
  intros r' Hr'. apply filter_In in Hr'. apply H1. tauto.
Qed.

Lemma disjoint_reqs_In l r1 r2 :
  disjoint_reqs l -> In r1 l -> In r2 l -> r1 <> r2 ->
  overlaps (req_start r1) (req_end r1) r2 = false.
Proof.
  induction l as [|r l IH]; simpl; [done|].
  intros [H1 H2] [->|Hi1] [->|Hi2] Hne; auto; try congruence.
  rewrite overlaps_sym. auto.
Qed.

Lemma frame_ok_transfer s s' j f :
  (forall r, req_owner r = j ->
     (In r (inflight_reqs (st_job s')) <-> In r (inflight_reqs (st_job s)))) ->
  (forall c, hbitmap_get (bitmap (st_job s)) c = true ->
     hbitmap_get (bitmap (st_job s')) c = true) ->
  (copying f ->
     hbitmap_get (bitmap (st_job s')) (cow_start f)
     = hbitmap_get (bitmap (st_job s)) (cow_start f)) ->
  incl (st_trace s) (st_trace s') ->
  frame_ok s j f -> frame_ok s' j f.
Proof.
  intros Hin Hmono Hbit Htr.
  assert (Hholds : holds s j f -> holds s' j f).
  { intros (H1 & H2 & H3 & H4 & H5 & H6). repeat split; auto.
    - apply Hin; [rewrite H1; done | done].
    - intros r Hr Ho. apply H3; [apply Hin|]; done. }
  assert (Hno : no_request s j -> no_request s' j).
  { intros H r Hr Ho. apply (H r); [apply Hin|]; done. }
  assert (Hat : copying f -> at_cluster s f -> at_cluster s' f).
  { intros Hc (H1 & H2 & H3). repeat split; auto. rewrite Hbit; auto. }
  unfold frame_ok. destruct (cow_at f) eqn:Hpc.
  - intros []; split; auto.
  - intros []; split; auto.
  - intros (H1 & H2 & H3). split; [|split]; auto.
    apply Hat; [left|]; done.
  - intros (H1 & H2 & H3). split; [|split]; auto.
    + apply Hat; [right|]; done.
    + destruct H3 as [H3|[d H3]]; [left|right; exists d]; auto.
  - intros []; split; auto.
Qed.

Lemma frame_ok_restart s i j f : frame_ok s j f -> frame_ok s j (restart i f).
Proof.
  unfold restart. destruct (cow_at f) eqn:Hpc; auto.
  destruct (Nat.eqb on i); auto.
  unfold frame_ok. rewrite Hpc. simpl. auto.
Qed.

Lemma restart_copying i f : copying f -> restart i f = f.
Proof. unfold restart. intros [-> | ->]; done. Qed.

Ltac transfer H :=
  eapply frame_ok_transfer; [ | | | | apply H; auto]; simpl;
  auto using incl_refl, incl_appl; try tauto.

Lemma not_owned i r : negb (owned_by i r) = true <-> req_owner r <> i.
Proof.
  unfold owned_by. destruct (Nat.eqb_spec (req_owner r) i); simpl; split;
    congruence.
Qed.

Lemma out_ok i f s :
  reg_on (fun j => j <> i) s -> (i < length (st_frames s))%nat ->
  written_on_error f ->
  reg_inv (backup_do_cow_out i f s).
Proof.
  intros (Hd & Hlen & Hown & Hfr) Hi Hw.
  unfold backup_do_cow_out, cow_request_end, reg_inv, reg_on. simpl.
  split; [|split; [|split]].
  - by apply disjoint_reqs_filter.
  - intros r Hr. apply filter_In in Hr as [Hr _].
    rewrite length_insert, length_fmap. auto.
  - intros r Hr _. apply filter_In in Hr as [Hr Ho].
    apply not_owned in Ho as Hne.
    destruct (Hown r Hr Hne) as (fr & Hl & Hreq & Hc).
    exists fr. split; [|done].
    rewrite list_lookup_insert_ne by done.
    rewrite list_lookup_fmap, Hl. simpl. by rewrite restart_copying.
  - intros j f' _ Hl.
    destruct (decide (i = j)) as [<-|Hne].
    + rewrite list_lookup_insert_eq in Hl by (rewrite length_fmap; done).
      injection Hl as <-. unfold frame_ok. simpl. split; [|done].
      intros r Hr. apply filter_In in Hr as [_ Ho]. by apply not_owned.
    + rewrite list_lookup_insert_ne in Hl by done.
      rewrite list_lookup_fmap in Hl.
      destruct (st_frames s !! j) as [fj|] eqn:Hj; [|done].
      injection Hl as <-.
      apply frame_ok_restart.
      transfer (Hfr j fj).
      intros r Ho. rewrite filter_In, not_owned. split; [tauto|].
      intros Hr. split; [done|congruence].
Qed.

Lemma reg_on_weaken (P Q : nat -> Prop) s :
  (forall j, Q j -> P j) -> reg_on P s -> reg_on Q s.
Proof.
  intros HPQ (Hd & Hlen & Hown & Hfr). repeat split; auto.
Qed.

Lemma loop_ok i f s :
  reg_on (fun j => j <> i) s -> (i < length (st_frames s))%nat ->
  holds s i f -> reg_inv (backup_do_cow_loop i f s).
Proof.
  intros Hreg Hi Hh. unfold backup_do_cow_loop.
  destruct (skip_copied _ _ _) as [c b] eqn:Hskip.
  apply skip_copied_spec in Hskip. destruct Hskip as (Hc1 & Hc2 & Hc3).
  destruct b;
    [|apply out_ok; [done|done|];
      destruct Hh as (_&_&_&_&_&?); split; [left|]; simpl; done].
  destruct Hc3 as [Hclear Hlt].
  destruct Hreg as (Hd & Hlen & Hown & Hfr).
  destruct Hh as (H1 & H2 & H3 & H4 & H5 & H6).
  unfold reg_inv, reg_on. simpl. split; [done|]. split; [|split].
  - intros r Hr. rewrite length_insert. auto.
  - intros r Hr _. destruct (decide (req_owner r = i)) as [Ho|Hne].
    + rewrite Ho, list_lookup_insert_eq by done. eexists. split; [done|].
      simpl. split; [symmetry; auto|by left].
    + rewrite list_lookup_insert_ne by done. auto.
  - intros j f' _ Hl. destruct (decide (i = j)) as [<-|Hne].
    + rewrite list_lookup_insert_eq in Hl by done. injection Hl as <-.
      unfold frame_ok, holds, at_cluster. simpl.
      split; [|split].
      * repeat split; auto; try lia.
        intros x Hx. destruct (Z_lt_ge_dec x (cow_start f)).
        -- apply H5. lia.
        -- apply Hc2. lia.
      * repeat split; auto. lia.
      * apply in_or_app. right. by left.
    + rewrite list_lookup_insert_ne in Hl by done.
      transfer (Hfr j f').
Qed.

Lemma begin_ok i f s :
  reg_on (fun j => j <> i) s -> (i < length (st_frames s))%nat ->
  no_request s i ->
  (forall r, In r (inflight_reqs (st_job s)) ->
     overlaps (cow_start f) (cow_end f) r = false) ->
  cow_error_is_read f = None ->
  reg_inv (backup_do_cow_begin i f s).
Proof.
  intros (Hd & Hlen & Hown & Hfr) Hi Hno Hov He.
  unfold backup_do_cow_begin.
  set (req := mkReq i (cow_start f) (cow_end f)).
  set (s1 := set_job (cow_request_begin req (st_job s)) s).
  assert (Hreg1 : reg_on (fun j => j <> i) s1).
  { unfold reg_on. subst s1. simpl. repeat split; auto.
    - intros r [<-|Hr]; simpl; auto.
    - intros r [<-|Hr] Hne; simpl in *; [done|auto].
    - intros j fj Hne Hl.
      transfer (Hfr j fj).
      intros r Ho. split; [|tauto].
      intros [<-|]; [simpl in Ho; congruence|done]. }
  destruct (Z.ltb_spec (st_length s1) 0);
    [apply out_ok; [done|subst s1; done|];
     split; [right; right; simpl; done|simpl; by intros ->]|].
  apply loop_ok; [done|subst s1; done|].
  unfold holds. subst s1. simpl. repeat split; auto; try lia.
  intros r [<-|Hr] Ho; [done|]. by destruct (Hno r Hr).
Qed.

Lemma gate_ok i f s :
  reg_on (fun j => j <> i) s -> (i < length (st_frames s))%nat ->
  no_request s i -> cow_error_is_read f = None ->
  reg_inv (backup_do_cow_gate i f s).
Proof.
  intros Hreg Hi Hno He. unfold backup_do_cow_gate.
  destruct (wait_for_overlapping_requests _ _ _) as [req|] eqn:Hw.
  - destruct Hreg as (Hd & Hlen & Hown & Hfr).
    unfold reg_inv, reg_on. simpl. split; [done|]. split; [|split].
    + intros r Hr. rewrite length_insert. auto.
    + intros r Hr _. assert (req_owner r <> i) as Hne by (by apply Hno).
      rewrite list_lookup_insert_ne by done. auto.
    + intros j f' _ Hl. destruct (decide (i = j)) as [<-|Hne].
      * rewrite list_lookup_insert_eq in Hl by done. injection Hl as <-.
        unfold frame_ok. simpl. done.
      * rewrite list_lookup_insert_ne in Hl by done.
        transfer (Hfr j f').
  - apply begin_ok; auto. unfold wait_for_overlapping_requests in Hw.
    intros r Hr. eapply find_none in Hw; eauto.
Qed.

Lemma reg_inv_but i s : reg_inv s -> reg_on (fun j => j <> i) s.
Proof. apply reg_on_weaken. done. Qed.

Lemma reg_inv_frame s i f :
  reg_inv s -> st_frames s !! i = Some f -> frame_ok s i f.
Proof. intros (_ & _ & _ & H) Hl. by apply H. Qed.

Lemma read_done_ok i f r s :
  reg_inv s -> st_frames s !! i = Some f -> cow_at f = CowReading ->
  reg_inv (backup_do_cow_read_done i f r s).
Proof.
  intros Hreg Hl Hpc. pose proof (lookup_lt_Some _ _ _ Hl) as Hi.
  unfold backup_do_cow_read_done.
  pose proof (reg_inv_frame _ _ _ Hreg Hl) as Hok.
  unfold frame_ok in Hok. rewrite Hpc in Hok. destruct Hok as (Hh & Hat & Hev).
  destruct (Z.ltb_spec (io_ret r) 0);
    [apply out_ok; [by apply reg_inv_but|done|];
     destruct Hh as (_&_&_&_&_&Hn);
     split; [right; left; simpl; done|simpl; rewrite Hn; by intros ->]|].
  destruct Hreg as (Hd & Hlen & Hown & Hfr).
  set (ev := if buffer_is_zero _ _ then _ else _).
  assert (Hsplit : ev = emit
    (if buffer_is_zero (io_data r) (cow_n (set_ret (io_ret r) f) * BDRV_SECTOR_SIZE)
     then EvWriteZeroes i (cow_start f * BACKUP_SECTORS_PER_CLUSTER) (cow_n f)
     else EvWrite i (cow_start f * BACKUP_SECTORS_PER_CLUSTER) (cow_n f)
            (take (Z.to_nat (cow_n f * BDRV_SECTOR_SIZE)) (io_data r)))
    (set_frame i (set_at CowWriting (set_ret (io_ret r) f)) s)).
  { subst ev. simpl. by destruct (buffer_is_zero _ _). }
  rewrite Hsplit. clear Hsplit ev.
  unfold reg_inv, reg_on. simpl. split; [done|]. split; [|split].
  - intros q Hq. rewrite length_insert. auto.
  - intros q Hq _. destruct (decide (req_owner q = i)) as [Ho|Hne].
    + rewrite Ho, list_lookup_insert_eq by done. eexists. split; [done|].
      simpl. split; [|by right].
      destruct (Hown q Hq I) as (fq & Hlq & Hrq & _). congruence.
    + rewrite list_lookup_insert_ne by done. auto.
  - intros j f' _ Hl'. destruct (decide (i = j)) as [<-|Hne].
    + rewrite list_lookup_insert_eq in Hl' by done. injection Hl' as <-.
      unfold frame_ok. simpl. split; [done|]. split; [done|].
      destruct (buffer_is_zero _ _); [left|right; eexists];
        apply in_or_app; right; by left.
    + rewrite list_lookup_insert_ne in Hl' by done.
      transfer (Hfr j f').
Qed.

Lemma hbitmap_set_get hb c x :
  hbitmap_get (hbitmap_set hb c) x = if x =? c then true else hbitmap_get hb x.
Proof. reflexivity. Qed.

Lemma copying_elsewhere s i j fi fj :
  reg_inv s -> i <> j ->
  st_frames s !! i = Some fi -> st_frames s !! j = Some fj ->
  copying fi -> copying fj -> cow_start fi <> cow_start fj.
Proof.
  intros Hreg Hne Hi Hj Hci Hcj.
  pose proof (reg_inv_frame _ _ _ Hreg Hi) as Hoi.
  pose proof (reg_inv_frame _ _ _ Hreg Hj) as Hoj.
  destruct Hreg as (Hd & _).
  assert (Hi' : holds s i fi /\ at_cluster s fi).
  { unfold frame_ok in Hoi. destruct Hci as [Hp|Hp]; rewrite Hp in Hoi; tauto. }
  assert (Hj' : holds s j fj /\ at_cluster s fj).
  { unfold frame_ok in Hoj. destruct Hcj as [Hp|Hp]; rewrite Hp in Hoj; tauto. }
  destruct Hi' as ((A1 & A2 & _ & A4 & _) & (A5 & _)).
  destruct Hj' as ((B1 & B2 & _ & B4 & _) & (B5 & _)).
  assert (cow_request fi <> cow_request fj) as Hreq.
  { rewrite A1, B1. congruence. }
  pose proof (disjoint_reqs_In _ _ _ Hd A2 B2 Hreq) as Hov.
  unfold overlaps in Hov. rewrite A1, B1 in Hov. simpl in Hov.
  rewrite A1 in A4. rewrite B1 in B4. simpl in A4, B4.
  apply andb_false_iff in Hov. rewrite !Z.ltb_ge in Hov. lia.
Qed.

Lemma write_done_ok i f r s :
  reg_inv s -> st_frames s !! i = Some f -> cow_at f = CowWriting ->
  reg_inv (backup_do_cow_write_done i f r s).
Proof.
  intros Hreg Hl Hpc. pose proof (lookup_lt_Some _ _ _ Hl) as Hi.
  unfold backup_do_cow_write_done.
  pose proof (reg_inv_frame _ _ _ Hreg Hl) as Hok.
  unfold frame_ok in Hok. rewrite Hpc in Hok. destruct Hok as (Hh & Hat & Hev).
  destruct (Z.ltb_spec (io_ret r) 0);
    [apply out_ok; [by apply reg_inv_but|done|];
     destruct Hh as (_&_&_&_&_&Hn);
     split; [right; left; simpl; done|simpl; rewrite Hn; by intros ->]|].
  apply loop_ok; [|done|].
  - pose proof Hreg as (Hd & Hlen & Hown & Hfr).
    unfold reg_on. simpl. repeat split; auto.
    intros j fj Hne Hj. transfer (Hfr j fj).
    + intros c Hc. rewrite hbitmap_set_get. by destruct (c =? _).
    + intros Hcj. rewrite hbitmap_set_get.
      destruct (Z.eqb_spec (cow_start fj) (cow_start f)) as [He|]; [|done].
      exfalso. eapply (copying_elsewhere s i j f fj); eauto. by right.
  - destruct Hh as (H1 & H2 & H3 & H4 & H5 & H6).
    unfold holds. simpl. repeat split; auto; try lia.
    intros c Hc. rewrite hbitmap_set_get.
    destruct (Z.eqb_spec c (cow_start f)); [done|]. apply H5. lia.
Qed.

Lemma do_cow_ok sector_num nb_sectors eir s :
  reg_inv s ->
  reg_inv (backup_do_cow (length (st_frames s)) sector_num nb_sectors eir s).
Proof.
  intros (Hd & Hlen & Hown & Hfr). unfold backup_do_cow.
  apply gate_ok; simpl; auto.
  - unfold reg_on. simpl. repeat split; auto.
    + intros r Hr. rewrite length_app. simpl. specialize (Hlen r Hr). lia.
    + intros r Hr _. destruct (Hown r Hr I) as (f & Hl & Hf).
      exists f. split; [|done]. by apply lookup_app_l_Some.
    + intros j f Hne Hl. apply lookup_snoc_Some in Hl as [[_ Hl]|[-> _]]; [|done].
      transfer (Hfr j f).
  - rewrite length_app. simpl. lia.
  - intros r Hr. specialize (Hlen r Hr). simpl in Hlen. lia.
Qed.

Lemma resume_cow_ok i r s : reg_inv s -> reg_inv (resume_cow i r s).
Proof.
  intros Hreg. unfold resume_cow.
  destruct (st_frames s !! i) as [f|] eqn:Hl; [|done].
  pose proof (lookup_lt_Some _ _ _ Hl) as Hi.
  pose proof (reg_inv_frame _ _ _ Hreg Hl) as Hok. unfold frame_ok in Hok.
  destruct (cow_at f) eqn:Hpc; auto.
  - apply gate_ok; [by apply reg_inv_but|done|tauto|tauto].
  - by apply read_done_ok.
  - by apply write_done_ok.
Qed.

Lemma same_core_refl s : same_core s s.
Proof. repeat split; auto. exists []. by rewrite app_nil_r. Qed.

Lemma same_core_trans s1 s2 s3 :
  same_core s1 s2 -> same_core s2 s3 -> same_core s1 s3.
Proof.
  intros (A1 & A2 & A3 & A4 & A5 & A6 & l1 & A7 & A8)
         (B1 & B2 & B3 & B4 & B5 & B6 & l2 & B7 & B8).
  repeat split; try congruence. exists (l1 ++ l2).
  split; [by rewrite B7, A7, app_assoc|]. by apply Forall_app.
Qed.

Lemma same_core_incl s s' : same_core s s' -> incl (st_trace s) (st_trace s').
Proof.
  intros (_ & _ & _ & _ & _ & _ & l & -> & _). apply incl_appl, incl_refl.
Qed.

Lemma reg_on_core P s s' : same_core s s' -> reg_on P s -> reg_on P s'.
Proof.
  intros Hc (Hd & Hlen & Hown & Hfr).
  pose proof (same_core_incl _ _ Hc) as Hincl.
  destruct Hc as (A1 & A2 & _ & _ & _ & A3 & _).
  unfold reg_on. rewrite A1, A3. repeat split; auto.
  intros j f Hj Hl. transfer (Hfr j f).
  - intros r _. by rewrite A1.
  - intros c. by rewrite A2.
  - by rewrite A2.
Qed.

Ltac core_tac :=
  repeat split; simpl; auto;
  first [ by (exists []; rewrite app_nil_r)
        | by (eexists; split; [reflexivity|repeat constructor])
        | by (eexists; split; [symmetry; apply app_assoc|repeat constructor]) ].

Lemma complete_core s : same_core s (backup_run_complete s).
Proof. core_tac. Qed.

Lemma exit_core s : same_core s (backup_run_exit s).
Proof.
  unfold backup_run_exit. simpl. destruct (existsb _ _).
  - core_tac.
  - eapply same_core_trans; [|apply complete_core]. core_tac.
Qed.

Lemma loop_core s : same_core s (backup_run_loop s).
Proof.
  unfold backup_run_loop.
  destruct (_ <? _); [|apply exit_core].
  destruct (common_cancelled _); [apply exit_core|].
  destruct (negb _); core_tac.
Qed.

Lemma next_core s : same_core s (backup_run_next s).
Proof.
  unfold backup_run_next. eapply same_core_trans; [|apply loop_core].
  core_tac.
Qed.

Lemma cow_done_core ret eir s : same_core s (backup_run_cow_done ret eir s).
Proof.
  unfold backup_run_cow_done.
  destruct (ret <? 0);
    [|eapply same_core_trans; [|apply next_core]; core_tac].
  destruct (is_report _).
  - eapply same_core_trans; [|apply exit_core]. core_tac.
  - eapply same_core_trans; [|apply next_core]. core_tac.
Qed.

Lemma resume_core i s : same_core s (backup_run_resume i s).
Proof.
  unfold backup_run_resume. destruct (run_at _); try apply same_core_refl.
  destruct (Nat.eqb _ _); [|apply same_core_refl].
  destruct (_ !! _) as [f|]; [|apply same_core_refl].
  destruct (cow_at f); try apply same_core_refl. apply cow_done_core.
Qed.

Lemma step_ok s a : reg_inv s -> reg_inv (step s a).
Proof.
  intros Hreg. destruct a as [|v|sn nb|sn nb|i r|]; simpl; auto.
  - destruct (st_before_write s); [|done]. by apply do_cow_ok.
  - eapply reg_on_core; [apply resume_core|]. by apply resume_cow_ok.
  - destruct (run_at (st_run s)); auto.
    + unfold backup_run_wake. destruct (common_cancelled _).
      * eapply reg_on_core; [apply exit_core|done].
      * eapply reg_on_core; [apply resume_core|].
        apply (do_cow_ok _ _ _ (set_run_at (RunInCow (length (st_frames s))) s)).
        eapply reg_on_core; [|exact Hreg]. core_tac.
    + destruct (existsb _ _); [done|].
      eapply reg_on_core; [apply complete_core|done].
Qed.

Lemma run_app s acts acts' : run s (acts ++ acts') = run (run s acts) acts'.
Proof. apply fold_left_app. Qed.

Lemma run_ok s acts : reg_inv s -> reg_inv (run s acts).
Proof.
  revert s. induction acts as [|a acts IH]; intros s H; simpl; [done|].
  apply IH. by apply step_ok.
Qed.

Lemma backup_run_ok j len : reg_inv (backup_run j len).
Proof.
  unfold backup_run. eapply reg_on_core; [apply loop_core|].
  unfold reg_inv, reg_on. simpl. repeat split; try done.
Qed.

Lemma backup_start_ok len speed src tgt io s :
  backup_start len speed src tgt io = Some s -> reg_inv s.
Proof.
  unfold backup_start. intros H.
  destruct src, io, (speed <? 0); try discriminate; injection H as <-;
    apply backup_run_ok.
Qed.

Lemma cow_quiet_refl s : cow_quiet s s.
Proof. repeat split; auto. exists []. by rewrite app_nil_r. Qed.

Lemma cow_quiet_trans s1 s2 s3 :
  cow_quiet s1 s2 -> cow_quiet s2 s3 -> cow_quiet s1 s3.
Proof.
  intros (A1 & A2 & A3 & A4 & A5 & A6 & A7 & A8 & A9 & A10 & A11 & A12 & l1 & A13 & A14)
         (B1 & B2 & B3 & B4 & B5 & B6 & B7 & B8 & B9 & B10 & B11 & B12 & l2 & B13 & B14).
  repeat split; try congruence. exists (l1 ++ l2).
  split; [by rewrite B13, A13, app_assoc|]. by apply Forall_app.
Qed.

Ltac quiet_tac :=
  repeat split; simpl; auto;
  try (rewrite ?length_insert, ?length_fmap; reflexivity);
  first [ by (exists []; rewrite app_nil_r)
        | by (eexists; split; [reflexivity|repeat constructor]) ].

Lemma out_quiet i f s : cow_quiet s (backup_do_cow_out i f s).
Proof. unfold backup_do_cow_out. quiet_tac. Qed.

Lemma loop_quiet i f s : cow_quiet s (backup_do_cow_loop i f s).
Proof.
  unfold backup_do_cow_loop. destruct (skip_copied _ _ _) as [c []].
  - quiet_tac.
  - apply out_quiet.
Qed.

Lemma begin_quiet i f s : cow_quiet s (backup_do_cow_begin i f s).
Proof.
  unfold backup_do_cow_begin. simpl. destruct (st_length s <? 0).
  - eapply cow_quiet_trans; [|apply out_quiet]. quiet_tac.
  - eapply cow_quiet_trans; [|apply loop_quiet]. quiet_tac.
Qed.

Lemma gate_quiet i f s : cow_quiet s (backup_do_cow_gate i f s).
Proof.
  unfold backup_do_cow_gate. destruct (wait_for_overlapping_requests _ _ _).
  - quiet_tac.
  - apply begin_quiet.
Qed.

Lemma read_done_quiet i f r s : cow_quiet s (backup_do_cow_read_done i f r s).
Proof.
  unfold backup_do_cow_read_done. destruct (io_ret r <? 0).
  - apply out_quiet.
  - destruct (buffer_is_zero _ _); quiet_tac.
Qed.

Lemma write_done_fail_quiet i f r s :
  io_ret r < 0 -> cow_quiet s (backup_do_cow_write_done i f r s).
Proof.
  intros Hr. unfold backup_do_cow_write_done.
  apply Z.ltb_lt in Hr. rewrite Hr. apply out_quiet.
Qed.

Lemma write_done_publish i f r s :
  0 <= io_ret r ->
  backup_do_cow_write_done i f r s
  = backup_do_cow_loop i (set_start (cow_start f + 1) (set_ret (io_ret r) f))
      (publish f s).
Proof.
  intros Hr. unfold backup_do_cow_write_done.
  apply Z.ltb_ge in Hr. rewrite Hr. reflexivity.
Qed.

Lemma spc : BACKUP_SECTORS_PER_CLUSTER = 128.
Proof. reflexivity. Qed.

Lemma sector_size : BDRV_SECTOR_SIZE = 512.
Proof. reflexivity. Qed.

Lemma MIN_spec a b : MIN a b = Z.min a b.
Proof. unfold MIN. destruct (Z.ltb_spec a b); lia. Qed.

Lemma div_round_up_lt T c :
  c < DIV_ROUND_UP T 128 -> c * 128 < T.
Proof.
  unfold DIV_ROUND_UP. intros H.
  assert ((T + 128 - 1) / 128 * 128 <= T + 128 - 1).
  { rewrite Z.mul_comm. apply Z.mul_div_le. lia. }
  nia.
Qed.

Lemma div_round_up_mono a b :
  a <= b -> DIV_ROUND_UP a 128 <= DIV_ROUND_UP b 128.
Proof. intros H. unfold DIV_ROUND_UP. apply Z.div_le_mono; lia. Qed.

Lemma div_round_up_cluster c : DIV_ROUND_UP (c * 128 + 1) 128 = c + 1.
Proof.
  unfold DIV_ROUND_UP. replace (c * 128 + 1 + 128 - 1) with ((c + 1) * 128) by lia.
  apply Z.div_mul. lia.
Qed.

Lemma cluster_sectors_pos T c :
  c < DIV_ROUND_UP T 128 ->
  0 < cluster_sectors T c /\ c * 128 + cluster_sectors T c <= T
  /\ cluster_sectors T c <= 128.
Proof.
  intros H. apply div_round_up_lt in H.
  unfold cluster_sectors. rewrite MIN_spec, spc. lia.
Qed.

Lemma copied_set hb T k c :
  (0 <= c < Z.of_nat k) -> hbitmap_get hb c = false ->
  copied (hbitmap_set hb c) T k = copied hb T k + cluster_sectors T c.
Proof.
  intros Hc Hb. induction k as [|k IH]; [lia|]. simpl.
  rewrite hbitmap_set_get.
  destruct (Z.eqb_spec (Z.of_nat k) c) as [<-|Hne].
  - rewrite Hb.
    assert (Hout : forall m, (m <= k)%nat ->
              copied (hbitmap_set hb (Z.of_nat k)) T m = copied hb T m).
    { induction m as [|m IHm]; [done|]. intros Hm. simpl.
      rewrite hbitmap_set_get, IHm by lia.
      destruct (Z.eqb_spec (Z.of_nat m) (Z.of_nat k)); [lia|done]. }
    rewrite Hout by lia. lia.
  - rewrite IH by lia. lia.
Qed.

Lemma copied_bounds hb T k :
  0 <= T -> (Z.of_nat k <= DIV_ROUND_UP T 128) ->
  0 <= copied hb T k <= Z.min T (128 * Z.of_nat k).
Proof.
  intros HT. induction k as [|k IH]; intros Hk; simpl; [lia|].
  assert (Z.of_nat k < DIV_ROUND_UP T 128) as Hlt by lia.
  pose proof (cluster_sectors_pos _ _ Hlt) as (P1 & P2 & P3).
  specialize (IH ltac:(lia)).
  destruct (hbitmap_get hb (Z.of_nat k)); [|lia].
  unfold cluster_sectors in *. rewrite MIN_spec, spc in *. lia.
Qed.

Lemma to_int64_small x : - 2 ^ 63 <= x < 2 ^ 63 -> to_int64 x = x.
Proof. intros H. unfold to_int64. rewrite Z.mod_small; lia. Qed.

Lemma to_int_small x : - 2 ^ 31 <= x < 2 ^ 31 -> to_int x = x.
Proof. intros H. unfold to_int. rewrite Z.mod_small; lia. Qed.

Lemma acct_frame_restart L i f : acct_frame L f -> acct_frame L (restart i f).
Proof.
  unfold restart. destruct (cow_at f) eqn:Hpc; auto.
  destruct (Nat.eqb on i); auto.
  unfold acct_frame, copying. rewrite Hpc. simpl. intros H _.
  destruct H as (H1 & H2 & _); [done|]. repeat split; auto.
  intros [|]; done.
Qed.

Ltac acct_split := split; [|split; [|split; [|split; [|split]]]].

Lemma a_out L i f s :
  acct_core_on (fun j => j <> i) L s -> (i < length (st_frames s))%nat ->
  acct_core_on (fun _ => True) L (backup_do_cow_out i f s).
Proof.
  intros (C1 & C2 & C3 & C4 & C5 & C6) Hi.
  unfold backup_do_cow_out, cow_request_end, acct_core_on. simpl.
  acct_split; auto.
  intros j f' _ Hl. destruct (decide (i = j)) as [<-|Hne].
  - rewrite list_lookup_insert_eq in Hl by (rewrite length_fmap; done).
    injection Hl as <-. unfold acct_frame. simpl. done.
  - rewrite list_lookup_insert_ne in Hl by done.
    rewrite list_lookup_fmap in Hl.
    destruct (st_frames s !! j) as [fj|] eqn:Hj; [|done].
    injection Hl as <-. apply acct_frame_restart. eapply C5; eauto.
Qed.

Lemma io_ok_cluster T i c :
  0 <= c < DIV_ROUND_UP T 128 ->
  io_ok T (EvRead i (c * BACKUP_SECTORS_PER_CLUSTER) (cluster_sectors T c))
  /\ io_ok T (EvWriteZeroes i (c * BACKUP_SECTORS_PER_CLUSTER)
               (cluster_sectors T c))
  /\ forall d, io_ok T (EvWrite i (c * BACKUP_SECTORS_PER_CLUSTER)
                         (cluster_sectors T c) d).
Proof.
  intros [H0 H1]. pose proof (cluster_sectors_pos _ _ H1) as (P1 & P2 & P3).
  assert (exists c0, 0 <= c0 /\
            c * BACKUP_SECTORS_PER_CLUSTER = c0 * BACKUP_SECTORS_PER_CLUSTER /\
            cluster_sectors T c = cluster_sectors T c0 /\
            0 < cluster_sectors T c /\
            c * BACKUP_SECTORS_PER_CLUSTER + cluster_sectors T c <= T) as H.
  { exists c. rewrite spc. auto. }
  simpl. auto.
Qed.

Lemma a_loop L i f s :
  acct_core_on (fun j => j <> i) L s -> (i < length (st_frames s))%nat ->
  0 <= cow_start f -> cow_end f <= dev_clusters L ->
  cow_total_sectors f = dev_sectors L ->
  acct_core_on (fun _ => True) L (backup_do_cow_loop i f s).
Proof.
  intros Hc Hi H0 HN HT. unfold backup_do_cow_loop.
  destruct (skip_copied _ _ _) as [c b] eqn:Hskip.
  apply skip_copied_spec in Hskip. destruct Hskip as (Hc1 & Hc2 & Hc3).
  destruct b; [|by apply a_out].
  destruct Hc3 as [Hclear Hlt].
  destruct Hc as (C1 & C2 & C3 & C4 & C5 & C6).
  unfold acct_core_on. simpl. acct_split; auto.
  - intros j f' _ Hl. destruct (decide (i = j)) as [<-|Hne].
    + rewrite list_lookup_insert_eq in Hl by done. injection Hl as <-.
      unfold acct_frame. simpl. intros _. split; [lia|]. split; done.
    + rewrite list_lookup_insert_ne in Hl by done. eapply C5; eauto.
  - apply Forall_app. split; [done|]. constructor; [|done].
    rewrite HT. refine (proj1 (io_ok_cluster _ i c _)).
    unfold dev_clusters in HN. rewrite spc in HN. lia.
Qed.

Lemma a_begin L i f s :
  acct_core_on (fun j => j <> i) L s -> (i < length (st_frames s))%nat ->
  0 <= cow_start f -> cow_end f <= dev_clusters L ->
  acct_core_on (fun _ => True) L (backup_do_cow_begin i f s).
Proof.
  intros Hc Hi H0 HN. unfold backup_do_cow_begin.
  set (req := mkReq i (cow_start f) (cow_end f)).
  set (s1 := set_job (cow_request_begin req (st_job s)) s).
  assert (Hc1 : acct_core_on (fun j => j <> i) L s1).
  { destruct Hc as (C1 & C2 & C3 & C4 & C5 & C6).
    unfold acct_core_on. subst s1. simpl. acct_split; auto. }
  destruct (Z.ltb_spec (st_length s1) 0) as [Hneg|Hpos].
  - apply a_out; [done|subst s1; done].
  - apply a_loop; simpl; auto.
    destruct Hc as (_ & [->|Hl] & _); [done|]. subst s1. simpl in Hpos. lia.
Qed.

Lemma a_gate L i f s :
  acct_core_on (fun j => j <> i) L s -> (i < length (st_frames s))%nat ->
  0 <= cow_start f -> cow_end f <= dev_clusters L ->
  acct_core_on (fun _ => True) L (backup_do_cow_gate i f s).
Proof.
  intros Hc Hi H0 HN. unfold backup_do_cow_gate.
  destruct (wait_for_overlapping_requests _ _ _) as [req|];
    [|by apply a_begin].
  destruct Hc as (C1 & C2 & C3 & C4 & C5 & C6).
  unfold acct_core_on. simpl. acct_split; auto.
  intros j f' _ Hl. destruct (decide (i = j)) as [<-|Hne].
  - rewrite list_lookup_insert_eq in Hl by done. injection Hl as <-.
    unfold acct_frame, copying. simpl. intros _. split; [done|]. split; [done|].
    intros [|]; done.
  - rewrite list_lookup_insert_ne in Hl by done. eapply C5; eauto.
Qed.

Lemma acct_core_but L i s :
  acct_core_on (fun _ => True) L s -> acct_core_on (fun j => j <> i) L s.
Proof.
  intros (C1 & C2 & C3 & C4 & C5 & C6). unfold acct_core_on.
  acct_split; auto. intros j f _ Hl. by apply (C5 j f).
Qed.

Lemma a_do_cow L sector_num nb_sectors eir s :
  acct_core_on (fun _ => True) L s ->
  0 <= sector_num ->
  DIV_ROUND_UP (sector_num + nb_sectors) BACKUP_SECTORS_PER_CLUSTER
    <= dev_clusters L ->
  acct_core_on (fun _ => True) L
    (backup_do_cow (length (st_frames s)) sector_num nb_sectors eir s).
Proof.
  intros (C1 & C2 & C3 & C4 & C5 & C6) H0 HN. unfold backup_do_cow.
  apply a_gate; simpl; auto.
  - unfold acct_core_on. simpl. acct_split; auto.
    + intros j f Hne Hl.
      apply lookup_snoc_Some in Hl as [[_ Hl]|[-> _]]; [|done].
      eapply C5; eauto.
    + apply Forall_app. split; [done|]. by constructor.
  - rewrite length_app. simpl. lia.
  - apply Z.div_pos; [done|]. rewrite spc. lia.
Qed.

Lemma frame_at_cluster s i f :
  reg_inv s -> st_frames s !! i = Some f -> copying f ->
  cow_start f < cow_end f
  /\ hbitmap_get (bitmap (st_job s)) (cow_start f) = false
  /\ cow_n f = MIN BACKUP_SECTORS_PER_CLUSTER
                 (cow_total_sectors f
                  - cow_start f * BACKUP_SECTORS_PER_CLUSTER).
Proof.
  intros Hreg Hl Hc. pose proof (reg_inv_frame _ _ _ Hreg Hl) as Hok.
  unfold frame_ok in Hok.
  destruct Hc as [Hp|Hp]; rewrite Hp in Hok; destruct Hok as (_ & Hat & _);
    exact Hat.
Qed.

Lemma a_read_done L i f r s :
  reg_inv s -> acct_core_on (fun _ => True) L s ->
  st_frames s !! i = Some f -> cow_at f = CowReading ->
  acct_core_on (fun _ => True) L (backup_do_cow_read_done i f r s).
Proof.
  intros Hreg Hc Hl Hpc. pose proof (lookup_lt_Some _ _ _ Hl) as Hi.
  unfold backup_do_cow_read_done.
  destruct (io_ret r <? 0); [apply a_out; [by apply acct_core_but|done]|].
  destruct (frame_at_cluster s i f Hreg Hl) as (A1 & A2 & A3); [by left|].
  destruct Hc as (C1 & C2 & C3 & C4 & C5 & C6).
  destruct (C5 i f I Hl) as (F1 & F2 & F3); [congruence|].
  rewrite F3 in A3 by (by left).
  assert (0 <= cow_start f < DIV_ROUND_UP (dev_sectors L) 128) as Hrange.
  { unfold dev_clusters in F2. rewrite spc in F2. lia. }
  pose proof (io_ok_cluster (dev_sectors L) i _ Hrange) as (_ & E1 & E2).
  fold (cluster_sectors (dev_sectors L) (cow_start f)) in A3.
  assert (Hfr : forall j f',
            <[i:=set_at CowWriting (set_ret (io_ret r) f)]> (st_frames s) !! j
            = Some f' -> acct_frame L f').
  { intros j f' Hl'. destruct (decide (i = j)) as [<-|Hne].
    - rewrite list_lookup_insert_eq in Hl' by done. injection Hl' as <-.
      unfold acct_frame. simpl. intros _. split; [done|]. split; [done|].
      intros _. apply F3. by left.
    - rewrite list_lookup_insert_ne in Hl' by done. eapply C5; eauto. }
  simpl. destruct (buffer_is_zero _ _); unfold acct_core_on; simpl;
    (acct_split; auto; [by intros j f' _; apply Hfr|]);
    apply Forall_app; (split; [done|]); (constructor; [|done]);
    rewrite A3; auto.
Qed.

Lemma copied_dev hb L :
  0 <= L ->
  0 <= copied hb (dev_sectors L) (Z.to_nat (dev_clusters L)) <= dev_sectors L.
Proof.
  intros HL.
  assert (0 <= dev_sectors L) as HT.
  { unfold dev_sectors. rewrite sector_size. apply Z.div_pos; lia. }
  pose proof (copied_bounds hb (dev_sectors L) (Z.to_nat (dev_clusters L)) HT)
    as Hb.
  assert (0 <= dev_clusters L) as HN.
  { unfold dev_clusters, DIV_ROUND_UP. rewrite spc. apply Z.div_pos; lia. }
  unfold dev_clusters in *. rewrite spc in *. lia.
Qed.

Lemma a_publish L i f s :
  reg_inv s -> acct_core_on (fun _ => True) L s -> 0 <= L < 2 ^ 63 ->
  st_frames s !! i = Some f -> cow_at f = CowWriting ->
  acct_core_on (fun _ => True) L (publish f s)
  /\ common_offset (st_job (publish f s))
     = common_offset (st_job s) + cow_n f * BDRV_SECTOR_SIZE
  /\ 0 < cow_n f.
Proof.
  intros Hreg Hc HL Hl Hpc.
  destruct (frame_at_cluster s i f Hreg Hl) as (A1 & A2 & A3); [by right|].
  destruct Hc as (C1 & C2 & C3 & C4 & C5 & C6).
  destruct (C5 i f I Hl) as (F1 & F2 & F3); [congruence|].
  rewrite F3 in A3 by (by right).
  fold (cluster_sectors (dev_sectors L) (cow_start f)) in A3.
  assert (0 <= cow_start f < dev_clusters L) as Hrange by lia.
  assert (0 <= dev_sectors L /\ 512 * dev_sectors L <= L) as [HT HTL].
  { unfold dev_sectors. rewrite sector_size. split.
    - apply Z.div_pos; lia.
    - apply Z.mul_div_le. lia. }
  assert (copied (hbitmap_set (bitmap (st_job s)) (cow_start f))
            (dev_sectors L) (Z.to_nat (dev_clusters L))
          = copied (bitmap (st_job s)) (dev_sectors L)
              (Z.to_nat (dev_clusters L)) + cow_n f) as Hcop.
  { rewrite A3. apply copied_set; [lia|done]. }
  pose proof (copied_dev (hbitmap_set (bitmap (st_job s)) (cow_start f)) L
                ltac:(lia)) as Hb.
  assert (to_int64 (common_offset (st_job s) + cow_n f * BDRV_SECTOR_SIZE)
          = common_offset (st_job s) + cow_n f * BDRV_SECTOR_SIZE) as Hoff.
  { apply to_int64_small. rewrite C4, sector_size. rewrite Hcop in Hb. lia. }
  split; [|split].
  - unfold acct_core_on, publish. simpl. acct_split; auto.
    + intros c. rewrite hbitmap_set_get.
      destruct (Z.eqb_spec c (cow_start f)) as [->|]; auto.
    + rewrite Hoff, Hcop, C4, sector_size. lia.
  - unfold publish. simpl. done.
  - rewrite A3. unfold dev_clusters in Hrange. rewrite spc in Hrange.
    apply cluster_sectors_pos. lia.
Qed.

Lemma publish_core f s P L :
  acct_core_on (fun _ => True) L (publish f s) -> acct_core_on P L (publish f s).
Proof.
  intros (C1 & C2 & C3 & C4 & C5 & C6). unfold acct_core_on. acct_split; auto.
  intros j fj _ Hl. by apply (C5 j fj).
Qed.

Lemma a_write_done L i f r s :
  reg_inv s -> acct_core_on (fun _ => True) L s -> 0 <= L < 2 ^ 63 ->
  st_frames s !! i = Some f -> cow_at f = CowWriting ->
  acct_core_on (fun _ => True) L (backup_do_cow_write_done i f r s).
Proof.
  intros Hreg Hc HL Hl Hpc. pose proof (lookup_lt_Some _ _ _ Hl) as Hi.
  destruct (Z.ltb_spec (io_ret r) 0) as [Hneg|Hpos].
  - unfold backup_do_cow_write_done. apply Z.ltb_lt in Hneg. rewrite Hneg.
    apply a_out; [by apply acct_core_but|done].
  - rewrite write_done_publish by done.
    destruct (a_publish L i f s Hreg Hc HL Hl Hpc) as (Hp & _ & _).
    destruct (frame_at_cluster s i f Hreg Hl) as (A1 & A2 & A3); [by right|].
    destruct Hc as (C1 & C2 & C3 & C4 & C5 & C6).
    destruct (C5 i f I Hl) as (F1 & F2 & F3); [congruence|].
    apply a_loop; simpl; auto.
    + by apply publish_core.
    + lia.
    + apply F3. by right.
Qed.

Lemma a_core P L s s' :
  same_core s s' -> acct_core_on P L s -> acct_core_on P L s'.
Proof.
  intros (A1 & A2 & A3 & A4 & A5 & A6 & l & A7 & A8)
         (C1 & C2 & C3 & C4 & C5 & C6).
  unfold acct_core_on. rewrite A2, A3, A4, A5, A6, A7. acct_split; auto.
  apply Forall_app. split; [done|].
  eapply Forall_impl; [exact A8|]. intros e He. by destruct e.
Qed.

Lemma r_exit L s :
  run_end (st_run s) = dev_clusters L -> 0 <= run_start (st_run s) ->
  acct_run L (backup_run_exit s).
Proof.
  intros H1 H2. unfold backup_run_exit, acct_run. simpl.
  destruct (existsb _ _); simpl; repeat split; auto; done.
Qed.

Lemma r_loop L s :
  run_end (st_run s) = dev_clusters L -> 0 <= run_start (st_run s) ->
  acct_run L (backup_run_loop s).
Proof.
  intros H1 H2. unfold backup_run_loop.
  destruct (Z.ltb_spec (run_start (st_run s)) (run_end (st_run s)));
    [|by apply r_exit].
  destruct (common_cancelled _); [by apply r_exit|].
  destruct (negb _); unfold acct_run; simpl; repeat split; auto.
Qed.

Lemma r_next L s :
  run_end (st_run s) = dev_clusters L -> -1 <= run_start (st_run s) ->
  acct_run L (backup_run_next s).
Proof.
  intros H1 H2. unfold backup_run_next. apply r_loop; simpl; [done|lia].
Qed.

Lemma r_cow_done L ret eir s :
  run_end (st_run s) = dev_clusters L -> 0 <= run_start (st_run s) ->
  acct_run L (backup_run_cow_done ret eir s).
Proof.
  intros H1 H2. unfold backup_run_cow_done.
  destruct (ret <? 0); [|apply r_next; simpl; [done|lia]].
  destruct (is_report _).
  - apply r_exit; simpl; done.
  - apply r_next; simpl; [done|lia].
Qed.

Lemma r_resume L i s : acct_run L s -> acct_run L (backup_run_resume i s).
Proof.
  intros Hr. unfold backup_run_resume. destruct (run_at _) eqn:Hat; auto.
  destruct (Nat.eqb _ _); auto. destruct (_ !! _) as [f|]; auto.
  destruct (cow_at f); auto. destruct Hr as (H1 & H2 & _).
  by apply r_cow_done.
Qed.

Lemma do_cow_run i sector_num nb_sectors eir s :
  st_run (backup_do_cow i sector_num nb_sectors eir s) = st_run s.
Proof.
  unfold backup_do_cow.
  match goal with |- st_run (backup_do_cow_gate ?i ?f ?s1) = _ =>
    destruct (gate_quiet i f s1) as (H & _) end.
  rewrite H. reflexivity.
Qed.

Lemma resume_cow_run i r s : st_run (resume_cow i r s) = st_run s.
Proof.
  unfold resume_cow. destruct (_ !! _) as [f|]; [|done].
  destruct (cow_at f); try done.
  - by destruct (gate_quiet i f s) as (H & _).
  - by destruct (read_done_quiet i f r s) as (H & _).
  - destruct (Z.ltb_spec (io_ret r) 0) as [Hneg|Hpos].
    + by destruct (write_done_fail_quiet i f r s Hneg) as (H & _).
    + rewrite write_done_publish by done.
      match goal with |- st_run (backup_do_cow_loop ?i ?f ?s1) = _ =>
        destruct (loop_quiet i f s1) as (H & _) end.
      by rewrite H.
Qed.

Lemma acct_run_eq L s s' : st_run s' = st_run s -> acct_run L s -> acct_run L s'.
Proof. unfold acct_run. by intros ->. Qed.

Lemma a_resume_cow L i r s :
  reg_inv s -> acct_core_on (fun _ => True) L s -> 0 <= L < 2 ^ 63 ->
  acct_core_on (fun _ => True) L (resume_cow i r s).
Proof.
  intros Hreg Hc HL. unfold resume_cow.
  destruct (st_frames s !! i) as [f|] eqn:Hl; [|done].
  pose proof (lookup_lt_Some _ _ _ Hl) as Hi.
  destruct (cow_at f) eqn:Hpc; auto.
  - pose proof Hc as (_ & _ & _ & _ & C5 & _).
    destruct (C5 i f I Hl) as (F1 & F2 & _); [congruence|].
    apply a_gate; auto. by apply acct_core_but.
  - by apply a_read_done.
  - by apply a_write_done.
Qed.

Lemma acct_step L s a :
  reg_inv s -> acct_inv L s -> 0 <= L < 2 ^ 63 -> acct_ok L a ->
  acct_inv L (step s a).
Proof.
  intros Hreg [Hc Hr] HL Hok.
  destruct a as [|v|sn nb|sn nb|i r|]; simpl; try done.
  - split; [|done]. destruct Hc as (C1 & C2 & C3 & C4 & C5 & C6).
    unfold acct_core_on. simpl. acct_split; auto.
  - destruct (st_before_write s); [|done]. simpl in Hok.
    unfold backup_before_write_notify. simpl. split.
    + apply a_do_cow; [done|lia|]. unfold dev_clusters. rewrite spc.
      apply div_round_up_mono. lia.
    + eapply acct_run_eq; [apply do_cow_run|done].
  - split.
    + eapply a_core; [apply resume_core|]. by apply a_resume_cow.
    + apply r_resume. eapply acct_run_eq; [apply resume_cow_run|done].
  - destruct (run_at (st_run s)) eqn:Hat; try done.
    + unfold backup_run_wake. destruct Hr as (R1 & R2 & R3).
      destruct (common_cancelled _).
      * split; [eapply a_core; [apply exit_core|done]|by apply r_exit].
      * set (s2 := set_run_at (RunInCow (length (st_frames s))) s).
        assert (acct_core_on (fun _ => True) L s2) as Hc2.
        { eapply a_core; [|exact Hc]. subst s2. core_tac. }
        specialize (R3 Hat).
        split.
        -- eapply a_core; [apply resume_core|].
           apply (a_do_cow L _ _ _ s2); [done|rewrite spc; lia|].
           rewrite spc, div_round_up_cluster. lia.
        -- apply r_resume. eapply acct_run_eq; [apply do_cow_run|].
           subst s2. unfold acct_run. simpl. repeat split; auto.
    + destruct (existsb _ _); [done|]. split.
      * eapply a_core; [apply complete_core|done].
      * destruct Hr as (R1 & R2 & R3). unfold acct_run. simpl.
        repeat split; auto. done.
Qed.

Lemma acct_run_all L s acts :
  reg_inv s -> acct_inv L s -> 0 <= L < 2 ^ 63 -> Forall (acct_ok L) acts ->
  acct_inv L (run s acts).
Proof.
  revert s. induction acts as [|a acts IH]; intros s Hreg Hinv HL Hok;
    simpl; [done|].
  apply Forall_cons in Hok as [Ha Hok].
  apply IH; auto using step_ok, acct_step.
Qed.

Lemma acct_backup_run L j :
  common_len j = L -> common_offset j = 0 -> 0 <= L ->
  acct_inv L (backup_run j L).
Proof.
  intros Hlen Hoff HL. unfold backup_run. split.
  - eapply a_core; [apply loop_core|].
    unfold acct_core_on. simpl. acct_split; auto.
    + intros c Hc. discriminate.
    + rewrite Hoff.
      assert (forall k, copied hbitmap_alloc (dev_sectors L) k = 0) as ->; [|lia].
      induction k as [|k IH]; simpl; [done|]. rewrite IH. done.
    + intros i f _ Hl. by rewrite lookup_nil in Hl.
  - apply r_loop; simpl; done.
Qed.

Lemma acct_backup_start L speed src tgt io s :
  backup_start L speed src tgt io = Some s -> 0 <= L -> acct_inv L s.
Proof.
  unfold backup_start. intros H HL.
  destruct src, io, (speed <? 0); try discriminate; injection H as <-;
    by apply acct_backup_run.
Qed.

Lemma out_frame i f s :
  (i < length (st_frames s))%nat ->
  st_frames (backup_do_cow_out i f s) !! i = Some (set_at CowReturned f).
Proof.
  intros Hi. unfold backup_do_cow_out. simpl.
  apply list_lookup_insert_eq. by rewrite length_fmap.
Qed.

(** What the entry of a call leaves alone. *)
Lemma do_cow_kept i sector_num nb_sectors eir s :
  let s' := backup_do_cow i sector_num nb_sectors eir s in
  st_run s' = st_run s
  /\ st_before_write s' = st_before_write s
  /\ st_length s' = st_length s
  /\ bitmap (st_job s') = bitmap (st_job s)
  /\ common_offset (st_job s') = common_offset (st_job s)
  /\ sectors_read (st_job s') = sectors_read (st_job s)
  /\ length (st_frames s') = S (length (st_frames s))
  /\ exists l, st_trace s'
               = st_trace s ++ EvCow i sector_num nb_sectors eir :: l
               /\ Forall io_event l.
Proof.
  unfold backup_do_cow.
  match goal with |- context [backup_do_cow_gate ?i ?f ?s1] =>
    destruct (gate_quiet i f s1)
      as (A1 & A2 & A3 & A4 & A5 & A6 & A7 & A8 & A9 & A10 & A11 & A12 & l & A13 & A14)
  end.
  simpl in *. repeat split; auto.
  - rewrite A12, length_app. simpl. lia.
  - exists l. split; [|done]. rewrite A13, <- app_assoc. done.
Qed.

(** A step either keeps bitmap and progress counter, or it is the return of
    a successful target write and does the bookkeeping for that cluster. *)
Lemma step_delta s a :
  (bitmap (st_job (step s a)) = bitmap (st_job s)
   /\ common_offset (st_job (step s a)) = common_offset (st_job s))
  \/ exists i f r,
       a = AResume i r /\ st_frames s !! i = Some f
       /\ cow_at f = CowWriting /\ 0 <= io_ret r
       /\ bitmap (st_job (step s a)) = bitmap (st_job (publish f s))
       /\ common_offset (st_job (step s a))
          = common_offset (st_job (publish f s)).
Proof.
  destruct a as [|v|sn nb|sn nb|i r|]; simpl; try (left; done).
  - left. destruct (st_before_write s); [|done].
    unfold backup_before_write_notify. simpl.
    by destruct (do_cow_kept (length (st_frames s)) sn nb false s)
      as (_ & _ & _ & ? & ? & _).
  - destruct (resume_core i (resume_cow i r s))
      as (_ & B2 & B3 & _). rewrite B2, B3. clear B2 B3.
    unfold resume_cow. destruct (st_frames s !! i) as [f|] eqn:Hl; [|by left].
    destruct (cow_at f) eqn:Hpc; try (left; done).
    + left. by destruct (gate_quiet i f s)
        as (_ & _ & _ & _ & _ & _ & _ & _ & ? & ? & _).
    + left. by destruct (read_done_quiet i f r s)
        as (_ & _ & _ & _ & _ & _ & _ & _ & ? & ? & _).
    + destruct (Z.ltb_spec (io_ret r) 0) as [Hneg|Hpos].
      * left. by destruct (write_done_fail_quiet i f r s Hneg)
          as (_ & _ & _ & _ & _ & _ & _ & _ & ? & ? & _).
      * right. exists i, f, r. repeat split; auto;
          rewrite write_done_publish by done;
          match goal with |- context [backup_do_cow_loop ?i ?f ?s1] =>
            by destruct (loop_quiet i f s1)
              as (_ & _ & _ & _ & _ & _ & _ & _ & ? & ? & _) end.
  - left. destruct (run_at (st_run s)); try done.
    + unfold backup_run_wake. destruct (common_cancelled _).
      * by destruct (exit_core s) as (_ & ? & ? & _).
      * match goal with |- context [backup_run_resume ?i ?s1] =>
          destruct (resume_core i s1) as (_ & B2 & B3 & _) end.
        rewrite B2, B3.
        match goal with |- context [backup_do_cow ?i ?a ?b ?c ?s1] =>
          destruct (do_cow_kept i a b c s1) as (_ & _ & _ & ? & ? & _) end.
        done.
    + destruct (existsb _ _); [done|].
      by destruct (complete_core s) as (_ & ? & ? & _).
Qed.

Lemma resume_frames i s : st_frames (backup_run_resume i s) = st_frames s.
Proof. by destruct (resume_core i s) as (_ & _ & _ & _ & _ & ? & _). Qed.

Lemma failed_io_returns s i f r :
  st_frames s !! i = Some f -> copying f -> io_ret r < 0 ->
  st_frames (step s (AResume i r)) !! i
  = Some (set_at CowReturned
            (store_error_is_read
               (match cow_at f with CowReading => true | _ => false end)
               (set_ret (io_ret r) f))).
Proof.
  intros Hl Hc Hr. pose proof (lookup_lt_Some _ _ _ Hl) as Hi.
  simpl. rewrite resume_frames. unfold resume_cow. rewrite Hl.
  apply Z.ltb_lt in Hr.
  destruct Hc as [Hpc|Hpc]; rewrite Hpc.
  - unfold backup_do_cow_read_done. rewrite Hr. by apply out_frame.
  - unfold backup_do_cow_write_done. rewrite Hr. by apply out_frame.
Qed.

Lemma bitmap_main s a :
  reg_inv s ->
  (forall c, hbitmap_get (bitmap (st_job s)) c = true ->
     hbitmap_get (bitmap (st_job (step s a))) c = true)
  /\ (forall c, hbitmap_get (bitmap (st_job s)) c = false ->
        hbitmap_get (bitmap (st_job (step s a))) c = true ->
        exists i f r,
          a = AResume i r /\ st_frames s !! i = Some f
          /\ cow_at f = CowWriting /\ cow_start f = c /\ 0 <= io_ret r
          /\ target_write_issued s i f)
  /\ (forall i f r, a = AResume i r -> st_frames s !! i = Some f ->
        copying f -> io_ret r < 0 ->
        hbitmap_get (bitmap (st_job s)) (cow_start f) = false
        /\ hbitmap_get (bitmap (st_job (step s a))) (cow_start f) = false
        /\ returned (step s a) i = Some (io_ret r)).
Proof.
  intros Hreg. split; [|split].
  - intros c Hc.
    destruct (step_delta s a) as [[-> _]|(i & f & r & _ & _ & _ & _ & -> & _)];
      [done|].
    unfold publish. simpl. rewrite hbitmap_set_get. by destruct (c =? _).
  - intros c Hc Hc'.
    destruct (step_delta s a) as [[E _]|(i & f & r & Ha & Hl & Hpc & Hr & E & _)];
      rewrite E in Hc'; [congruence|].
    unfold publish in Hc'. simpl in Hc'. rewrite hbitmap_set_get in Hc'.
    destruct (Z.eqb_spec c (cow_start f)) as [->|]; [|congruence].
    exists i, f, r. repeat split; auto.
    pose proof (reg_inv_frame _ _ _ Hreg Hl) as Hok.
    unfold frame_ok in Hok. rewrite Hpc in Hok. by destruct Hok as (_ & _ & ?).
  - intros i f r -> Hl Hc Hr.
    destruct (frame_at_cluster s i f Hreg Hl Hc) as (_ & Hclear & _).
    split; [done|]. split.
    + destruct (step_delta s (AResume i r))
        as [[-> _]|(i' & f' & r' & [= <- <-] & _ & _ & Hr' & _)]; [done|lia].
    + unfold returned. rewrite (failed_io_returns s i f r Hl Hc Hr). done.
Qed.

Lemma bitmap_monotone s acts c :
  hbitmap_get (bitmap (st_job s)) c = true ->
  hbitmap_get (bitmap (st_job (run s acts))) c = true.
Proof.
  revert s. induction acts as [|a acts IH]; intros s Hc; simpl; [done|].
  apply IH.
  destruct (step_delta s a) as [[-> _]|(i & f & r & _ & _ & _ & _ & -> & _)];
    [done|].
  unfold publish. simpl. rewrite hbitmap_set_get. by destruct (c =? _).
Qed.


(** *** Zero detection *)
Lemma buffer_is_zero_spec buf len :
  buffer_is_zero buf len = true
  <-> forall k b, (k < Z.to_nat len)%nat -> buf !! k = Some b -> b = x00.
Proof.
  unfold buffer_is_zero. rewrite forallb_forall. split.
  - intros H k b Hk Hl. assert (In b (take (Z.to_nat len) buf)) as Hin.
    { apply list_elem_of_In, list_elem_of_lookup. exists k.
      by rewrite lookup_take_lt. }
    apply H in Hin. by destruct b.
  - intros H b Hin. apply list_elem_of_In, list_elem_of_lookup in Hin
      as [k Hk].
    apply lookup_take_Some in Hk as [Hk1 Hk2].
    by rewrite (H k b Hk2 Hk1).
Qed.

Lemma resume_not_returned i s f :
  st_frames s !! i = Some f -> cow_at f <> CowReturned ->
  backup_run_resume i s = s.
Proof.
  intros Hl Hpc. unfold backup_run_resume. destruct (run_at _); try done.
  destruct (Nat.eqb _ _); [|done]. rewrite Hl. by destruct (cow_at f).
Qed.

Lemma zero_detect_main s i f r :
  st_frames s !! i = Some f -> cow_at f = CowReading -> 0 <= io_ret r ->
  let sector := cow_start f * BACKUP_SECTORS_PER_CLUSTER in
  let len := cow_n f * BDRV_SECTOR_SIZE in
  let s' := step s (AResume i r) in
  st_frames s' !! i = Some (set_at CowWriting (set_ret (io_ret r) f))
  /\ st_trace s'
     = st_trace s
       ++ [if buffer_is_zero (io_data r) len
           then EvWriteZeroes i sector (cow_n f)
           else EvWrite i sector (cow_n f)
                  (take (Z.to_nat len) (io_data r))].
Proof.
  intros Hl Hpc Hr. pose proof (lookup_lt_Some _ _ _ Hl) as Hi. simpl.
  unfold resume_cow. rewrite Hl, Hpc. unfold backup_do_cow_read_done.
  apply Z.ltb_ge in Hr. rewrite Hr. simpl.
  destruct (buffer_is_zero _ _);
    (erewrite resume_not_returned;
      [|simpl; by apply list_lookup_insert_eq|simpl; done]);
    simpl; (split; [by apply list_lookup_insert_eq|done]).
Qed.

Lemma exit_exited s :
  let s' := backup_run_exit s in
  exited s' /\ run_ret (st_run s') = run_ret (st_run s)
  /\ run_start (st_run s') = run_start (st_run s)
  /\ st_before_write s' = false
  /\ st_frames s' = st_frames s
  /\ (st_trace s' = st_trace s
      \/ st_trace s' = st_trace s ++ [EvCompleted (run_ret (st_run s))]).
Proof.
  unfold backup_run_exit, exited. simpl. destruct (existsb _ _); simpl.
  - repeat split; auto.
  - repeat split; auto.
Qed.

Lemma resume_cow_trace i r s :
  exists l, st_trace (resume_cow i r s) = st_trace s ++ l /\ Forall io_event l.
Proof.
  assert (Hq : forall s', cow_quiet s s' ->
            exists l, st_trace s' = st_trace s ++ l /\ Forall io_event l).
  { intros s' Hq. by destruct Hq as (_&_&_&_&_&_&_&_&_&_&_&_&?). }
  unfold resume_cow. destruct (_ !! _) as [f|]; [|apply Hq, cow_quiet_refl].
  destruct (cow_at f); try apply Hq, cow_quiet_refl.
  - apply Hq, gate_quiet.
  - apply Hq, read_done_quiet.
  - destruct (Z.ltb_spec (io_ret r) 0) as [Hneg|Hpos].
    + by apply Hq, write_done_fail_quiet.
    + rewrite write_done_publish by done.
      match goal with |- context [backup_do_cow_loop ?i ?f ?s1] =>
        destruct (loop_quiet i f s1) as (_&_&_&_&_&_&_&_&_&_&_&_&l&E&F) end.
      exists l. by rewrite E.
Qed.




Lemma static_eq_refl f : static_eq f f.
Proof. by repeat split. Qed.

Lemma out_kept i f f0 s :
  (i < length (st_frames s))%nat -> static_eq f0 f ->
  frames_kept i f0 s (backup_do_cow_out i f s).
Proof.
  intros Hi Hst. split.
  - intros j fj Hne Hl. right. unfold backup_do_cow_out. simpl.
    rewrite list_lookup_insert_ne by done. by rewrite list_lookup_fmap, Hl.
  - eexists. split; [by apply out_frame|]. exact Hst.
Qed.

Lemma set_frame_kept i f f0 s :
  (i < length (st_frames s))%nat -> static_eq f0 f ->
  frames_kept i f0 s (set_frame i f s).
Proof.
  intros Hi Hst. split.
  - intros j fj Hne Hl. left. simpl. by rewrite list_lookup_insert_ne.
  - eexists. split; [simpl; by apply list_lookup_insert_eq|]. exact Hst.
Qed.

Lemma emit_kept e i f f0 s :
  (i < length (st_frames s))%nat -> static_eq f0 f ->
  frames_kept i f0 s (emit e (set_frame i f s)).
Proof. apply set_frame_kept. Qed.

Lemma frames_kept_eq i f s s1 s2 :
  st_frames s2 = st_frames s1 -> frames_kept i f s s1 -> frames_kept i f s s2.
Proof. unfold frames_kept. by intros ->. Qed.

Lemma frames_kept_from i f s0 s s' :
  st_frames s = st_frames s0 -> frames_kept i f s s' -> frames_kept i f s0 s'.
Proof. unfold frames_kept. by intros ->. Qed.

Lemma loop_kept i f f0 s :
  (i < length (st_frames s))%nat -> static_eq f0 f ->
  frames_kept i f0 s (backup_do_cow_loop i f s).
Proof.
  intros Hi Hst. unfold backup_do_cow_loop.
  destruct (skip_copied _ _ _) as [c []].
  - apply emit_kept; [done|exact Hst].
  - apply out_kept; [done|]. exact Hst.
Qed.

Lemma begin_kept i f f0 s :
  (i < length (st_frames s))%nat -> static_eq f0 f ->
  frames_kept i f0 s (backup_do_cow_begin i f s).
Proof.
  intros Hi Hst. unfold backup_do_cow_begin. simpl.
  destruct (st_length s <? 0).
  - eapply frames_kept_from; [|apply out_kept]; [done|done|exact Hst].
  - eapply frames_kept_from; [|apply loop_kept]; [done|done|exact Hst].
Qed.

Lemma gate_kept i f f0 s :
  (i < length (st_frames s))%nat -> static_eq f0 f ->
  frames_kept i f0 s (backup_do_cow_gate i f s).
Proof.
  intros Hi Hst. unfold backup_do_cow_gate.
  destruct (wait_for_overlapping_requests _ _ _).
  - apply set_frame_kept; [done|exact Hst].
  - by apply begin_kept.
Qed.

Lemma resume_cow_kept i r s f :
  st_frames s !! i = Some f -> frames_kept i f s (resume_cow i r s).
Proof.
  intros Hl. pose proof (lookup_lt_Some _ _ _ Hl) as Hi.
  assert (Hsame : frames_kept i f s s).
  { split; [by left|]. exists f. split; [done|apply static_eq_refl]. }
  unfold resume_cow. rewrite Hl. destruct (cow_at f); try done.
  - apply gate_kept; [done|apply static_eq_refl].
  - unfold backup_do_cow_read_done. destruct (io_ret r <? 0).
    + apply out_kept; [done|]. by repeat split.
    + destruct (buffer_is_zero _ _);
        (apply emit_kept; [done|by repeat split]).
  - unfold backup_do_cow_write_done. destruct (io_ret r <? 0).
    + apply out_kept; [done|]. by repeat split.
    + eapply frames_kept_from; [|apply loop_kept]; [done|done|].
      by repeat split.
Qed.

Lemma do_cow_frames sector_num nb_sectors eir s :
  let i := length (st_frames s) in
  let s' := backup_do_cow i sector_num nb_sectors eir s in
  (forall j fj, st_frames s !! j = Some fj ->
     st_frames s' !! j = Some fj \/ st_frames s' !! j = Some (restart i fj))
  /\ exists f', st_frames s' !! i = Some f'
                /\ cow_sector_num f' = sector_num
                /\ cow_nb_sectors f' = nb_sectors
                /\ cow_has_error_is_read f' = eir.
Proof.
  simpl. unfold backup_do_cow.
  match goal with |- context [backup_do_cow_gate ?i ?f ?s1] =>
    destruct (gate_kept i f f s1) as (H1 & f' & H2 & H3 & H4 & H5);
      [simpl; rewrite length_app; simpl; lia|apply static_eq_refl|]
  end.
  split.
  - intros j fj Hl. pose proof (lookup_lt_Some _ _ _ Hl) as Hj.
    apply H1; [lia|]. simpl. by apply lookup_app_l_Some.
  - exists f'. repeat split; auto.
Qed.

Lemma restart_static i f :
  static_eq f (restart i f)
  /\ (cow_at (restart i f) = CowReturned <-> cow_at f = CowReturned).
Proof.
  unfold restart. destruct (cow_at f) as [|on| | |] eqn:Hpc;
    try (split; [apply static_eq_refl|by rewrite ?Hpc]).
  destruct (Nat.eqb on i).
  - split; [by repeat split|]. simpl. done.
  - split; [apply static_eq_refl|by rewrite ?Hpc].
Qed.

Lemma sweep_inv_exit s : sweep_inv (backup_run_exit s).
Proof.
  intros i Hat. destruct (exit_exited s) as ([E|E] & _); congruence.
Qed.

Lemma loop_not_in_cow s i : run_at (st_run (backup_run_loop s)) <> RunInCow i.
Proof.
  unfold backup_run_loop. destruct (_ <? _).
  - destruct (common_cancelled _).
    + destruct (exit_exited s) as ([E|E] & _); congruence.
    + by destruct (negb _).
  - destruct (exit_exited s) as ([E|E] & _); congruence.
Qed.

Lemma sweep_inv_cow_done ret eir s : sweep_inv (backup_run_cow_done ret eir s).
Proof.
  intros i Hat. exfalso. revert Hat. unfold backup_run_cow_done.
  destruct (ret <? 0); [destruct (is_report _)|].
  - match goal with |- context [backup_run_exit ?s1] =>
      destruct (exit_exited s1) as ([E|E] & _) end; congruence.
  - apply loop_not_in_cow.
  - apply loop_not_in_cow.
Qed.

Lemma sweep_inv_resume i s :
  (forall f, run_at (st_run s) = RunInCow i -> st_frames s !! i = Some f ->
     cow_at f <> CowReturned -> sweep_inv s) ->
  (run_at (st_run s) <> RunInCow i -> sweep_inv s) ->
  (st_frames s !! i = None -> sweep_inv s) ->
  sweep_inv (backup_run_resume i s).
Proof.
  intros H1 H2 H3. unfold backup_run_resume.
  destruct (run_at (st_run s)) eqn:Hat; try (apply H2; congruence).
  destruct (Nat.eqb_spec i0 i) as [->|Hne]; [|apply H2; congruence].
  destruct (st_frames s !! i) as [f|] eqn:Hl; [|by apply H3].
  destruct (cow_at f) eqn:Hpc;
    try (apply (H1 f); [done|done|congruence]).
  apply sweep_inv_cow_done.
Qed.

Lemma sweep_inv_step s a : sweep_inv s -> sweep_inv (step s a).
Proof.
  intros Hinv. destruct a as [|v|sn nb|sn nb|i r|]; simpl; try done.
  - destruct (st_before_write s); [|done].
    unfold backup_before_write_notify. simpl.
    intros i Hat. rewrite do_cow_run in *.
    destruct (Hinv i Hat) as (f & Hl & F1 & F2 & F3 & F4).
    destruct (do_cow_frames sn nb false s) as (K & _). simpl in K.
    destruct (K i f Hl) as [K1|K1]; [by exists f|].
    destruct (restart_static (length (st_frames s)) f) as ((S1 & S2 & S3) & S4).
    eexists. split; [exact K1|]. rewrite S1, S2, S3. repeat split; auto.
    rewrite S4. done.
  - assert (Hgen : forall j, run_at (st_run s) = RunInCow j ->
              exists f', st_frames (resume_cow i r s) !! j = Some f'
                /\ cow_has_error_is_read f' = true
                /\ cow_sector_num f'
                   = run_start (st_run s) * BACKUP_SECTORS_PER_CLUSTER
                /\ cow_nb_sectors f' = 1
                /\ (j <> i -> cow_at f' <> CowReturned)).
    { intros j Hat. destruct (Hinv j Hat) as (f & Hl & F1 & F2 & F3 & F4).
      destruct (st_frames s !! i) as [fi|] eqn:Hi.
      - destruct (resume_cow_kept i r s fi Hi) as (K & f' & K1 & S1 & S2 & S3).
        destruct (decide (j = i)) as [->|Hne].
        + exists f'. assert (fi = f) as -> by congruence.
          rewrite S1, S2, S3. repeat split; auto; try done.
        + destruct (K j f Hne Hl) as [K2|K2]; [exists f; by repeat split|].
          destruct (restart_static i f) as ((T1 & T2 & T3) & T4).
          eexists. split; [exact K2|]. rewrite T1, T2, T3.
          repeat split; auto. intros _. by rewrite T4.
      - unfold resume_cow. rewrite Hi. exists f. by repeat split. }
    apply sweep_inv_resume.
    + intros f Hat Hl Hpc j Hat'. rewrite resume_cow_run in *.
      assert (j = i) as -> by congruence.
      destruct (Hgen i Hat') as (f' & G1 & G2 & G3 & G4 & _).
      exists f'. repeat split; auto. congruence.
    + intros Hne j Hat. rewrite resume_cow_run in *.
      destruct (Hgen j Hat) as (f' & G1 & G2 & G3 & G4 & G5).
      exists f'. repeat split; auto. apply G5. congruence.
    + intros Hnone j Hat. rewrite resume_cow_run in *.
      destruct (Hgen j Hat) as (f' & G1 & G2 & G3 & G4 & G5).
      exists f'. repeat split; auto. apply G5. intros ->. congruence.
  - destruct (run_at (st_run s)) eqn:Hat; try done.
    + unfold backup_run_wake. destruct (common_cancelled _);
        [apply sweep_inv_exit|].
      set (i := length (st_frames s)).
      set (s2 := set_run_at (RunInCow i) s).
      destruct (do_cow_frames
                  (run_start (st_run s) * BACKUP_SECTORS_PER_CLUSTER) 1 true s2)
        as (_ & f' & K1 & K2 & K3 & K4). simpl in K1.
      fold i in K1.
      apply sweep_inv_resume.
      * intros f Hat' Hl Hpc j Hj. rewrite do_cow_run in *. simpl in *.
        assert (j = i) as -> by congruence.
        exists f. rewrite Hl in K1. injection K1 as <-. by repeat split.
      * rewrite do_cow_run. simpl. congruence.
      * intros Hnone. rewrite Hnone in K1. done.
    + destruct (existsb _ _); [done|]. intros i. simpl. done.
Qed.

Lemma loop_inv_eq s s' : st_run s' = st_run s -> loop_inv s -> loop_inv s'.
Proof. unfold loop_inv, exited. by intros ->. Qed.

Lemma loop_inv_exit s : loop_inv (backup_run_exit s).
Proof. intros H. by destruct H, (exit_exited s) as (? & _). Qed.

Lemma loop_inv_loop s : loop_inv (backup_run_loop s).
Proof.
  unfold backup_run_loop.
  destruct (Z.ltb_spec (run_start (st_run s)) (run_end (st_run s)));
    [|apply loop_inv_exit].
  destruct (common_cancelled _); [apply loop_inv_exit|].
  destruct (negb _); intros _; simpl; done.
Qed.

Lemma loop_inv_cow_done ret eir s : loop_inv (backup_run_cow_done ret eir s).
Proof.
  unfold backup_run_cow_done, backup_run_next.
  destruct (ret <? 0); [destruct (is_report _)|];
    auto using loop_inv_exit, loop_inv_loop.
Qed.

Lemma loop_inv_resume i s : loop_inv s -> loop_inv (backup_run_resume i s).
Proof.
  intros H. unfold backup_run_resume. destruct (run_at _); auto.
  destruct (Nat.eqb _ _); auto. destruct (_ !! _) as [f|]; auto.
  destruct (cow_at f); auto. apply loop_inv_cow_done.
Qed.

Lemma loop_inv_step s a : loop_inv s -> loop_inv (step s a).
Proof.
  intros Hinv. destruct a as [|v|sn nb|sn nb|i r|]; simpl; try done.
  - destruct (st_before_write s); [|done].
    eapply loop_inv_eq; [apply do_cow_run|done].
  - apply loop_inv_resume. eapply loop_inv_eq; [apply resume_cow_run|done].
  - destruct (run_at (st_run s)) eqn:Hat; try done.
    + unfold backup_run_wake. destruct (common_cancelled _);
        [apply loop_inv_exit|].
      apply loop_inv_resume. eapply loop_inv_eq; [apply do_cow_run|].
      intros _. simpl. apply Hinv. unfold exited. rewrite Hat.
      intros [|]; done.
    + destruct (existsb _ _); [done|]. intros H. destruct H. by right.
Qed.

Lemma inv_step s a : inv s -> inv (step s a).
Proof.
  intros (H1 & H2 & H3).
  split; [by apply step_ok|split; [by apply sweep_inv_step|by apply loop_inv_step]].
Qed.

Lemma inv_run s acts : inv s -> inv (run s acts).
Proof.
  revert s. induction acts as [|a acts IH]; intros s H; simpl; [done|].
  apply IH. by apply inv_step.
Qed.

Lemma inv_backup_run j len : inv (backup_run j len).
Proof.
  split; [apply backup_run_ok|split].
  - intros i Hat. by apply loop_not_in_cow in Hat.
  - apply loop_inv_loop.
Qed.

Lemma inv_backup_start len speed src tgt io s :
  backup_start len speed src tgt io = Some s -> inv s.
Proof.
  unfold backup_start. intros H.
  destruct src, io, (speed <? 0); try discriminate; injection H as <-;
    apply inv_backup_run.
Qed.

Lemma caller_not_sweep s i f :
  sweep_inv s -> st_frames s !! i = Some f ->
  cow_has_error_is_read f = false -> run_at (st_run s) <> RunInCow i.
Proof.
  intros Hinv Hl Hf Hat. destruct (Hinv i Hat) as (f' & Hl' & F & _).
  congruence.
Qed.

Lemma resume_other i s :
  run_at (st_run s) <> RunInCow i -> backup_run_resume i s = s.
Proof.
  intros H. unfold backup_run_resume. destruct (run_at _); try done.
  destruct (Nat.eqb_spec i0 i); [congruence|done].
Qed.

(** *** The interceptor *)
Lemma intercept_main s sector_num nb_sectors :
  st_before_write s = true ->
  let i := length (st_frames s) in
  let s' := step s (AGuestWrite sector_num nb_sectors) in
  s' = backup_do_cow i sector_num nb_sectors false s
  /\ (exists f, st_frames s' !! i = Some f
                /\ cow_sector_num f = sector_num
                /\ cow_nb_sectors f = nb_sectors
                /\ cow_has_error_is_read f = false)
  /\ exists l, st_trace s'
               = st_trace s ++ EvCow i sector_num nb_sectors false :: l
               /\ Forall io_event l.
Proof.
  intros Hbw. simpl. rewrite Hbw. unfold backup_before_write_notify. simpl.
  split; [done|]. split.
  - by destruct (do_cow_frames sector_num nb_sectors false s) as (_ & ?).
  - by destruct (do_cow_kept (length (st_frames s)) sector_num nb_sectors
                   false s) as (_ & _ & _ & _ & _ & _ & _ & ?).
Qed.

Lemma null_pointer_unwritten s i f :
  reg_inv s -> st_frames s !! i = Some f ->
  cow_has_error_is_read f = false -> cow_error_is_read f = None.
Proof.
  intros Hreg Hl Hf. pose proof (reg_inv_frame _ _ _ Hreg Hl) as Hok.
  unfold frame_ok in Hok. destruct (cow_at f).
  - tauto.
  - tauto.
  - by destruct Hok as ((_ & _ & _ & _ & _ & ?) & _).
  - by destruct Hok as ((_ & _ & _ & _ & _ & ?) & _).
  - destruct Hok as (_ & _ & H). auto.
Qed.

Lemma intercept_resume_main s i f r :
  inv s -> st_frames s !! i = Some f -> cow_has_error_is_read f = false ->
  let s' := step s (AResume i r) in
  (exists l, st_trace s' = st_trace s ++ l /\ Forall io_event l)
  /\ (exists f', st_frames s' !! i = Some f' /\ static_eq f f'
                 /\ cow_error_is_read f' = None)
  /\ (copying f -> io_ret r < 0 -> returned s' i = Some (io_ret r)).
Proof.
  intros (Hreg & Hsw & _) Hl Hf. simpl.
  rewrite resume_other
    by (rewrite resume_cow_run; by eapply caller_not_sweep).
  split; [apply resume_cow_trace|]. split.
  - destruct (resume_cow_kept i r s f Hl) as (_ & f' & K1 & K2).
    exists f'. split; [done|]. split; [done|].
    pose proof (resume_cow_ok i r s Hreg) as Hreg'.
    eapply null_pointer_unwritten; eauto.
    destruct K2 as (_ & _ & K2). congruence.
  - intros Hc Hr. unfold returned.
    pose proof (failed_io_returns s i f r Hl Hc Hr) as E. simpl in E.
    rewrite resume_frames in E. rewrite E. done.
Qed.

(** *** The sweep's error handling *)
Lemma wake_calls s :
  run_at (st_run s) = RunSleeping -> common_cancelled (st_job s) = false ->
  exists l,
    st_trace (step s AWake)
    = st_trace s
      ++ EvCow (length (st_frames s))
           (run_start (st_run s) * BACKUP_SECTORS_PER_CLUSTER) 1 true :: l.
Proof.
  intros Hat Hc. simpl. rewrite Hat. unfold backup_run_wake. rewrite Hc.
  match goal with |- context [backup_run_resume ?i ?s1] =>
    destruct (resume_core i s1) as (_ & _ & _ & _ & _ & _ & l2 & E2 & _) end.
  match goal with |- context [backup_do_cow ?i ?a ?b ?c ?s1] =>
    destruct (do_cow_kept i a b c s1) as (_ & _ & _ & _ & _ & _ & _ & l1 & E1 & _)
  end.
  simpl in *. exists (l1 ++ l2). rewrite E2, E1, <- app_assoc. done.
Qed.

Ltac trace_tac :=
  eexists; split;
  [rewrite <- ?app_assoc; simpl; reflexivity | repeat constructor].

Lemma sweep_error_general s i f :
  run_at (st_run s) = RunInCow i -> st_frames s !! i = Some f ->
  cow_at f = CowReturned -> cow_ret f < 0 ->
  run_start (st_run s) < run_end (st_run s) ->
  let read := default false (cow_error_is_read f) in
  let error := to_int (- cow_ret f) in
  let act := backup_error_action (st_job s) read error in
  let s' := backup_run_resume i s in
  (exists l, st_trace s' = st_trace s ++ EvErrorAction read error :: l
             /\ Forall sweep_event l)
  /\ run_ret (st_run s') = cow_ret f
  /\ run_start (st_run s') = run_start (st_run s)
  /\ st_frames s' = st_frames s
  /\ (act = BDRV_ACTION_REPORT -> exited s')
  /\ (act <> BDRV_ACTION_REPORT -> common_cancelled (st_job s) = false ->
      run_at (st_run s') = RunSleeping
      /\ common_cancelled (st_job s') = false).
Proof.
  intros Hat Hl Hpc Hret Hlt. simpl.
  unfold backup_run_resume. rewrite Hat, Nat.eqb_refl, Hl, Hpc.
  unfold backup_run_cow_done. apply Z.ltb_lt in Hret as Hret'. rewrite Hret'.
  simpl.
  set (act := backup_error_action _ _ _).
  destruct act eqn:Hact; simpl.
  - match goal with |- context [backup_run_exit ?s1] =>
      destruct (exit_exited s1) as (E1 & E2 & E3 & _ & E4 & E5) end.
    simpl in *. rewrite E2, E3, E4. repeat split; auto; try done.
    destruct E5 as [E5|E5]; rewrite E5; trace_tac.
  - unfold backup_run_next, backup_run_loop. simpl.
    replace (run_start (st_run s) - 1 + 1) with (run_start (st_run s)) by lia.
    apply Z.ltb_lt in Hlt. rewrite Hlt.
    destruct (common_cancelled (st_job s)) eqn:Hc.
    + match goal with |- context [backup_run_exit ?s1] =>
        destruct (exit_exited s1) as (E1 & E2 & E3 & _ & E4 & E5) end.
      simpl in *. rewrite E2, E3, E4. repeat split; auto; try done.
      destruct E5 as [E5|E5]; rewrite E5; trace_tac.
    + destruct (negb _); simpl; repeat split; auto; try done; trace_tac.
  - unfold backup_run_next, backup_run_loop. simpl.
    replace (run_start (st_run s) - 1 + 1) with (run_start (st_run s)) by lia.
    apply Z.ltb_lt in Hlt. rewrite Hlt.
    destruct (common_cancelled (st_job s)) eqn:Hc.
    + match goal with |- context [backup_run_exit ?s1] =>
        destruct (exit_exited s1) as (E1 & E2 & E3 & _ & E4 & E5) end.
      simpl in *. rewrite E2, E3, E4. repeat split; auto; try done.
      destruct E5 as [E5|E5]; rewrite E5; trace_tac.
    + destruct (negb _); simpl; repeat split; auto; try done; trace_tac.
Qed.

Lemma failed_io_resume s i f r :
  st_frames s !! i = Some f -> copying f -> io_ret r < 0 ->
  resume_cow i r s
  = backup_do_cow_out i
      (store_error_is_read
         (match cow_at f with CowReading => true | _ => false end)
         (set_ret (io_ret r) f)) s.
Proof.
  intros Hl Hc Hr. unfold resume_cow. rewrite Hl. apply Z.ltb_lt in Hr.
  destruct Hc as [Hpc|Hpc]; rewrite Hpc.
  - unfold backup_do_cow_read_done. by rewrite Hr.
  - unfold backup_do_cow_write_done. by rewrite Hr.
Qed.

Lemma sweep_io_error s i f r :
  inv s -> run_at (st_run s) = RunInCow i -> st_frames s !! i = Some f ->
  copying f -> io_ret r < 0 ->
  let read := match cow_at f with CowReading => true | _ => false end in
  let error := to_int (- io_ret r) in
  let act := backup_error_action (st_job s) read error in
  let s' := step s (AResume i r) in
  (exists l, st_trace s' = st_trace s ++ EvErrorAction read error :: l
             /\ Forall sweep_event l)
  /\ run_ret (st_run s') = io_ret r
  /\ run_start (st_run s') = run_start (st_run s)
  /\ (act = BDRV_ACTION_REPORT -> exited s')
  /\ (act <> BDRV_ACTION_REPORT -> common_cancelled (st_job s) = false ->
      run_at (st_run s') = RunSleeping
      /\ exists l,
           st_trace (step s' AWake)
           = st_trace s'
             ++ EvCow (length (st_frames s'))
                  (run_start (st_run s) * BACKUP_SECTORS_PER_CLUSTER) 1 true
                :: l).
Proof.
  intros (Hreg & Hsw & Hloop) Hat Hl Hc Hr.
  pose proof (lookup_lt_Some _ _ _ Hl) as Hi.
  destruct (Hsw i Hat) as (f0 & Hl0 & Hptr & _).
  assert (f0 = f) as -> by congruence.
  assert (cow_error_is_read f = None) as Hnone.
  { pose proof (reg_inv_frame _ _ _ Hreg Hl) as Hok. unfold frame_ok in Hok.
    destruct Hc as [Hp|Hp]; rewrite Hp in Hok;
      by destruct Hok as ((_ & _ & _ & _ & _ & ?) & _). }
  assert (run_start (st_run s) < run_end (st_run s)) as Hlt.
  { apply Hloop. unfold exited. rewrite Hat. intros [|]; done. }
  intros read error act s'.
  assert (s' = backup_run_resume i (resume_cow i r s)) as Hs' by done.
  rewrite (failed_io_resume s i f r Hl Hc Hr) in Hs'.
  clearbody s'. subst s' act error read.
  set (side := match cow_at f with CowReading => true | _ => false end).
  set (s1 := backup_do_cow_out i _ s).
  pose proof (sweep_error_general s1 i
                (set_at CowReturned
                   (store_error_is_read side (set_ret (io_ret r) f))))
    as G.
  simpl in G. rewrite Hptr in G. simpl in G.
  destruct G as (G1 & G2 & G3 & G4 & G5 & G6); auto.
  { subst s1. by apply out_frame. }
  split; [exact G1|]. split; [exact G2|]. split; [exact G3|].
  split; [exact G5|].
  intros Hact Hcan. destruct (G6 Hact Hcan) as (G7 & G8).
  split; [done|].
  destruct (wake_calls _ G7 G8) as (l & E). exists l.
  rewrite <- G3. exact E.
Qed.

(** *** Progress accounting *)
Lemma publish_main s i f r :
  st_frames s !! i = Some f -> cow_at f = CowWriting -> 0 <= io_ret r ->
  let s' := step s (AResume i r) in
  bitmap (st_job s') = hbitmap_set (bitmap (st_job s)) (cow_start f)
  /\ common_offset (st_job s')
     = to_int64 (common_offset (st_job s) + cow_n f * BDRV_SECTOR_SIZE)
  /\ (run_at (st_run s) <> RunInCow i ->
      sectors_read (st_job s')
      = to_uint64 (sectors_read (st_job s) + cow_n f)).
Proof.
  intros Hl Hpc Hr. simpl.
  destruct (resume_core i (resume_cow i r s)) as (_ & B2 & B3 & _).
  rewrite B2, B3. split; [|split].
  - unfold resume_cow. rewrite Hl, Hpc, write_done_publish by done.
    match goal with |- context [backup_do_cow_loop ?i ?f ?s1] =>
      by destruct (loop_quiet i f s1)
        as (_ & _ & _ & _ & _ & _ & _ & _ & -> & _) end.
  - unfold resume_cow. rewrite Hl, Hpc, write_done_publish by done.
    match goal with |- context [backup_do_cow_loop ?i ?f ?s1] =>
      by destruct (loop_quiet i f s1)
        as (_ & _ & _ & _ & _ & _ & _ & _ & _ & -> & _) end.
  - intros Hne. rewrite resume_other by (by rewrite resume_cow_run).
    unfold resume_cow. rewrite Hl, Hpc, write_done_publish by done.
    match goal with |- context [backup_do_cow_loop ?i ?f ?s1] =>
      by destruct (loop_quiet i f s1)
        as (_ & _ & _ & _ & _ & _ & _ & _ & _ & _ & -> & _) end.
Qed.

Lemma ratelimit_main s :
  run_start (st_run s) < run_end (st_run s) ->
  common_cancelled (st_job s) = false -> common_speed (st_job s) <> 0 ->
  st_trace (backup_run_loop s)
  = st_trace s ++ [EvRatelimit (sectors_read (st_job s)); EvSleep]
  /\ sectors_read (st_job (backup_run_loop s)) = 0.
Proof.
  intros Hlt Hc Hs. unfold backup_run_loop.
  apply Z.ltb_lt in Hlt. apply Z.eqb_neq in Hs. rewrite Hlt, Hc, Hs.
  simpl. by rewrite <- app_assoc.
Qed.

Lemma offset_step L s a :
  inv s -> acct_inv L s -> 0 <= L < 2 ^ 63 ->
  common_offset (st_job s) <= common_offset (st_job (step s a)).
Proof.
  intros (Hreg & _) [Hc _] HL.
  destruct (step_delta s a)
    as [[_ ->]|(i & f & r & _ & Hl & Hpc & _ & _ & ->)]; [done|].
  destruct (a_publish L i f s Hreg Hc HL Hl Hpc) as (_ & -> & Hn).
  rewrite sector_size. lia.
Qed.

Lemma offset_bound L s :
  acct_inv L s -> 0 <= L ->
  0 <= common_offset (st_job s) <= common_len (st_job s).
Proof.
  intros [(C1 & _ & _ & C4 & _) _] HL. rewrite C1, C4, sector_size.
  pose proof (copied_dev (bitmap (st_job s)) L HL).
  assert (512 * dev_sectors L <= L).
  { unfold dev_sectors. rewrite sector_size. apply Z.mul_div_le. lia. }
  lia.
Qed.

End BlockBackupFacts.

(** * Facts about backup.c *)
Module BackupFacts.
Import Backup.

Lemma grows_refl P s : grows P s s.
Proof. exists []. by rewrite app_nil_r. Qed.

Lemma grows_same P s s' : st_trace s' = st_trace s -> grows P s s'.
Proof. intros E. exists []. by rewrite app_nil_r. Qed.

Lemma grows_trans P s1 s2 s3 : grows P s1 s2 -> grows P s2 s3 -> grows P s1 s3.
Proof.
  intros (l1 & E1 & F1) (l2 & E2 & F2). exists (l1 ++ l2).
  split; [by rewrite E2, E1, app_assoc|by apply Forall_app].
Qed.

Lemma grows_emit P e s : P e -> grows P s (emit e s).
Proof. intros H. exists [e]. split; [done|by constructor]. Qed.

Lemma grows_emit_on P e s s1 :
  st_trace s1 = st_trace s -> P e -> grows P s (emit e s1).
Proof.
  intros E H. exists [e]. split; [simpl; by rewrite E|by constructor].
Qed.

Lemma grows_eq P s s1 s2 :
  st_trace s2 = st_trace s1 -> grows P s s1 -> grows P s s2.
Proof. unfold grows. by intros ->. Qed.

Lemma grows_weaken (P Q : event -> Prop) s s' :
  (forall e, P e -> Q e) -> grows P s s' -> grows Q s s'.
Proof.
  intros H (l & E & F). exists l. split; [done|].
  eapply Forall_impl; [exact F|done].
Qed.

Lemma v_loop_grows k i f s :
  grows cluster_read s (backup_do_cow_loop k i f s).
Proof.
  revert f. induction k as [|k IH]; intros f; simpl;
    [by apply grows_same|].
  destruct (backup_get_bitmap _ _) as [[]|]; [apply IH| |by apply grows_same].
  destruct (backup_set_bitmap _ _ _); [|by apply grows_same].
  by apply grows_emit_on.
Qed.

Lemma v_complete_grows s : grows sweep_event s (backup_run_complete s).
Proof. unfold backup_run_complete. by apply grows_emit_on. Qed.

Lemma v_exit_grows s : grows sweep_event s (backup_run_exit s).
Proof.
  unfold backup_run_exit. destruct (existsb _ _);
    [by apply grows_same|apply v_complete_grows].
Qed.

Lemma v_run_loop_grows s : grows sweep_event s (backup_run_loop s).
Proof.
  unfold backup_run_loop. destruct (_ <? _); [|apply v_exit_grows].
  destruct (common_cancelled _).
  - eapply grows_trans; [|apply v_exit_grows]. by apply grows_same.
  - destruct (negb _).
    + exists [EvRatelimit (sectors_read (st_job s)); EvSleep].
      simpl. split; [by rewrite <- app_assoc|by repeat constructor].
    + by apply grows_emit_on.
Qed.

Lemma v_next_grows s : grows sweep_event s (backup_run_next s).
Proof.
  unfold backup_run_next. eapply grows_trans; [|apply v_run_loop_grows].
  by apply grows_same.
Qed.

Lemma v_cow_done_grows ret s : grows sweep_event s (backup_run_cow_done ret s).
Proof.
  unfold backup_run_cow_done. destruct (ret <? 0).
  - eapply grows_trans; [|apply v_exit_grows]. by apply grows_same.
  - eapply grows_trans; [|apply v_next_grows]. by apply grows_same.
Qed.

Lemma v_resume_grows i s : grows sweep_event s (backup_run_resume i s).
Proof.
  unfold backup_run_resume. destruct (run_at _); try by apply grows_same.
  destruct (Nat.eqb _ _); [|by apply grows_same].
  destruct (returned s i) as [ret|]; [|by apply grows_same].
  apply v_cow_done_grows.
Qed.

Lemma cluster_read_whole e : cluster_read e -> whole_cluster e.
Proof. by destruct e. Qed.

Lemma sweep_event_whole e : sweep_event e -> whole_cluster e.
Proof. by destruct e. Qed.

Lemma v_do_cow_grows i sector_num nb_sectors s :
  grows whole_cluster s (backup_do_cow i sector_num nb_sectors s).
Proof.
  unfold backup_do_cow, backup_do_cow_continue.
  eapply grows_trans;
    [|eapply grows_weaken; [apply cluster_read_whole|apply v_loop_grows]].
  by apply grows_emit_on.
Qed.

Lemma v_resume_cow_grows i r s : grows whole_cluster s (resume_cow i r s).
Proof.
  unfold resume_cow. destruct (_ !! _) as [f|]; [|by apply grows_same].
  destruct (cow_at f); [| |by apply grows_same].
  - unfold backup_do_cow_read_done.
    destruct (io_ret r <? 0); [by apply grows_same|].
    destruct (negb _).
    + by apply grows_emit_on.
    + unfold backup_do_cow_continue.
      eapply grows_trans;
        [|eapply grows_weaken; [apply cluster_read_whole|apply v_loop_grows]].
      by apply grows_same.
  - unfold backup_do_cow_write_done.
    destruct (io_ret r <? 0); [by apply grows_same|].
    unfold backup_do_cow_continue.
    eapply grows_weaken; [apply cluster_read_whole|apply v_loop_grows].
Qed.

Lemma v_step_grows s a : grows whole_cluster s (step s a).
Proof.
  pose proof (fun s s' => grows_weaken _ _ s s' sweep_event_whole) as W.
  unfold step. destruct (st_aborted s); [by apply grows_same|].
  destruct a as [|v|sn nb|sn nb|i r|]; try by apply grows_same.
  - unfold hook. simpl.
    destruct (run_at _); first [by apply grows_same|apply v_do_cow_grows].
  - unfold hook. simpl.
    destruct (run_at _); first [by apply grows_same|apply v_do_cow_grows].
  - eapply grows_trans; [apply v_resume_cow_grows|apply W, v_resume_grows].
  - destruct (run_at _); try by apply grows_same.
    + unfold backup_run_wake. destruct (common_cancelled _).
      * eapply grows_trans; [|apply W, v_exit_grows]. by apply grows_same.
      * destruct (backup_get_bitmap _ _) as [[]|];
          [apply W, v_next_grows| |by apply grows_same].
        eapply grows_trans; [|apply W, v_resume_grows].
        unfold bdrv_co_backup.
        eapply grows_trans; [|apply v_do_cow_grows]. by apply grows_same.
    + destruct (existsb _ _); [by apply grows_same|apply W, v_complete_grows].
Qed.

Lemma v_run_grows s acts : grows whole_cluster s (run s acts).
Proof.
  revert s. induction acts as [|a acts IH]; intros s; simpl;
    [by apply grows_same|].
  eapply grows_trans; [apply v_step_grows|apply IH].
Qed.

Lemma v_start_trace len speed s :
  backup_start len speed = Some s -> Forall whole_cluster (st_trace s).
Proof.
  unfold backup_start. destruct (speed <? 0); [done|]. intros [= <-].
  unfold backup_run.
  match goal with |- context [backup_run_loop ?s1] =>
    destruct (v_run_loop_grows s1) as (l & -> & F) end.
  simpl. eapply Forall_impl; [exact F|apply sweep_event_whole].
Qed.

Lemma v_trace_whole_cluster len speed s0 acts :
  backup_start len speed = Some s0 ->
  Forall whole_cluster (st_trace (run s0 acts)).
Proof.
  intros H. destruct (v_run_grows s0 acts) as (l & -> & F).
  apply Forall_app. split; [by eapply v_start_trace|done].
Qed.

(** *** The bitmap of the variant *)
Lemma v_mask_pos c : 0 < Z.shiftl 1 (c mod BITS_PER_LONG).
Proof.
  rewrite Z.shiftl_1_l. apply Z.pow_pos_nonneg; [lia|].
  apply Z.mod_pos_bound. reflexivity.
Qed.

Lemma v_land_lor_mask v m : Z.land (Z.lor v m) m = m.
Proof.
  apply Z.bits_inj'. intros n Hn.
  rewrite Z.land_spec, Z.lor_spec. by destruct (Z.testbit v n), (Z.testbit m n).
Qed.

Lemma v_set_then_get j c bm :
  backup_set_bitmap j c true = Some bm ->
  backup_get_bitmap (set_bitmap bm j) c = Some true.
Proof.
  unfold backup_set_bitmap, backup_get_bitmap. simpl.
  destruct (_ && _); [|done].
  destruct (bitmap j !! _) as [val|] eqn:Hl; [|done]. intros [= <-].
  rewrite list_lookup_insert_eq by (by eapply lookup_lt_Some).
  rewrite v_land_lor_mask.
  pose proof (v_mask_pos c). destruct (Z.eqb_spec (Z.shiftl 1 (c mod BITS_PER_LONG)) 0);
    [lia|done].
Qed.

Lemma v_get_then_set j c b :
  backup_get_bitmap j c = Some b ->
  exists bm, backup_set_bitmap j c true = Some bm.
Proof.
  unfold backup_set_bitmap, backup_get_bitmap.
  destruct (_ && _); [|done].
  destruct (bitmap j !! _) as [val|]; [|done]. eauto.
Qed.

(** The bit is set when the read is issued, before any I/O of the cluster
    has completed. *)
Lemma v_bit_before_read k i f s :
  backup_get_bitmap (st_job s) (cow_start f) = Some false ->
  let s' := backup_do_cow_loop (S k) i f s in
  backup_get_bitmap (st_job s') (cow_start f) = Some true
  /\ st_trace s'
     = st_trace s
       ++ [EvRead i (cow_start f * BACKUP_BLOCKS_PER_CLUSTER)
             BACKUP_BLOCKS_PER_CLUSTER]
  /\ st_aborted s' = st_aborted s.
Proof.
  intros Hget. simpl. rewrite Hget.
  destruct (v_get_then_set _ _ _ Hget) as (bm & Hset). rewrite Hset. simpl.
  split; [|done]. by apply v_set_then_get.
Qed.

Lemma v_exit_job s : st_job (backup_run_exit s) = st_job s.
Proof. unfold backup_run_exit. by destruct (existsb _ _). Qed.

(** A failed read or write returns the error and leaves the bitmap as it
    is: the bit stays set. *)
Lemma v_failure_keeps_bit s i f r :
  st_aborted s = false -> st_frames s !! i = Some f ->
  cow_at f <> CowReturned -> io_ret r < 0 ->
  let s' := step s (AResume i r) in
  bitmap (st_job s') = bitmap (st_job s)
  /\ returned s' i = Some (io_ret r).
Proof.
  intros Hab Hl Hpc Hr. pose proof (lookup_lt_Some _ _ _ Hl) as Hi.
  unfold step. rewrite Hab.
  assert (resume_cow i r s = backup_do_cow_out i (set_ret (io_ret r) f) s)
    as ->.
  { unfold resume_cow. rewrite Hl. apply Z.ltb_lt in Hr.
    destruct (cow_at f); [| |done].
    - unfold backup_do_cow_read_done. by rewrite Hr.
    - unfold backup_do_cow_write_done. by rewrite Hr. }
  set (s1 := backup_do_cow_out i _ s).
  assert (returned s1 i = Some (io_ret r)) as Hret.
  { unfold returned. subst s1. simpl. by rewrite list_lookup_insert_eq. }
  unfold backup_run_resume. destruct (run_at (st_run s1)); try done.
  destruct (Nat.eqb _ _); [|done]. rewrite Hret.
  unfold backup_run_cow_done. apply Z.ltb_lt in Hr. rewrite Hr.
  rewrite v_exit_job. split; [done|].
  unfold returned, backup_run_exit in *.
  destruct (existsb _ _); simpl; exact Hret.
Qed.

Lemma v_zero_detect s i f r :
  st_aborted s = false -> st_frames s !! i = Some f ->
  cow_at f = CowReading -> 0 <= io_ret r ->
  let s' := step s (AResume i r) in
  if buffer_is_zero (io_data r) BACKUP_CLUSTER_SIZE
  then grows no_target_op s s'
  else st_trace s'
       = st_trace s
         ++ [EvWrite i (cow_start f * BACKUP_BLOCKS_PER_CLUSTER)
               BACKUP_BLOCKS_PER_CLUSTER
               (take (Z.to_nat BACKUP_CLUSTER_SIZE) (io_data r))].
Proof.
  intros Hab Hl Hpc Hr. pose proof (lookup_lt_Some _ _ _ Hl) as Hi.
  unfold step. rewrite Hab. unfold resume_cow. rewrite Hl, Hpc.
  unfold backup_do_cow_read_done. apply Z.ltb_ge in Hr. rewrite Hr.
  destruct (buffer_is_zero _ _); simpl.
  - eapply grows_trans;
      [|eapply grows_weaken; [|apply v_resume_grows]; by intros []].
    unfold backup_do_cow_continue.
    eapply grows_trans;
      [|eapply grows_weaken; [|apply v_loop_grows]; by intros []].
    by apply grows_same.
  - unfold backup_run_resume. simpl.
    destruct (run_at (st_run s)); try done.
    destruct (Nat.eqb _ _); [|done].
    unfold returned. simpl. by rewrite list_lookup_insert_eq.
Qed.

Lemma v_exit_exited s :
  let s' := backup_run_exit s in
  exited s' /\ run_ret (st_run s') = run_ret (st_run s)
  /\ (st_trace s' = st_trace s
      \/ st_trace s' = st_trace s ++ [EvCompleted (run_ret (st_run s))]).
Proof.
  unfold backup_run_exit, exited. simpl. destruct (existsb _ _); simpl; auto.
Qed.

Lemma v_loop_frame k i f s :
  st_run (backup_do_cow_loop k i f s) = st_run s.
Proof.
  revert f. induction k as [|k IH]; intros f; simpl; [done|].
  destruct (backup_get_bitmap _ _) as [[]|]; [apply IH| |done].
  by destruct (backup_set_bitmap _ _ _).
Qed.

Lemma v_do_cow_run i sector_num nb_sectors s :
  st_run (backup_do_cow i sector_num nb_sectors s) = st_run s.
Proof. unfold backup_do_cow, backup_do_cow_continue. by rewrite v_loop_frame. Qed.

Lemma v_resume_cow_run i r s : st_run (resume_cow i r s) = st_run s.
Proof.
  unfold resume_cow. destruct (_ !! _) as [f|]; [|done].
  destruct (cow_at f); [| |done].
  - unfold backup_do_cow_read_done. destruct (io_ret r <? 0); [done|].
    destruct (negb _); [done|].
    unfold backup_do_cow_continue. by rewrite v_loop_frame.
  - unfold backup_do_cow_write_done. destruct (io_ret r <? 0); [done|].
    unfold backup_do_cow_continue. by rewrite v_loop_frame.
Qed.




(** An error of the copy ends the sweep at once; nothing is asked of an
    error policy and nothing is retried. *)
Lemma v_error_ends_sweep ret s :
  ret < 0 ->
  backup_run_cow_done ret s = backup_run_exit (set_run_ret ret s)
  /\ exited (backup_run_cow_done ret s)
  /\ run_ret (st_run (backup_run_cow_done ret s)) = ret.
Proof.
  intros Hr. unfold backup_run_cow_done. apply Z.ltb_lt in Hr. rewrite Hr.
  destruct (v_exit_exited (set_run_ret ret s)) as (E1 & E2 & _).
  split; [done|]. split; [done|]. by rewrite E2.
Qed.

(** Progress is counted by the sweep, a whole cluster at a time. *)
Lemma v_progress ret s :
  0 <= ret ->
  common_offset (st_job (backup_run_cow_done ret s))
  = to_int64 (common_offset (st_job s) + BACKUP_CLUSTER_SIZE).
Proof.
  intros Hr. unfold backup_run_cow_done. apply Z.ltb_ge in Hr. rewrite Hr.
  unfold backup_run_next, backup_run_loop.
  match goal with |- context [if ?c then _ else _] => destruct c end;
    [|by rewrite v_exit_job].
  destruct (common_cancelled _); [by rewrite v_exit_job|].
  by destruct (negb _).
Qed.

(** *** The hooks *)
Lemma v_loop_own k i f s :
  (i < length (st_frames s))%nat ->
  (exists f', st_frames (backup_do_cow_loop k i f s) !! i = Some f'
              /\ cow_sector_num f' = cow_sector_num f
              /\ cow_nb_sectors f' = cow_nb_sectors f)
  \/ st_frames (backup_do_cow_loop k i f s) = st_frames s.
Proof.
  intros Hi. revert f. induction k as [|k IH]; intros f; simpl.
  - left. eexists. split; [by apply list_lookup_insert_eq|done].
  - destruct (backup_get_bitmap _ _) as [[]|]; [|  |by right].
    + destruct (IH (set_start (cow_start f + 1) f)) as [(f' & ? & ? & ?)|E];
        [left; by exists f'|by right].
    + destruct (backup_set_bitmap _ _ _); [|by right].
      left. eexists. split; [simpl; by apply list_lookup_insert_eq|done].
Qed.

Lemma v_do_cow_frame sector_num nb_sectors s :
  let i := length (st_frames s) in
  let s' := backup_do_cow i sector_num nb_sectors s in
  (exists f', st_frames s' !! i = Some f'
              /\ cow_sector_num f' = sector_num
              /\ cow_nb_sectors f' = nb_sectors)
  /\ exists l, st_trace s'
               = st_trace s ++ EvCow i sector_num nb_sectors false :: l
               /\ Forall cluster_read l.
Proof.
  simpl. unfold backup_do_cow, backup_do_cow_continue. split.
  - match goal with |- context [backup_do_cow_loop ?k ?i ?f ?s1] =>
      destruct (v_loop_own k i f s1) as [H|H] end.
    + simpl. rewrite length_app. simpl. lia.
    + exact H.
    + rewrite H. simpl. eexists. split; [by apply list_lookup_middle|done].
  - match goal with |- context [backup_do_cow_loop ?k ?i ?f ?s1] =>
      destruct (v_loop_grows k i f s1) as (l & E & F) end.
    exists l. split; [|done]. rewrite E. simpl. by rewrite <- app_assoc.
Qed.

Lemma v_hooks s sector_num nb_sectors :
  st_aborted s = false -> run_at (st_run s) <> RunCompleted ->
  before_read backup_job_type = Some backup_before_read
  /\ before_write backup_job_type = Some backup_before_write
  /\ step s (AGuestRead sector_num nb_sectors)
     = backup_do_cow (length (st_frames s)) sector_num nb_sectors s
  /\ step s (AGuestWrite sector_num nb_sectors)
     = backup_do_cow (length (st_frames s)) sector_num nb_sectors s.
Proof.
  intros Hab Hat. unfold step, hook. rewrite Hab. simpl.
  by destruct (run_at (st_run s)).
Qed.

End BackupFacts.

(** * Facts about the completed sweep of block/backup.c *)
Module BlockBackupSweep.
Import BlockBackup BlockBackupFacts.

(** *** Calls that return success have copied their range *)
Lemma covered_mono hb hb' f :
  (forall c, hbitmap_get hb c = true -> hbitmap_get hb' c = true) ->
  covered hb f -> covered hb' f.
Proof.
  intros Hm [He Hc]. split; [exact He|].
  destruct (cow_at f); auto.
Qed.

Lemma covered_restart hb i f : covered hb f -> covered hb (restart i f).
Proof.
  unfold restart. destruct (cow_at f) as [|on| | |] eqn:Hpc; auto.
  destruct (Nat.eqb on i); auto.
  intros [He Hc]. unfold covered in *. rewrite Hpc in Hc. simpl. by split.
Qed.

Lemma covered_on_but i s :
  covered_on (fun _ => True) s -> covered_on (fun j => j <> i) s.
Proof. intros H j f _. by apply H. Qed.

Lemma out_covered i f s :
  (i < length (st_frames s))%nat ->
  covered_on (fun j => j <> i) s ->
  covered (bitmap (st_job s)) (set_at CowReturned f) ->
  covered_on (fun _ => True) (backup_do_cow_out i f s).
Proof.
  intros Hi Ho Hf j fj _ Hl. unfold backup_do_cow_out in *. simpl in *.
  destruct (decide (j = i)) as [->|Hne].
  - rewrite list_lookup_insert_eq in Hl by (by rewrite length_fmap).
    injection Hl as <-. exact Hf.
  - rewrite list_lookup_insert_ne in Hl by done.
    rewrite list_lookup_fmap in Hl.
    destruct (st_frames s !! j) as [f0|] eqn:H0; [|done].
    injection Hl as <-. apply covered_restart. by apply (Ho j).
Qed.

Lemma set_frame_covered i f s :
  (i < length (st_frames s))%nat ->
  covered_on (fun j => j <> i) s ->
  covered (bitmap (st_job s)) f ->
  covered_on (fun _ => True) (set_frame i f s).
Proof.
  intros Hi Ho Hf j fj _ Hl. simpl in *.
  destruct (decide (j = i)) as [->|Hne].
  - rewrite list_lookup_insert_eq in Hl by done. injection Hl as <-. exact Hf.
  - rewrite list_lookup_insert_ne in Hl by done. by apply (Ho j).
Qed.

Lemma emit_covered P e s : covered_on P s -> covered_on P (emit e s).
Proof. done. Qed.

Lemma loop_covered i f s :
  (i < length (st_frames s))%nat ->
  covered_on (fun j => j <> i) s ->
  cow_end f
  = DIV_ROUND_UP (cow_sector_num f + cow_nb_sectors f)
      BACKUP_SECTORS_PER_CLUSTER ->
  req_start (cow_request f) = first_cluster f ->
  (forall c, first_cluster f <= c < cow_start f ->
     hbitmap_get (bitmap (st_job s)) c = true) ->
  covered_on (fun _ => True) (backup_do_cow_loop i f s).
Proof.
  intros Hi Ho He Hr Hp. unfold backup_do_cow_loop.
  destruct (skip_copied _ _ _) as [c b] eqn:Hs.
  apply skip_copied_spec in Hs. destruct Hs as (S1 & S2 & S3).
  destruct b.
  - apply emit_covered, set_frame_covered; [done|done|]. by split.
  - apply out_covered; [done|done|]. split; [exact He|]. simpl.
    intros _ x Hx. unfold first_cluster in *. simpl in *.
    destruct (Z.lt_ge_cases x (cow_start f)); [apply Hp; lia|apply S2; lia].
Qed.

Lemma begin_covered i f s :
  (i < length (st_frames s))%nat ->
  covered_on (fun j => j <> i) s ->
  errno_fits (st_length s) ->
  cow_end f
  = DIV_ROUND_UP (cow_sector_num f + cow_nb_sectors f)
      BACKUP_SECTORS_PER_CLUSTER ->
  cow_start f = first_cluster f ->
  covered_on (fun _ => True) (backup_do_cow_begin i f s).
Proof.
  intros Hi Ho Hlen He Hst. unfold backup_do_cow_begin. simpl.
  destruct (Z.ltb_spec (st_length s) 0) as [Hneg|Hpos].
  - apply out_covered; [done|done|]. split; [exact He|]. simpl.
    rewrite to_int_small by (specialize (Hlen Hneg); lia). lia.
  - apply loop_covered; try done. simpl. unfold first_cluster. simpl.
    intros c Hc. unfold first_cluster in Hst. lia.
Qed.

Lemma gate_covered i f s :
  (i < length (st_frames s))%nat ->
  covered_on (fun j => j <> i) s ->
  errno_fits (st_length s) ->
  cow_end f
  = DIV_ROUND_UP (cow_sector_num f + cow_nb_sectors f)
      BACKUP_SECTORS_PER_CLUSTER ->
  cow_start f = first_cluster f ->
  covered_on (fun _ => True) (backup_do_cow_gate i f s).
Proof.
  intros Hi Ho Hlen He Hst. unfold backup_do_cow_gate.
  destruct (wait_for_overlapping_requests _ _ _).
  - apply set_frame_covered; [done|done|]. by split.
  - by apply begin_covered.
Qed.

Lemma do_cow_covered sector_num nb_sectors eir s :
  errno_fits (st_length s) -> covered_on (fun _ => True) s ->
  covered_on (fun _ => True)
    (backup_do_cow (length (st_frames s)) sector_num nb_sectors eir s).
Proof.
  intros Hlen Hc. unfold backup_do_cow. apply gate_covered; simpl; try done.
  - rewrite length_app. simpl. lia.
  - intros j fj Hne Hl. simpl in Hl.
    apply lookup_app_Some in Hl. destruct Hl as [H|[H1 H2]];
      [by apply (Hc j)|].
    destruct (j - length (st_frames s))%nat eqn:Hd; [lia|done].
Qed.

Lemma resume_cow_covered i r s :
  reg_inv s -> errno_fits (st_length s) -> covered_on (fun _ => True) s ->
  covered_on (fun _ => True) (resume_cow i r s).
Proof.
  intros Hreg Hlen Hc. unfold resume_cow.
  destruct (st_frames s !! i) as [f|] eqn:Hl; [|done].
  pose proof (lookup_lt_Some _ _ _ Hl) as Hi.
  pose proof (Hc i f I Hl) as [He Hf].
  pose proof (reg_inv_frame _ _ _ Hreg Hl) as Hok. unfold frame_ok in Hok.
  pose proof (covered_on_but i s Hc) as Ho.
  destruct (cow_at f) eqn:Hpc; try done.
  - by apply gate_covered.
  - unfold backup_do_cow_read_done.
    destruct (Z.ltb_spec (io_ret r) 0) as [Hneg|Hpos].
    + apply out_covered; [done|done|]. split; [exact He|]. simpl. lia.
    + destruct (buffer_is_zero _ _);
        (apply emit_covered, set_frame_covered; [done|done|by split]).
  - unfold backup_do_cow_write_done.
    destruct (Z.ltb_spec (io_ret r) 0) as [Hneg|Hpos].
    + apply out_covered; [done|done|]. split; [exact He|]. simpl. lia.
    + destruct Hok as ((_ & _ & _ & K4 & K5 & _) & _).
      apply loop_covered; try done.
      * intros j fj Hne Hj. simpl in *.
        eapply covered_mono; [|by apply (Ho j)].
        intros c Hb. rewrite hbitmap_set_get. by destruct (c =? _).
      * simpl. unfold first_cluster in *. simpl. intros c Hcc.
        rewrite hbitmap_set_get. destruct (Z.eqb_spec c (cow_start f)); [done|].
        apply K5. lia.
Qed.

(** *** What a call leaves of the sweep's state *)
Lemma do_cow_env i sector_num nb_sectors eir s :
  let s' := backup_do_cow i sector_num nb_sectors eir s in
  st_run s' = st_run s /\ st_length s' = st_length s
  /\ common_cancelled (st_job s') = common_cancelled (st_job s)
  /\ bitmap (st_job s') = bitmap (st_job s).
Proof.
  unfold backup_do_cow.
  match goal with |- context [backup_do_cow_gate ?i ?f ?s1] =>
    destruct (gate_quiet i f s1)
      as (A1 & _ & A3 & _ & A5 & _ & _ & _ & A9 & _)
  end.
  simpl in *. by repeat split.
Qed.

Lemma resume_cow_env i r s :
  let s' := resume_cow i r s in
  st_run s' = st_run s /\ st_length s' = st_length s
  /\ common_cancelled (st_job s') = common_cancelled (st_job s)
  /\ (forall c, hbitmap_get (bitmap (st_job s)) c = true ->
        hbitmap_get (bitmap (st_job s')) c = true).
Proof.
  assert (Hq : forall s', cow_quiet s s' ->
            st_run s' = st_run s /\ st_length s' = st_length s
            /\ common_cancelled (st_job s') = common_cancelled (st_job s)
            /\ (forall c, hbitmap_get (bitmap (st_job s)) c = true ->
                  hbitmap_get (bitmap (st_job s')) c = true)).
  { intros s' (A1 & _ & A3 & _ & A5 & _ & _ & _ & A9 & _).
    rewrite A9. by repeat split. }
  simpl. unfold resume_cow. destruct (_ !! _) as [f|]; [|by repeat split].
  destruct (cow_at f); try (by repeat split).
  - apply Hq, gate_quiet.
  - apply Hq, read_done_quiet.
  - destruct (Z.ltb_spec (io_ret r) 0) as [Hneg|Hpos].
    + by apply Hq, write_done_fail_quiet.
    + rewrite write_done_publish by done.
      match goal with |- context [backup_do_cow_loop ?i ?f ?s1] =>
        destruct (loop_quiet i f s1)
          as (A1 & _ & A3 & _ & A5 & _ & _ & _ & A9 & _) end.
      rewrite A1, A3, A5, A9. simpl. repeat split; auto.
      intros c Hb. rewrite hbitmap_set_get. by destruct (c =? _).
Qed.

(** *** The sweep's position *)
Lemma swept_exit s :
  0 <= run_start (st_run s) ->
  (forall c, 0 <= c < run_start (st_run s) ->
     hbitmap_get (bitmap (st_job s)) c = true) ->
  common_cancelled (st_job s) = true \/ run_ret (st_run s) < 0
  \/ run_end (st_run s) <= run_start (st_run s) ->
  swept (backup_run_exit s).
Proof.
  intros H1 H2 H3. unfold backup_run_exit, backup_run_complete. simpl.
  destruct (existsb _ _); by repeat split.
Qed.

Lemma swept_loop s :
  0 <= run_start (st_run s) ->
  (forall c, 0 <= c < run_start (st_run s) ->
     hbitmap_get (bitmap (st_job s)) c = true) ->
  swept (backup_run_loop s).
Proof.
  intros H1 H2. unfold backup_run_loop.
  destruct (Z.ltb_spec (run_start (st_run s)) (run_end (st_run s)));
    [|apply swept_exit; auto].
  destruct (common_cancelled _) eqn:Hc; [apply swept_exit; auto|].
  destruct (negb _); (split; [exact H1|split; [exact H2|]]);
    intros [E|E]; simpl in E; discriminate.
Qed.

Lemma swept_cow_done ret eir s :
  0 <= run_start (st_run s) ->
  (forall c, 0 <= c < run_start (st_run s) ->
     hbitmap_get (bitmap (st_job s)) c = true) ->
  (0 <= ret -> hbitmap_get (bitmap (st_job s)) (run_start (st_run s)) = true) ->
  swept (backup_run_cow_done ret eir s).
Proof.
  intros H1 H2 H3. unfold backup_run_cow_done, backup_run_next.
  destruct (Z.ltb_spec ret 0) as [Hneg|Hpos].
  - destruct (is_report _).
    + apply swept_exit; simpl; auto.
    + apply swept_loop; simpl; [lia|]. intros c Hc. apply H2. lia.
  - apply swept_loop; simpl; [lia|]. intros c Hc.
    destruct (Z.eq_dec c (run_start (st_run s))) as [->|Hne]; [auto|].
    apply H2. lia.
Qed.

Lemma run_end_exit s :
  run_end (st_run (backup_run_exit s)) = run_end (st_run s).
Proof.
  unfold backup_run_exit, backup_run_complete. simpl.
  by destruct (existsb _ _).
Qed.

Lemma run_end_loop s :
  run_end (st_run (backup_run_loop s)) = run_end (st_run s).
Proof.
  unfold backup_run_loop. destruct (_ <? _); [|apply run_end_exit].
  destruct (common_cancelled _); [apply run_end_exit|]. by destruct (negb _).
Qed.

Lemma run_end_cow_done ret eir s :
  run_end (st_run (backup_run_cow_done ret eir s)) = run_end (st_run s).
Proof.
  unfold backup_run_cow_done, backup_run_next.
  destruct (ret <? 0); [destruct (is_report _)|];
    by rewrite ?run_end_exit, ?run_end_loop.
Qed.

Lemma covered_on_core s s' :
  same_core s s' -> covered_on (fun _ => True) s ->
  covered_on (fun _ => True) s'.
Proof.
  intros (_ & B & _ & _ & _ & F & _) H j f _. rewrite B, F. by apply H.
Qed.

(** After a call of the sweep the sweep goes on: the invariant at the point
    where the call may just have returned. *)
Lemma sweep_done_resume E i s :
  errno_fits (st_length s) -> run_end (st_run s) = E ->
  0 <= run_start (st_run s) ->
  (forall c, 0 <= c < run_start (st_run s) ->
     hbitmap_get (bitmap (st_job s)) c = true) ->
  (exited s ->
   common_cancelled (st_job s) = true \/ run_ret (st_run s) < 0
   \/ run_end (st_run s) <= run_start (st_run s)) ->
  covered_on (fun _ => True) s ->
  (forall f, run_at (st_run s) = RunInCow i -> st_frames s !! i = Some f ->
     cow_sector_num f = run_start (st_run s) * BACKUP_SECTORS_PER_CLUSTER
     /\ cow_nb_sectors f = 1) ->
  sweep_done E (backup_run_resume i s).
Proof.
  intros Hlen He H1 H2 H3 Hc Hargs.
  assert (Hsame : sweep_done E s).
  { split; [done|]. split; [done|]. split; [|done]. by split. }
  unfold backup_run_resume.
  destruct (run_at (st_run s)) as [|j| |] eqn:Hat; try exact Hsame.
  destruct (Nat.eqb_spec j i) as [->|Hne]; [|exact Hsame].
  destruct (st_frames s !! i) as [f|] eqn:Hl; [|exact Hsame].
  destruct (cow_at f) eqn:Hpc; try exact Hsame.
  destruct (cow_done_core (cow_ret f) (cow_error_is_read f) s)
    as (_ & _ & _ & _ & L & _).
  split; [by rewrite L|]. split; [by rewrite run_end_cow_done|]. split.
  - apply swept_cow_done; [done|done|]. intros Hret.
    destruct (Hargs f eq_refl eq_refl) as (A1 & A2).
    destruct (Hc i f I Hl) as [Hend Hcov]. rewrite Hpc in Hcov.
    apply Hcov; [done|]. unfold first_cluster. rewrite Hend, A1, A2, spc.
    rewrite div_round_up_cluster, Z.div_mul by lia. lia.
  - eapply covered_on_core; [apply cow_done_core|done].
Qed.

Lemma sweep_args_resume_cow i r s j :
  sweep_inv s -> run_at (st_run s) = RunInCow j ->
  forall f, st_frames (resume_cow i r s) !! j = Some f ->
    cow_sector_num f = run_start (st_run s) * BACKUP_SECTORS_PER_CLUSTER
    /\ cow_nb_sectors f = 1.
Proof.
  intros Hinv Hat f' Hl'.
  destruct (Hinv j Hat) as (f & Hl & _ & F2 & F3 & _).
  destruct (st_frames s !! i) as [fi|] eqn:Hi.
  - destruct (resume_cow_kept i r s fi Hi) as (K & f1 & K1 & S1 & S2 & _).
    destruct (decide (j = i)) as [->|Hne].
    + assert (fi = f) as -> by congruence.
      assert (f1 = f') as -> by congruence. by rewrite S1, S2.
    + destruct (K j f Hne Hl) as [K2|K2].
      * assert (f = f') as -> by congruence. done.
      * destruct (restart_static i f) as ((T1 & T2 & _) & _).
        assert (restart i f = f') as <- by congruence. by rewrite T1, T2.
  - unfold resume_cow in Hl'. rewrite Hi in Hl'.
    assert (f = f') as -> by congruence. done.
Qed.

Lemma sweep_done_step E s a :
  inv s -> length_fits a -> sweep_done E s -> sweep_done E (step s a).
Proof.
  intros (Hreg & Hsw & _) Ha (Hlen & He & (H1 & H2 & H3) & Hc).
  assert (Hsame : sweep_done E s).
  { split; [done|]. split; [done|]. split; [|done]. by split. }
  destruct a as [|v|sn nb|sn nb|i r|]; simpl.
  - split; [done|]. split; [done|]. split; [|exact Hc].
    split; [done|]. split; [done|]. intros _. by left.
  - split; [exact Ha|]. split; [done|]. split; [|exact Hc]. by split.
  - destruct (st_before_write s); [|exact Hsame].
    unfold backup_before_write_notify. simpl.
    destruct (do_cow_env (length (st_frames s)) sn nb false s)
      as (E1 & E2 & E3 & E4). simpl in *.
    split; [by rewrite E2|]. split; [by rewrite E1|].
    split; [|by apply do_cow_covered].
    unfold swept, exited. rewrite E1, E3, E4. by split.
  - exact Hsame.
  - destruct (resume_cow_env i r s) as (E1 & E2 & E3 & E4). simpl in *.
    apply sweep_done_resume.
    + by rewrite E2.
    + by rewrite E1.
    + by rewrite E1.
    + rewrite E1. intros c Hcc. by apply E4, H2.
    + unfold exited. rewrite E1, E3. exact H3.
    + by apply resume_cow_covered.
    + intros f Hat Hl. rewrite E1 in *.
      by apply (sweep_args_resume_cow i r s i Hsw Hat).
  - destruct (run_at (st_run s)) eqn:Hat; try exact Hsame.
    + unfold backup_run_wake. destruct (common_cancelled _) eqn:Hcan.
      * split; [|split; [by rewrite run_end_exit|split]].
        -- by destruct (exit_core s) as (_ & _ & _ & _ & -> & _).
        -- apply swept_exit; auto.
        -- eapply covered_on_core; [apply exit_core|done].
      * set (i := length (st_frames s)).
        set (s2 := set_run_at (RunInCow i) s).
        destruct (do_cow_env i
                    (run_start (st_run s) * BACKUP_SECTORS_PER_CLUSTER) 1 true s2)
          as (E1 & E2 & E3 & E4). simpl in *.
        destruct (do_cow_frames
                    (run_start (st_run s) * BACKUP_SECTORS_PER_CLUSTER) 1 true s2)
          as (_ & f' & K1 & K2 & K3 & _). simpl in K1. fold i in K1.
        apply sweep_done_resume.
        -- by rewrite E2.
        -- by rewrite E1.
        -- by rewrite E1.
        -- rewrite E1, E4. exact H2.
        -- unfold exited. rewrite E1. simpl. intros [|]; discriminate.
        -- by apply (do_cow_covered _ _ _ s2).
        -- intros f _ Hl. rewrite E1. simpl.
           assert (f = f') as -> by congruence. done.
    + destruct (existsb _ _); [exact Hsame|].
      split; [done|]. split; [done|]. split; [|done].
      split; [done|]. split; [done|]. intros _. apply H3. by left.
Qed.

Lemma sweep_done_run E s acts :
  inv s -> Forall length_fits acts -> sweep_done E s ->
  sweep_done E (run s acts).
Proof.
  revert s. induction acts as [|a acts IH]; intros s Hinv Hacts Hd; simpl;
    [done|].
  inversion Hacts; subst.
  apply IH; [by apply inv_step|done|by apply sweep_done_step].
Qed.

Lemma sweep_done_backup_run j len :
  errno_fits len ->
  sweep_done (DIV_ROUND_UP (len / BDRV_SECTOR_SIZE) BACKUP_SECTORS_PER_CLUSTER)
    (backup_run j len).
Proof.
  intros Hlen. unfold backup_run.
  match goal with |- sweep_done _ (backup_run_loop ?s1) =>
    destruct (loop_core s1) as (_ & _ & _ & _ & L & F & _);
    split; [by rewrite L|split; [by rewrite run_end_loop|split]]
  end.
  - apply swept_loop; simpl; [lia|]. intros c Hc. lia.
  - intros i f _ Hl. rewrite F in Hl. done.
Qed.

Lemma sweep_done_backup_start len speed src tgt io s :
  backup_start len speed src tgt io = Some s -> errno_fits len ->
  sweep_done (DIV_ROUND_UP (len / BDRV_SECTOR_SIZE) BACKUP_SECTORS_PER_CLUSTER)
    s.
Proof.
  unfold backup_start. intros H Hlen.
  destruct src, io, (speed <? 0); try discriminate; injection H as <-;
    by apply sweep_done_backup_run.
Qed.

(** *** A call for clusters that are copied already *)
Lemma skip_copied_all k hb start :
  (forall c, start <= c < start + Z.of_nat k -> hbitmap_get hb c = true) ->
  skip_copied k hb start = (start + Z.of_nat k, false).
Proof.
  revert start. induction k as [|k IH]; intros start H; simpl.
  - f_equal. lia.
  - rewrite H by lia. rewrite IH; [f_equal; lia|]. intros c Hc. apply H. lia.
Qed.

Lemma do_cow_copied sector_num nb_sectors eir s :
  wait_for_overlapping_requests (st_job s)
    (sector_num / BACKUP_SECTORS_PER_CLUSTER)
    (DIV_ROUND_UP (sector_num + nb_sectors) BACKUP_SECTORS_PER_CLUSTER)
  = None ->
  0 <= st_length s ->
  (forall c,
     sector_num / BACKUP_SECTORS_PER_CLUSTER <= c
     < DIV_ROUND_UP (sector_num + nb_sectors) BACKUP_SECTORS_PER_CLUSTER ->
     hbitmap_get (bitmap (st_job s)) c = true) ->
  let i := length (st_frames s) in
  let s' := backup_do_cow i sector_num nb_sectors eir s in
  returned s' i = Some 0
  /\ st_trace s' = st_trace s ++ [EvCow i sector_num nb_sectors eir]
  /\ bitmap (st_job s') = bitmap (st_job s)
  /\ common_offset (st_job s') = common_offset (st_job s).
Proof.
  intros Hgate Hlen Hbits. simpl.
  unfold backup_do_cow, backup_do_cow_gate. simpl. rewrite Hgate.
  unfold backup_do_cow_begin. simpl.
  destruct (Z.ltb_spec (st_length s) 0) as [Hneg|_]; [lia|].
  unfold backup_do_cow_loop. simpl.
  rewrite skip_copied_all by (intros c Hc; apply Hbits; lia).
  unfold returned. rewrite out_frame by (simpl; rewrite length_app; simpl; lia).
  by repeat split.
Qed.

(** *** One call per cluster *)
Lemma copying_disjoint s i j fi fj :
  reg_inv s -> i <> j ->
  st_frames s !! i = Some fi -> st_frames s !! j = Some fj ->
  copying fi -> copying fj ->
  In (cow_request fi) (inflight_reqs (st_job s))
  /\ req_owner (cow_request fi) = i
  /\ overlaps (req_start (cow_request fi)) (req_end (cow_request fi))
       (cow_request fj) = false.
Proof.
  intros Hreg Hne Hi Hj Hci Hcj.
  pose proof (reg_inv_frame _ _ _ Hreg Hi) as Hoi.
  pose proof (reg_inv_frame _ _ _ Hreg Hj) as Hoj.
  destruct Hreg as (Hd & _).
  assert (Hi' : holds s i fi).
  { unfold frame_ok in Hoi. destruct Hci as [Hp|Hp]; rewrite Hp in Hoi; tauto. }
  assert (Hj' : holds s j fj).
  { unfold frame_ok in Hoj. destruct Hcj as [Hp|Hp]; rewrite Hp in Hoj; tauto. }
  destruct Hi' as (A1 & A2 & _). destruct Hj' as (B1 & B2 & _).
  split; [exact A2|]. split; [by rewrite A1|].
  apply (disjoint_reqs_In _ _ _ Hd A2 B2).
  intros Heq. apply Hne. rewrite A1, B1 in Heq. by injection Heq.
Qed.

End BlockBackupSweep.

(** * Facts about waiting calls, the drain and the rate limit of
    block/backup.c *)
Module BlockBackupDrain.
Import BlockBackup BlockBackupFacts BlockBackupSweep.

(** *** The shape of a segment *)
Lemma shape_from i s0 s s' :
  st_frames s = st_frames s0 -> seg_shape i s s' -> seg_shape i s0 s'.
Proof. unfold seg_shape. by intros ->. Qed.

Lemma shape_to i s s1 s2 :
  st_frames s2 = st_frames s1 -> seg_shape i s s1 -> seg_shape i s s2.
Proof. unfold seg_shape. by intros ->. Qed.

Lemma out_shape i f s : seg_shape i s (backup_do_cow_out i f s).
Proof. right. exists (set_at CowReturned f). by split. Qed.

Lemma copying_shape i f s : copying f -> seg_shape i s (set_frame i f s).
Proof. intros H. left. exists f. split; [done|by left]. Qed.

Lemma loop_shape i f s : seg_shape i s (backup_do_cow_loop i f s).
Proof.
  unfold backup_do_cow_loop. destruct (skip_copied _ _ _) as [c []].
  - eapply shape_to; [|apply copying_shape]; [done|by left].
  - apply out_shape.
Qed.

Lemma begin_shape i f s : seg_shape i s (backup_do_cow_begin i f s).
Proof.
  unfold backup_do_cow_begin. simpl. destruct (st_length s <? 0).
  - eapply shape_from; [|apply out_shape]. done.
  - eapply shape_from; [|apply loop_shape]. done.
Qed.

Lemma gate_shape i f s :
  (forall r, In r (inflight_reqs (st_job s)) ->
     exists fo, st_frames s !! req_owner r = Some fo /\ copying fo) ->
  (forall fi, st_frames s !! i = Some fi -> ~ copying fi) ->
  seg_shape i s (backup_do_cow_gate i f s).
Proof.
  intros Hreq Hi. unfold backup_do_cow_gate, wait_for_overlapping_requests.
  destruct (find _ _) as [req|] eqn:Hf; [|apply begin_shape].
  apply find_some in Hf. destruct Hf as [Hin _].
  destruct (Hreq req Hin) as (fo & Hl & Hc).
  left. eexists. split; [reflexivity|]. right.
  exists (req_owner req). split; [done|]. split.
  - intros Heq. rewrite Heq in Hl. by apply (Hi fo).
  - split; [by exists fo|exact Hi].
Qed.

Lemma read_done_shape i f r s :
  seg_shape i s (backup_do_cow_read_done i f r s).
Proof.
  unfold backup_do_cow_read_done. destruct (io_ret r <? 0); [apply out_shape|].
  destruct (buffer_is_zero _ _);
    (eapply shape_to; [|apply copying_shape]; [done|by right]).
Qed.

Lemma write_done_shape i f r s :
  seg_shape i s (backup_do_cow_write_done i f r s).
Proof.
  unfold backup_do_cow_write_done. destruct (io_ret r <? 0); [apply out_shape|].
  eapply shape_from; [|apply loop_shape]. done.
Qed.

Lemma reg_inv_owner s r :
  reg_inv s -> In r (inflight_reqs (st_job s)) ->
  exists fo, st_frames s !! req_owner r = Some fo /\ copying fo.
Proof.
  intros (_ & _ & H & _) Hin. destruct (H r Hin I) as (f & Hl & _ & Hc).
  by exists f.
Qed.

Lemma resume_cow_shape i r s :
  reg_inv s -> seg_shape i s (resume_cow i r s) \/ resume_cow i r s = s.
Proof.
  intros Hreg. unfold resume_cow.
  destruct (st_frames s !! i) as [f|] eqn:Hl; [|by right].
  destruct (cow_at f) eqn:Hpc; try (by right); left.
  - apply gate_shape; [intros r0; by apply reg_inv_owner|].
    intros fi Hfi [H|H]; congruence.
  - apply read_done_shape.
  - apply write_done_shape.
Qed.

Lemma do_cow_shape sector_num nb_sectors eir s :
  reg_inv s ->
  let i := length (st_frames s) in
  exists f0,
    cow_at f0 = CowGate
    /\ seg_shape i (set_frames (st_frames s ++ [f0]) s)
         (backup_do_cow i sector_num nb_sectors eir s).
Proof.
  intros Hreg. simpl. unfold backup_do_cow.
  match goal with |- context [backup_do_cow_gate _ ?f _] => exists f end.
  split; [done|]. eapply shape_from; [|apply gate_shape]; [done|..].
  - simpl. intros r Hin. destruct (reg_inv_owner s r Hreg Hin) as (fo & Hl & Hc).
    exists fo. split; [|done]. by apply lookup_app_l_Some.
  - simpl. intros fi Hfi. rewrite lookup_app_r in Hfi by lia.
    rewrite Nat.sub_diag in Hfi. simpl in Hfi. injection Hfi as <-.
    intros [H|H]; discriminate.
Qed.

(** *** No wake-up is lost *)
Lemma restart_waiting i f on :
  cow_at (restart i f) = CowWaiting on -> cow_at f = CowWaiting on /\ on <> i.
Proof.
  unfold restart. destruct (cow_at f) as [|on'| | |] eqn:Hpc; try congruence.
  destruct (Nat.eqb_spec on' i) as [->|Hne]; simpl; [discriminate|].
  rewrite Hpc. intros [= ->]. done.
Qed.

Lemma restart_woken i f : cow_at f = CowWaiting i -> cow_at (restart i f) = CowGate.
Proof. unfold restart. intros ->. by rewrite Nat.eqb_refl. Qed.

Lemma shape_waiters i s s' :
  (i < length (st_frames s))%nat -> seg_shape i s s' ->
  waiters_ok s -> waiters_ok s'.
Proof.
  intros Hi [(f' & Hfr & Hf')|(f' & Hfr & Hf')] Hw j f on Hl Hpc;
    rewrite Hfr in *.
  - destruct (decide (j = i)) as [->|Hne].
    + rewrite list_lookup_insert_eq in Hl by done. injection Hl as <-.
      destruct Hf' as [[H|H]|(on' & H1 & H2 & (fo & H3 & H4) & _)];
        try congruence.
      assert (on' = on) as -> by congruence. split; [done|].
      exists fo. split; [|done]. by rewrite list_lookup_insert_ne.
    + rewrite list_lookup_insert_ne in Hl by done.
      destruct (Hw j f on Hl Hpc) as (Hon & fo & Ho & Hc). split; [done|].
      destruct (decide (on = i)) as [->|Hne'].
      * exists f'. split; [by apply list_lookup_insert_eq|].
        destruct Hf' as [H|(on' & _ & _ & _ & H)]; [done|].
        by destruct (H fo Ho).
      * exists fo. split; [|done]. by rewrite list_lookup_insert_ne.
  - destruct (decide (j = i)) as [->|Hne].
    + rewrite list_lookup_insert_eq in Hl by (by rewrite length_fmap).
      injection Hl as <-. congruence.
    + rewrite list_lookup_insert_ne in Hl by done.
      rewrite list_lookup_fmap in Hl.
      destruct (st_frames s !! j) as [fj|] eqn:Hj; [|done].
      injection Hl as <-. apply restart_waiting in Hpc.
      destruct Hpc as [Hpc Hon'].
      destruct (Hw j fj on Hj Hpc) as (Hon & fo & Ho & Hc). split; [done|].
      exists fo. split; [|done].
      rewrite list_lookup_insert_ne by done.
      rewrite list_lookup_fmap, Ho. simpl. by rewrite restart_copying.
Qed.

Lemma resume_cow_waiters i r s :
  reg_inv s -> waiters_ok s -> waiters_ok (resume_cow i r s).
Proof.
  intros Hreg Hw. destruct (resume_cow_shape i r s Hreg) as [H| ->]; [|done].
  destruct (st_frames s !! i) as [f|] eqn:Hl.
  - by apply (shape_waiters i s); [apply (lookup_lt_Some _ _ _ Hl)| |].
  - unfold resume_cow. by rewrite Hl.
Qed.

Lemma do_cow_waiters sector_num nb_sectors eir s :
  reg_inv s -> waiters_ok s ->
  waiters_ok (backup_do_cow (length (st_frames s)) sector_num nb_sectors eir s).
Proof.
  intros Hreg Hw.
  destruct (do_cow_shape sector_num nb_sectors eir s Hreg) as (f0 & Hpc & Hs).
  eapply shape_waiters; [|exact Hs|].
  - simpl. rewrite length_app. simpl. lia.
  - intros j f on Hl Hat. simpl in *.
    apply lookup_app_Some in Hl. destruct Hl as [Hl|[H1 Hl]].
    + destruct (Hw j f on Hl Hat) as (Hon & fo & Ho & Hc). split; [done|].
      exists fo. split; [|done]. by apply lookup_app_l_Some.
    + destruct (j - length (st_frames s))%nat; [|done].
      simpl in Hl. injection Hl as <-. congruence.
Qed.

Lemma waiters_core s s' : same_core s s' -> waiters_ok s -> waiters_ok s'.
Proof.
  intros (_ & _ & _ & _ & _ & F & _) H. unfold waiters_ok. by rewrite F.
Qed.

Lemma waiters_step s a : reg_inv s -> waiters_ok s -> waiters_ok (step s a).
Proof.
  intros Hreg Hw. destruct a as [|v|sn nb|sn nb|i r|]; simpl; try done.
  - destruct (st_before_write s); [|done]. by apply do_cow_waiters.
  - eapply waiters_core; [apply resume_core|]. by apply resume_cow_waiters.
  - destruct (run_at (st_run s)); try done.
    + unfold backup_run_wake. destruct (common_cancelled _).
      * eapply waiters_core; [apply exit_core|done].
      * eapply waiters_core; [apply resume_core|].
        match goal with |- waiters_ok (backup_do_cow _ ?a ?b ?c ?s1) =>
          apply (do_cow_waiters a b c s1) end; [|done].
        eapply reg_on_core; [|exact Hreg]. core_tac.
    + destruct (existsb _ _); [done|].
      eapply waiters_core; [apply complete_core|done].
Qed.

Lemma waiters_run s acts : reg_inv s -> waiters_ok s -> waiters_ok (run s acts).
Proof.
  revert s. induction acts as [|a acts IH]; intros s Hreg Hw; simpl; [done|].
  apply IH; [by apply step_ok|by apply waiters_step].
Qed.

Lemma waiters_backup_start len speed src tgt io s :
  backup_start len speed src tgt io = Some s -> waiters_ok s.
Proof.
  unfold backup_start. intros H.
  assert (forall j, waiters_ok (backup_run j len)) as Hrun.
  { intros j. unfold backup_run. eapply waiters_core; [apply loop_core|].
    intros k f on Hl. done. }
  destruct src, io, (speed <? 0); try discriminate; injection H as <-;
    apply Hrun.
Qed.

(** The return of a call wakes every call queued on it; a queued call does
    not move before. *)
Lemma return_wakes s i r j f :
  reg_inv s -> waiters_ok s ->
  st_frames s !! j = Some f -> cow_at f = CowWaiting i ->
  let s' := step s (AResume i r) in
  is_Some (returned s' i) ->
  exists f', st_frames s' !! j = Some f' /\ cow_at f' = CowGate.
Proof.
  intros Hreg Hw Hl Hpc. simpl.
  pose proof (resume_frames i (resume_cow i r s)) as Hfr.
  unfold returned. rewrite Hfr. intros Hret.
  destruct (Hw j f i Hl Hpc) as (Hne & fo & Ho & Hc).
  pose proof (lookup_lt_Some _ _ _ Ho) as Hi.
  destruct (resume_cow_shape i r s Hreg)
    as [[(f' & E & Hf')|(f' & E & Hf')]|E]; rewrite E in *.
  - rewrite list_lookup_insert_eq in Hret by done.
    destruct Hf' as [[H|H]|(on & H & _)]; rewrite H in Hret;
      by destruct Hret.
  - exists (restart i f). split; [|by apply restart_woken].
    rewrite list_lookup_insert_ne by done. by rewrite list_lookup_fmap, Hl.
  - rewrite Ho in Hret. destruct Hc as [H|H]; rewrite H in Hret;
      by destruct Hret.
Qed.

Lemma waiting_stays s j f on r :
  st_frames s !! j = Some f -> cow_at f = CowWaiting on ->
  step s (AResume j r) = s.
Proof.
  intros Hl Hpc. simpl. unfold resume_cow. rewrite Hl, Hpc.
  unfold backup_run_resume. destruct (run_at (st_run s)); try done.
  destruct (Nat.eqb _ _); [|done]. by rewrite Hl, Hpc.
Qed.

(** *** The drain *)
Lemma not_pending_returned l :
  existsb pending l = false -> Forall (fun f => cow_at f = CowReturned) l.
Proof.
  induction l as [|f l IH]; simpl; [constructor|].
  intros H. apply orb_false_iff in H. destruct H as [H1 H2].
  constructor; [|by apply IH]. unfold pending in H1. by destruct (cow_at f).
Qed.

Lemma drained_exit s : drained (backup_run_exit s).
Proof.
  unfold backup_run_exit, backup_run_complete. simpl.
  destruct (existsb _ _) eqn:Hex; split; simpl; try done.
  intros _. by apply not_pending_returned.
Qed.

Lemma drained_loop s : drained (backup_run_loop s).
Proof.
  unfold backup_run_loop. destruct (_ <? _); [|apply drained_exit].
  destruct (common_cancelled _); [apply drained_exit|].
  destruct (negb _); (split; [intros [H|H]|intros H]; simpl in H; discriminate).
Qed.

Lemma drained_cow_done ret eir s : drained (backup_run_cow_done ret eir s).
Proof.
  unfold backup_run_cow_done, backup_run_next.
  destruct (ret <? 0); [destruct (is_report _)|];
    auto using drained_exit, drained_loop.
Qed.

Lemma drained_resume i s : drained s -> drained (backup_run_resume i s).
Proof.
  intros H. unfold backup_run_resume. destruct (run_at _); auto.
  destruct (Nat.eqb _ _); auto. destruct (_ !! _) as [f|]; auto.
  destruct (cow_at f); auto. apply drained_cow_done.
Qed.

Lemma all_returned_resume_cow i r s :
  all_returned s -> resume_cow i r s = s.
Proof.
  intros H. unfold resume_cow.
  destruct (st_frames s !! i) as [f|] eqn:Hl; [|done].
  unfold all_returned in H. rewrite Forall_lookup in H.
  by rewrite (H i f Hl).
Qed.

Lemma resume_cow_notifier i r s :
  st_before_write (resume_cow i r s) = st_before_write s
  /\ common_speed (st_job (resume_cow i r s)) = common_speed (st_job s).
Proof.
  assert (Hq : forall s', cow_quiet s s' ->
            st_before_write s' = st_before_write s
            /\ common_speed (st_job s') = common_speed (st_job s)).
  { by intros s' (_ & A2 & _ & _ & _ & A6 & _). }
  unfold resume_cow. destruct (_ !! _) as [f|]; [|done].
  destruct (cow_at f); try done.
  - apply Hq, gate_quiet.
  - apply Hq, read_done_quiet.
  - destruct (Z.ltb_spec (io_ret r) 0) as [Hneg|Hpos].
    + by apply Hq, write_done_fail_quiet.
    + rewrite write_done_publish by done.
      match goal with |- context [backup_do_cow_loop ?i ?f ?s1] =>
        destruct (loop_quiet i f s1) as (_ & A2 & _ & _ & _ & A6 & _) end.
      by rewrite A2, A6.
Qed.

Lemma drained_step s a : drained s -> drained (step s a).
Proof.
  intros Hd. pose proof Hd as [H1 H2].
  destruct a as [|v|sn nb|sn nb|i r|]; simpl; try exact Hd.
  - destruct (st_before_write s) eqn:Hb; [|exact Hd].
    unfold backup_before_write_notify. simpl.
    destruct (do_cow_kept (length (st_frames s)) sn nb false s)
      as (K1 & K2 & _). simpl in *.
    assert (~ exited s) as Hne by (intros H; specialize (H1 H); congruence).
    unfold drained, exited in *. rewrite K1, K2.
    split; [intros H; by destruct Hne|intros H; destruct Hne; by right].
  - apply drained_resume.
    destruct (resume_cow_notifier i r s) as [N1 _].
    pose proof (resume_cow_run i r s) as N2.
    unfold drained, exited in *. rewrite N1, N2. split; [done|].
    intros Hc. rewrite all_returned_resume_cow by auto. auto.
  - destruct (run_at (st_run s)) eqn:Hat; try exact Hd.
    + unfold backup_run_wake. destruct (common_cancelled _);
        [apply drained_exit|].
      apply drained_resume.
      match goal with |- drained (backup_do_cow ?i ?a ?b ?c ?s1) =>
        destruct (do_cow_kept i a b c s1) as (K1 & K2 & _) end.
      simpl in *. unfold drained, exited. rewrite K1. simpl.
      split; [intros [H|H]|intros H]; discriminate.
    + destruct (existsb _ _) eqn:Hex; [exact Hd|].
      unfold backup_run_complete. split; simpl.
      * intros _. apply H1. by left.
      * intros _. by apply not_pending_returned.
Qed.

Lemma drained_run s acts : drained s -> drained (run s acts).
Proof.
  revert s. induction acts as [|a acts IH]; intros s H; simpl; [done|].
  by apply IH, drained_step.
Qed.

Lemma drained_backup_start len speed src tgt io s :
  backup_start len speed src tgt io = Some s -> drained s.
Proof.
  unfold backup_start, backup_run. intros H.
  destruct src, io, (speed <? 0); try discriminate; injection H as <-;
    apply drained_loop.
Qed.

Lemma frozen_refl s : frozen s s.
Proof. by repeat split. Qed.

Lemma frozen_trans s1 s2 s3 : frozen s1 s2 -> frozen s2 s3 -> frozen s1 s3.
Proof.
  intros (A1 & A2 & A3 & A4 & A5 & A6 & A7) (B1 & B2 & B3 & B4 & B5 & B6 & B7).
  unfold frozen. by rewrite B1, B2, B3, B4, B5, B6, B7.
Qed.

Lemma completed_step s a :
  drained s -> run_at (st_run s) = RunCompleted -> frozen s (step s a).
Proof.
  intros [H1 H2] Hat.
  assert (st_before_write s = false) as Hb by (apply H1; by right).
  destruct a as [|v|sn nb|sn nb|i r|]; simpl; try apply frozen_refl.
  - by repeat split.
  - by repeat split.
  - rewrite Hb. apply frozen_refl.
  - rewrite all_returned_resume_cow by auto.
    unfold backup_run_resume. rewrite Hat. apply frozen_refl.
  - rewrite Hat. apply frozen_refl.
Qed.

Lemma completed_run s acts :
  drained s -> run_at (st_run s) = RunCompleted -> frozen s (run s acts).
Proof.
  revert s. induction acts as [|a acts IH]; intros s Hd Hat; simpl;
    [apply frozen_refl|].
  pose proof (completed_step s a Hd Hat) as Hf.
  eapply frozen_trans; [exact Hf|]. apply IH; [by apply drained_step|].
  destruct Hf as (_ & _ & -> & _). done.
Qed.

(** *** Progress at the end of a complete sweep *)
Lemma copied_full hb T k :
  0 <= T -> Z.of_nat k <= DIV_ROUND_UP T 128 ->
  (forall c, 0 <= c < Z.of_nat k -> hbitmap_get hb c = true) ->
  copied hb T k = Z.min T (128 * Z.of_nat k).
Proof.
  intros HT. induction k as [|k IH]; intros Hk Hb; simpl; [lia|].
  rewrite IH by (try lia; intros c Hc; apply Hb; lia).
  rewrite Hb by lia.
  destruct (cluster_sectors_pos T (Z.of_nat k)) as (P1 & P2 & P3); [lia|].
  unfold cluster_sectors in *. rewrite MIN_spec, spc in *. lia.
Qed.

Lemma div_round_up_ge T : 0 <= T -> T <= 128 * DIV_ROUND_UP T 128.
Proof.
  intros HT. unfold DIV_ROUND_UP.
  pose proof (Z.div_mod (T + 128 - 1) 128 ltac:(lia)).
  pose proof (Z.mod_pos_bound (T + 128 - 1) 128 ltac:(lia)). lia.
Qed.

Lemma div_round_up_nonneg T : 0 <= T -> 0 <= DIV_ROUND_UP T 128.
Proof. intros HT. unfold DIV_ROUND_UP. apply Z.div_pos; lia. Qed.
















End BlockBackupDrain.

(** * Facts about the order of I/O and about cancellation in block/backup.c *)
Module BlockBackupOrder.
Import BlockBackup BlockBackupFacts.

(** *** Code that issues no target write *)
Lemma no_write_refl s : no_write s s.
Proof. exists []. by rewrite app_nil_r. Qed.

Lemma no_write_trans s1 s2 s3 : no_write s1 s2 -> no_write s2 s3 -> no_write s1 s3.
Proof.
  intros (l1 & A1 & A2) (l2 & B1 & B2). exists (l1 ++ l2).
  split; [by rewrite B1, A1, app_assoc|]. by apply Forall_app.
Qed.

Lemma no_write_same s s' : st_trace s' = st_trace s -> no_write s s'.
Proof. intros H. exists []. by rewrite app_nil_r. Qed.

Lemma no_write_emit e s s1 :
  st_trace s1 = st_trace s -> ~ is_target_write e -> no_write s (emit e s1).
Proof.
  intros H He. exists [e]. simpl. rewrite H. split; [done|].
  by constructor.
Qed.

Lemma no_write_core s s' : same_core s s' -> no_write s s'.
Proof.
  intros (_ & _ & _ & _ & _ & _ & l & H1 & H2). exists l. split; [done|].
  eapply Forall_impl; [exact H2|]. intros e He Hw. by destruct e.
Qed.

Lemma out_no_write i f s : no_write s (backup_do_cow_out i f s).
Proof. by apply no_write_same. Qed.

Lemma loop_no_write i f s : no_write s (backup_do_cow_loop i f s).
Proof.
  unfold backup_do_cow_loop. destruct (skip_copied _ _ _) as [c []].
  - apply no_write_emit; simpl; tauto.
  - apply out_no_write.
Qed.

Lemma begin_no_write i f s : no_write s (backup_do_cow_begin i f s).
Proof.
  unfold backup_do_cow_begin. simpl. destruct (st_length s <? 0).
  - eapply no_write_trans; [|apply out_no_write]. by apply no_write_same.
  - eapply no_write_trans; [|apply loop_no_write]. by apply no_write_same.
Qed.

Lemma gate_no_write i f s : no_write s (backup_do_cow_gate i f s).
Proof.
  unfold backup_do_cow_gate. destruct (wait_for_overlapping_requests _ _ _).
  - by apply no_write_same.
  - apply begin_no_write.
Qed.

Lemma do_cow_no_write i sector_num nb_sectors eir s :
  no_write s (backup_do_cow i sector_num nb_sectors eir s).
Proof.
  unfold backup_do_cow. eapply no_write_trans; [|apply gate_no_write].
  apply no_write_emit; simpl; tauto.
Qed.

(** A step issues no target write, or it is the return of a successful
    source read and issues the write of what was read. *)
Lemma step_writes s a :
  reg_inv s ->
  exists l, st_trace (step s a) = st_trace s ++ l
            /\ Forall (read_before (st_trace s)) l.
Proof.
  intros Hreg.
  assert (forall s', no_write s s' ->
            exists l, st_trace s' = st_trace s ++ l
                      /\ Forall (read_before (st_trace s)) l) as Hnw.
  { intros s' (l & H1 & H2). exists l. split; [done|].
    eapply Forall_impl; [exact H2|]. intros e He. by destruct e. }
  destruct a as [|v|sn nb|sn nb|i r|]; simpl;
    try (apply Hnw, no_write_refl).
  - destruct (st_before_write s); [|apply Hnw, no_write_refl].
    apply Hnw, do_cow_no_write.
  - destruct (st_frames s !! i) as [f|] eqn:Hl.
    2:{ apply Hnw. eapply no_write_trans; [|apply no_write_core, resume_core].
        unfold resume_cow. rewrite Hl. apply no_write_refl. }
    destruct (cow_at f) eqn:Hpc.
    + apply Hnw. eapply no_write_trans; [|apply no_write_core, resume_core].
      unfold resume_cow. rewrite Hl, Hpc. apply gate_no_write.
    + apply Hnw. eapply no_write_trans; [|apply no_write_core, resume_core].
      unfold resume_cow. rewrite Hl, Hpc. apply no_write_refl.
    + destruct (Z.ltb_spec (io_ret r) 0) as [Hneg|Hpos].
      * apply Hnw. eapply no_write_trans; [|apply no_write_core, resume_core].
        unfold resume_cow. rewrite Hl, Hpc. unfold backup_do_cow_read_done.
        apply Z.ltb_lt in Hneg. rewrite Hneg. apply out_no_write.
      * destruct (zero_detect_main s i f r Hl Hpc Hpos) as (_ & Ht).
        simpl in Ht. eexists. split; [exact Ht|].
        pose proof (reg_inv_frame _ _ _ Hreg Hl) as Hok.
        unfold frame_ok in Hok. rewrite Hpc in Hok.
        destruct Hok as (_ & _ & Hread).
        constructor; [|done]. by destruct (buffer_is_zero _ _).
    + apply Hnw. eapply no_write_trans; [|apply no_write_core, resume_core].
      unfold resume_cow. rewrite Hl, Hpc.
      destruct (Z.ltb_spec (io_ret r) 0) as [Hneg|Hpos].
      * unfold backup_do_cow_write_done. apply Z.ltb_lt in Hneg.
        rewrite Hneg. apply out_no_write.
      * rewrite write_done_publish by done.
        eapply no_write_trans; [|apply loop_no_write]. by apply no_write_same.
    + apply Hnw. eapply no_write_trans; [|apply no_write_core, resume_core].
      unfold resume_cow. rewrite Hl, Hpc. apply no_write_refl.
  - destruct (run_at (st_run s)); try (apply Hnw, no_write_refl).
    + apply Hnw. unfold backup_run_wake. destruct (common_cancelled _);
        [apply no_write_core, exit_core|].
      eapply no_write_trans; [|apply no_write_core, resume_core].
      eapply no_write_trans; [|apply do_cow_no_write]. by apply no_write_same.
    + destruct (existsb _ _); [apply Hnw, no_write_refl|].
      apply Hnw, no_write_core, complete_core.
Qed.

Lemma read_before_app l l' e : read_before l e -> read_before (l ++ l') e.
Proof. destruct e; simpl; auto; intros H; apply in_or_app; by left. Qed.

Lemma follow_app l l' :
  writes_follow_reads l -> Forall (read_before l) l' ->
  writes_follow_reads (l ++ l').
Proof.
  intros Hl Hl' p e Hp.
  destruct (decide (p < length l)%nat) as [Hlt|Hge].
  - rewrite lookup_app_l in Hp by done.
    rewrite take_app_le by lia. by apply Hl.
  - rewrite lookup_app_r in Hp by lia.
    rewrite take_app_ge by lia. apply read_before_app.
    rewrite Forall_lookup in Hl'. by apply (Hl' _ _ Hp).
Qed.

Lemma follow_step s a :
  reg_inv s -> writes_follow_reads (st_trace s) ->
  writes_follow_reads (st_trace (step s a)).
Proof.
  intros Hreg H. destruct (step_writes s a Hreg) as (l & -> & Hl).
  by apply follow_app.
Qed.

Lemma follow_run s acts :
  reg_inv s -> writes_follow_reads (st_trace s) ->
  writes_follow_reads (st_trace (run s acts)).
Proof.
  revert s. induction acts as [|a acts IH]; intros s Hreg H; simpl; [done|].
  apply IH; [by apply step_ok|by apply follow_step].
Qed.

Lemma follow_start len speed src tgt io s :
  backup_start len speed src tgt io = Some s ->
  writes_follow_reads (st_trace s).
Proof.
  unfold backup_start. intros H.
  assert (forall j, writes_follow_reads (st_trace (backup_run j len))) as Hrun.
  { intros j. unfold backup_run.
    match goal with |- context [backup_run_loop ?s1] =>
      destruct (no_write_core s1 _ (loop_core s1)) as (l & -> & Hl) end.
    simpl. intros p e Hp. rewrite Forall_lookup in Hl.
    specialize (Hl _ _ Hp). by destruct e. }
  destruct src, io, (speed <? 0); try discriminate; injection H as <-;
    apply Hrun.
Qed.

(** *** Cancellation does not reach into a call *)
Lemma out_cancel i f s :
  backup_do_cow_out i f (cancel s) = cancel (backup_do_cow_out i f s).
Proof. reflexivity. Qed.

Lemma loop_cancel i f s :
  backup_do_cow_loop i f (cancel s) = cancel (backup_do_cow_loop i f s).
Proof.
  unfold backup_do_cow_loop. simpl.
  by destruct (skip_copied _ _ _) as [c []].
Qed.

Lemma begin_cancel i f s :
  backup_do_cow_begin i f (cancel s) = cancel (backup_do_cow_begin i f s).
Proof.
  unfold backup_do_cow_begin. simpl. destruct (st_length s <? 0).
  - reflexivity.
  - match goal with |- backup_do_cow_loop ?i ?f ?s1 = cancel (backup_do_cow_loop _ _ ?s2) =>
      change s1 with (cancel s2) end.
    apply loop_cancel.
Qed.

Lemma gate_cancel i f s :
  backup_do_cow_gate i f (cancel s) = cancel (backup_do_cow_gate i f s).
Proof.
  unfold backup_do_cow_gate. simpl.
  destruct (wait_for_overlapping_requests _ _ _); [done|apply begin_cancel].
Qed.

Lemma do_cow_cancel i sector_num nb_sectors eir s :
  backup_do_cow i sector_num nb_sectors eir (cancel s)
  = cancel (backup_do_cow i sector_num nb_sectors eir s).
Proof.
  unfold backup_do_cow.
  match goal with |- backup_do_cow_gate ?i ?f ?s1 = cancel (backup_do_cow_gate _ _ ?s2) =>
    change s1 with (cancel s2) end.
  apply gate_cancel.
Qed.

Lemma resume_cow_cancel i r s :
  resume_cow i r (cancel s) = cancel (resume_cow i r s).
Proof.
  unfold resume_cow. simpl. destruct (st_frames s !! i) as [f|]; [|done].
  destruct (cow_at f); try done.
  - apply gate_cancel.
  - unfold backup_do_cow_read_done. destruct (io_ret r <? 0); [done|].
    by destruct (buffer_is_zero _ _).
  - unfold backup_do_cow_write_done. destruct (io_ret r <? 0); [done|].
    match goal with |- backup_do_cow_loop ?i ?f ?s1 = cancel (backup_do_cow_loop _ _ ?s2) =>
      change s1 with (cancel s2) end.
    apply loop_cancel.
Qed.

End BlockBackupOrder.

(** * Facts about the bitmap, the asserts and the progress of backup.c *)
Module BackupBits.
Import Backup BackupFacts.

(** *** One bit of one word *)
Lemma v_land_pow2 v b :
  0 <= b -> Z.land v (2 ^ b) = if Z.testbit v b then 2 ^ b else 0.
Proof.
  intros Hb. apply Z.bits_inj'. intros n Hn.
  rewrite Z.land_spec, Z.pow2_bits_eqb by done.
  destruct (Z.testbit v b) eqn:Hv.
  - rewrite Z.pow2_bits_eqb by done.
    destruct (Z.eqb_spec b n) as [<-|]; [by rewrite Hv|apply andb_false_r].
  - rewrite Z.bits_0.
    destruct (Z.eqb_spec b n) as [<-|]; [by rewrite Hv|apply andb_false_r].
Qed.

Lemma v_mask_testbit v b :
  0 <= b -> negb (Z.land v (Z.shiftl 1 b) =? 0) = Z.testbit v b.
Proof.
  intros Hb. rewrite Z.shiftl_1_l, v_land_pow2 by done.
  destruct (Z.testbit v b); [|done].
  pose proof (Z.pow_pos_nonneg 2 b ltac:(lia) Hb).
  by destruct (Z.eqb_spec (2 ^ b) 0); [lia|].
Qed.

Lemma v_set_testbit v b n :
  0 <= b -> 0 <= n ->
  Z.testbit (Z.lor v (Z.shiftl 1 b)) n = Z.testbit v n || (b =? n).
Proof.
  intros Hb Hn. by rewrite Z.lor_spec, Z.shiftl_1_l, Z.pow2_bits_eqb.
Qed.

Lemma v_clear_testbit v b n :
  0 <= b -> 0 <= n < 64 ->
  Z.testbit (Z.land v (to_uint64 (Z.lnot (Z.shiftl 1 b)))) n
  = Z.testbit v n && negb (b =? n).
Proof.
  intros Hb Hn. unfold to_uint64.
  rewrite Z.land_spec, Z.mod_pow2_bits_low by lia.
  by rewrite Z.lnot_spec, Z.shiftl_1_l, Z.pow2_bits_eqb by lia.
Qed.

Lemma v_bit_range c : 0 <= c mod BITS_PER_LONG < 64.
Proof. apply Z.mod_pos_bound. reflexivity. Qed.

Lemma v_split c :
  c = BITS_PER_LONG * (c / BITS_PER_LONG) + c mod BITS_PER_LONG.
Proof. apply Z.div_mod. discriminate. Qed.

(** *** get and set *)
Lemma v_get_some j c b :
  backup_get_bitmap j c = Some b ->
  0 <= c / BITS_PER_LONG < bitmap_size j
  /\ exists val, bitmap j !! Z.to_nat (c / BITS_PER_LONG) = Some val
                 /\ b = Z.testbit val (c mod BITS_PER_LONG).
Proof.
  unfold backup_get_bitmap.
  destruct (Z.leb_spec 0 (c / BITS_PER_LONG)); simpl; [|done].
  destruct (Z.ltb_spec (c / BITS_PER_LONG) (bitmap_size j)); [|done].
  destruct (bitmap j !! _) as [val|]; [|done].
  intros [= <-]. split; [lia|]. exists val. split; [done|].
  apply v_mask_testbit, v_bit_range.
Qed.

Lemma v_get_word j c val :
  0 <= c / BITS_PER_LONG < bitmap_size j ->
  bitmap j !! Z.to_nat (c / BITS_PER_LONG) = Some val ->
  backup_get_bitmap j c = Some (Z.testbit val (c mod BITS_PER_LONG)).
Proof.
  intros Hr Hl. unfold backup_get_bitmap.
  destruct (Z.leb_spec 0 (c / BITS_PER_LONG)); simpl; [|lia].
  destruct (Z.ltb_spec (c / BITS_PER_LONG) (bitmap_size j)); [|lia].
  rewrite Hl. f_equal. apply v_mask_testbit, v_bit_range.
Qed.

Lemma v_set_word j c d val :
  0 <= c / BITS_PER_LONG < bitmap_size j ->
  bitmap j !! Z.to_nat (c / BITS_PER_LONG) = Some val ->
  backup_set_bitmap j c d
  = Some (<[Z.to_nat (c / BITS_PER_LONG) :=
              if d then Z.lor val (Z.shiftl 1 (c mod BITS_PER_LONG))
              else Z.land val
                     (to_uint64 (Z.lnot (Z.shiftl 1 (c mod BITS_PER_LONG))))]>
            (bitmap j)).
Proof.
  intros Hr Hl. unfold backup_set_bitmap.
  destruct (Z.leb_spec 0 (c / BITS_PER_LONG)); simpl; [|lia].
  destruct (Z.ltb_spec (c / BITS_PER_LONG) (bitmap_size j)); [|lia].
  by rewrite Hl.
Qed.

Lemma v_word j c :
  bitmap_wf j -> 0 <= c / BITS_PER_LONG < bitmap_size j ->
  exists val, bitmap j !! Z.to_nat (c / BITS_PER_LONG) = Some val.
Proof.
  intros Hwf Hr. apply lookup_lt_is_Some_2. rewrite Hwf. lia.
Qed.

Lemma v_out_of_range j c d :
  ~ 0 <= c / BITS_PER_LONG < bitmap_size j ->
  backup_get_bitmap j c = None /\ backup_set_bitmap j c d = None.
Proof.
  intros Hr. unfold backup_get_bitmap, backup_set_bitmap.
  destruct (Z.leb_spec 0 (c / BITS_PER_LONG)); simpl; [|done].
  by destruct (Z.ltb_spec (c / BITS_PER_LONG) (bitmap_size j)); [lia|].
Qed.

(** The bit written is read back, every other bit is as before. *)
Lemma v_set_get j c d c' :
  bitmap_wf j ->
  0 <= c / BITS_PER_LONG < bitmap_size j ->
  0 <= c' / BITS_PER_LONG < bitmap_size j ->
  exists bm,
    backup_set_bitmap j c d = Some bm
    /\ length bm = length (bitmap j)
    /\ backup_get_bitmap (set_bitmap bm j) c'
       = if c' =? c then Some d else backup_get_bitmap j c'.
Proof.
  intros Hwf Hc Hc'.
  destruct (v_word j c Hwf Hc) as (val & Hl).
  destruct (v_word j c' Hwf Hc') as (val' & Hl').
  pose proof (lookup_lt_Some _ _ _ Hl) as Hlen.
  pose proof (v_bit_range c) as Hb. pose proof (v_bit_range c') as Hb'.
  eexists. split; [by apply v_set_word|]. split; [by rewrite length_insert|].
  rewrite (v_get_word j c' val') by done.
  destruct (Z.eq_dec (c' / BITS_PER_LONG) (c / BITS_PER_LONG)) as [Hi|Hi].
  - rewrite Hi in Hl'. assert (val' = val) as -> by congruence.
    erewrite v_get_word;
      [|done|simpl; rewrite Hi; by apply list_lookup_insert_eq].
    destruct (Z.eqb_spec c' c) as [->|Hne]; f_equal.
    + destruct d.
      * rewrite v_set_testbit by lia. rewrite Z.eqb_refl. apply orb_true_r.
      * rewrite v_clear_testbit by lia. rewrite Z.eqb_refl. apply andb_false_r.
    + assert (c mod BITS_PER_LONG <> c' mod BITS_PER_LONG) as Hbit.
      { intros E. apply Hne. rewrite (v_split c), (v_split c'). lia. }
      destruct d.
      * rewrite v_set_testbit by lia.
        destruct (Z.eqb_spec (c mod BITS_PER_LONG) (c' mod BITS_PER_LONG));
          [done|apply orb_false_r].
      * rewrite v_clear_testbit by lia.
        destruct (Z.eqb_spec (c mod BITS_PER_LONG) (c' mod BITS_PER_LONG));
          [done|apply andb_true_r].
  - erewrite v_get_word; [|done|simpl; rewrite list_lookup_insert_ne; [done|lia]].
    destruct (Z.eqb_spec c' c) as [->|]; [done|done].
Qed.

(** A set bit survives the marking of any cluster. *)
Lemma v_marked_stays j c bm c' :
  backup_set_bitmap j c true = Some bm ->
  backup_get_bitmap j c' = Some true ->
  backup_get_bitmap (set_bitmap bm j) c' = Some true.
Proof.
  intros Hs Hg.
  destruct (v_get_some j c' true Hg) as (Hr' & val' & Hl' & Hb').
  unfold backup_set_bitmap in Hs.
  destruct (Z.leb_spec 0 (c / BITS_PER_LONG)); simpl in Hs; [|done].
  destruct (Z.ltb_spec (c / BITS_PER_LONG) (bitmap_size j)); [|done].
  destruct (bitmap j !! Z.to_nat (c / BITS_PER_LONG)) as [val|] eqn:Hl; [|done].
  injection Hs as <-.
  pose proof (lookup_lt_Some _ _ _ Hl) as Hlen.
  pose proof (v_bit_range c) as Hb. pose proof (v_bit_range c') as Hbr.
  destruct (Z.eq_dec (c' / BITS_PER_LONG) (c / BITS_PER_LONG)) as [Hi|Hi].
  - rewrite Hi in Hl'. assert (val' = val) as -> by congruence.
    erewrite v_get_word;
      [|done|simpl; rewrite Hi; by apply list_lookup_insert_eq].
    f_equal. rewrite v_set_testbit by lia. by rewrite <- Hb'.
  - erewrite v_get_word; [|done|simpl; rewrite list_lookup_insert_ne; [done|lia]].
    by rewrite <- Hb'.
Qed.

(** *** What the sweep's own code keeps *)
Lemma v_kept_refl s : kept s s.
Proof. by repeat split. Qed.

Lemma v_kept_trans s1 s2 s3 : kept s1 s2 -> kept s2 s3 -> kept s1 s3.
Proof.
  intros (A1 & A2 & A3 & A4 & A5 & A6) (B1 & B2 & B3 & B4 & B5 & B6).
  unfold kept. by rewrite B1, B2, B3, B4, B5, B6.
Qed.

Lemma v_read_sectors_app l l' :
  read_sectors (l ++ l') = read_sectors l ++ read_sectors l'.
Proof. apply flat_map_app. Qed.

Ltac kept_tac :=
  unfold kept; simpl; rewrite ?v_read_sectors_app; simpl;
  rewrite ?app_nil_r; by repeat split.

Lemma v_complete_kept s : kept s (backup_run_complete s).
Proof. unfold backup_run_complete. kept_tac. Qed.

Lemma v_exit_kept s : kept s (backup_run_exit s).
Proof.
  unfold backup_run_exit. destruct (existsb _ _); [kept_tac|].
  apply v_complete_kept.
Qed.

Lemma v_run_loop_kept s : kept s (backup_run_loop s).
Proof.
  unfold backup_run_loop. destruct (_ <? _); [|apply v_exit_kept].
  destruct (common_cancelled _).
  - eapply v_kept_trans; [|apply v_exit_kept]. kept_tac.
  - destruct (negb _); kept_tac.
Qed.

Lemma v_next_kept s : kept s (backup_run_next s).
Proof.
  unfold backup_run_next. eapply v_kept_trans; [|apply v_run_loop_kept].
  kept_tac.
Qed.

Lemma v_cow_done_kept ret s : kept s (backup_run_cow_done ret s).
Proof.
  unfold backup_run_cow_done. destruct (ret <? 0).
  - eapply v_kept_trans; [|apply v_exit_kept]. kept_tac.
  - eapply v_kept_trans; [|apply v_next_kept]. kept_tac.
Qed.

Lemma v_resume_kept i s : kept s (backup_run_resume i s).
Proof.
  unfold backup_run_resume. destruct (run_at _); try apply v_kept_refl.
  destruct (Nat.eqb _ _); [|apply v_kept_refl].
  destruct (returned s i); [apply v_cow_done_kept|apply v_kept_refl].
Qed.

(** *** Where the sweep stands *)
Lemma v_exit_at s :
  run_at (st_run (backup_run_exit s)) <> RunSleeping
  /\ run_start (st_run (backup_run_exit s)) = run_start (st_run s).
Proof.
  unfold backup_run_exit, backup_run_complete.
  by destruct (existsb _ _).
Qed.

Lemma v_run_loop_at s :
  run_start (st_run (backup_run_loop s)) = run_start (st_run s)
  /\ (run_at (st_run (backup_run_loop s)) = RunSleeping ->
      run_start (st_run s) < run_end (st_run s)).
Proof.
  unfold backup_run_loop.
  destruct (Z.ltb_spec (run_start (st_run s)) (run_end (st_run s))).
  - destruct (common_cancelled _).
    + destruct (v_exit_at (set_run_ret (-1) s)) as [E1 E2]. by rewrite E2.
    + by destruct (negb _).
  - destruct (v_exit_at s) as [E1 E2]. by rewrite E2.
Qed.

Lemma v_fits_core_kept E s s' :
  kept s s' -> run_start (st_run s') = run_start (st_run s) ->
  fits_core E s -> fits_core E s'.
Proof.
  intros (K1 & K2 & K3 & K4 & K5 & _) Hs (F1 & F2 & F3 & F4 & F5 & F6).
  unfold fits_core, bitmap_wf in *. by rewrite K1, K2, K3, K4, K5, Hs.
Qed.

Lemma v_exit_fits E s : fits_core E s -> fits E (backup_run_exit s).
Proof.
  intros H. destruct (v_exit_at s) as [E1 E2]. split; [|done].
  eapply v_fits_core_kept; [apply v_exit_kept|done|done].
Qed.

Lemma v_run_loop_fits E s : fits_core E s -> fits E (backup_run_loop s).
Proof.
  intros H. destruct (v_run_loop_at s) as [E1 E2]. split.
  - eapply v_fits_core_kept; [apply v_run_loop_kept|done|done].
  - intros Hat. rewrite E1. destruct H as (_ & _ & _ & <- & _). auto.
Qed.

Lemma v_next_fits E s : fits_core E s -> fits E (backup_run_next s).
Proof.
  intros (F1 & F2 & F3 & F4 & F5 & F6). unfold backup_run_next.
  apply v_run_loop_fits. unfold fits_core, bitmap_wf in *. simpl.
  repeat split; auto. lia.
Qed.

Lemma v_cow_done_fits E ret s :
  fits_core E s -> fits E (backup_run_cow_done ret s).
Proof.
  intros H. unfold backup_run_cow_done. destruct (ret <? 0).
  - apply v_exit_fits. exact H.
  - apply v_next_fits. exact H.
Qed.

Lemma v_resume_fits E i s : fits E s -> fits E (backup_run_resume i s).
Proof.
  intros H. unfold backup_run_resume. destruct (run_at _); try exact H.
  destruct (Nat.eqb _ _); [|exact H].
  destruct (returned s i); [|exact H]. apply v_cow_done_fits, H.
Qed.

(** *** The asserts inside backup_do_cow *)
Lemma v_in_range E j c :
  bitmap_wf j -> E <= BITS_PER_LONG * bitmap_size j -> 0 <= c < E ->
  0 <= c / BITS_PER_LONG < bitmap_size j.
Proof.
  intros _ HE Hc. split; [apply Z.div_pos; [lia|reflexivity]|].
  apply Z.div_lt_upper_bound; [reflexivity|]. lia.
Qed.

Lemma v_out_fits E i f s :
  fits_core E s -> fits_core E (backup_do_cow_out i f s).
Proof.
  intros (F1 & F2 & F3 & F4 & F5 & F6). unfold backup_do_cow_out.
  repeat split; auto. simpl. apply Forall_insert; [done|].
  intros H. by destruct H.
Qed.

Lemma v_loop_fits E k i f s :
  fits_core E s ->
  (k <> 0%nat -> Z.of_nat k <= cow_end f - cow_start f) ->
  0 <= cow_start f -> cow_end f <= E ->
  fits_core E (backup_do_cow_loop k i f s).
Proof.
  intros Hs. revert f. induction k as [|k IH]; intros f Hk H0 HE; simpl.
  - by apply v_out_fits.
  - specialize (Hk ltac:(done)).
    pose proof Hs as (F1 & F2 & F3 & F4 & F5 & F6).
    assert (0 <= cow_start f / BITS_PER_LONG < bitmap_size (st_job s)) as Hr.
    { apply (v_in_range E); [done|done|lia]. }
    destruct (v_set_get (st_job s) (cow_start f) true (cow_start f) F2 Hr Hr)
      as (bm & S1 & S2 & _).
    destruct (v_word _ _ F2 Hr) as (val & Hl).
    rewrite (v_get_word _ _ _ Hr Hl), S1.
    destruct (Z.testbit val _).
    + apply IH; simpl; lia.
    + unfold fits_core, bitmap_wf in *. simpl. rewrite S2.
      repeat split; auto. apply Forall_insert; [done|]. intros _. by split.
Qed.

Lemma v_continue_fits E i f s :
  fits_core E s -> 0 <= cow_start f -> cow_end f <= E ->
  fits_core E (backup_do_cow_continue i f s).
Proof.
  intros Hs H0 HE. unfold backup_do_cow_continue.
  apply v_loop_fits; try done. lia.
Qed.

Lemma v_do_cow_fits E sector_num nb_sectors s :
  fits_core E s ->
  0 <= sector_num / BACKUP_BLOCKS_PER_CLUSTER ->
  (sector_num + nb_sectors + BACKUP_BLOCKS_PER_CLUSTER - 1)
  / BACKUP_BLOCKS_PER_CLUSTER <= E ->
  fits_core E (backup_do_cow (length (st_frames s)) sector_num nb_sectors s).
Proof.
  intros (F1 & F2 & F3 & F4 & F5 & F6) H0 HE. unfold backup_do_cow.
  apply v_continue_fits; simpl; try done.
  unfold fits_core, bitmap_wf in *. simpl. repeat split; auto.
  apply Forall_app. split; [done|]. constructor; [|done].
  intros _. by split.
Qed.

Lemma v_resume_cow_fits E i r s :
  fits_core E s -> fits_core E (resume_cow i r s).
Proof.
  intros Hs. unfold resume_cow.
  destruct (st_frames s !! i) as [f|] eqn:Hl; [|exact Hs].
  pose proof Hs as (F1 & F2 & F3 & F4 & F5 & F6).
  pose proof F6 as Fall. rewrite Forall_lookup in F6. specialize (F6 i f Hl).
  assert (forall s1, st_aborted s1 = st_aborted s ->
            bitmap (st_job s1) = bitmap (st_job s) ->
            bitmap_size (st_job s1) = bitmap_size (st_job s) ->
            st_run s1 = st_run s -> st_frames s1 = st_frames s ->
            fits_core E s1) as Hsame.
  { intros s1 A1 A2 A3 A4 A5. unfold fits_core, bitmap_wf in *.
    rewrite A1, A2, A3, A4, A5. by repeat split. }
  destruct (cow_at f) eqn:Hpc; [| |exact Hs].
  - destruct (F6 ltac:(congruence)) as [G1 G2]. unfold backup_do_cow_read_done.
    destruct (io_ret r <? 0); [by apply v_out_fits|].
    destruct (negb _).
    + assert (fits_core E
                (set_job (set_sectors_read
                            (to_uint64 (sectors_read (st_job s)
                                        + BACKUP_BLOCKS_PER_CLUSTER))
                            (st_job s)) s)) as (H1 & H2 & H3 & H4 & H5 & H6)
        by (by apply Hsame).
      unfold fits_core, bitmap_wf in *. simpl in *. repeat split; auto.
      apply Forall_insert; [done|]. intros _. by split.
    + apply v_continue_fits; simpl; [by apply Hsame|lia|done].
  - destruct (F6 ltac:(congruence)) as [G1 G2]. unfold backup_do_cow_write_done.
    destruct (io_ret r <? 0); [by apply v_out_fits|].
    apply v_continue_fits; simpl; [done|lia|done].
Qed.

Lemma v_cluster_of_sector c :
  0 <= c ->
  c * BACKUP_BLOCKS_PER_CLUSTER / BACKUP_BLOCKS_PER_CLUSTER = c
  /\ (c * BACKUP_BLOCKS_PER_CLUSTER + 1 + BACKUP_BLOCKS_PER_CLUSTER - 1)
     / BACKUP_BLOCKS_PER_CLUSTER = c + 1.
Proof.
  intros Hc. change BACKUP_BLOCKS_PER_CLUSTER with 128. split.
  - apply Z.div_mul. discriminate.
  - replace (c * 128 + 1 + 128 - 1) with ((c + 1) * 128) by lia.
    apply Z.div_mul. discriminate.
Qed.

Lemma v_fits_run_eq E s s' :
  st_run s' = st_run s -> fits_core E s' -> fits E s -> fits E s'.
Proof. intros Hr Hc [_ H]. split; [done|]. by rewrite Hr. Qed.

Lemma v_fits_step len s a :
  in_device len a -> fits (clusters len) s -> fits (clusters len) (step s a).
Proof.
  intros Ha Hs. pose proof Hs as [Hc Hsl].
  pose proof Hc as (F1 & F2 & F3 & F4 & F5 & F6).
  assert (forall sn nb, 0 <= sn -> 0 <= nb ->
            sn + nb <= len / BDRV_SECTOR_SIZE ->
            fits (clusters len)
              (backup_do_cow (length (st_frames s)) sn nb s)) as Hguest.
  { intros sn nb H1 H2 H3.
    eapply v_fits_run_eq; [apply v_do_cow_run| |exact Hs].
    apply v_do_cow_fits; [done|apply Z.div_pos; [lia|reflexivity]|].
    unfold clusters. apply Z.div_le_mono; [reflexivity|lia]. }
  unfold step. rewrite F1.
  destruct a as [|v|sn nb|sn nb|i r|].
  - done.
  - done.
  - destruct Ha as (H1 & H2 & H3). unfold hook. simpl.
    destruct (run_at (st_run s)); try exact Hs; by apply Hguest.
  - destruct Ha as (H1 & H2 & H3). unfold hook. simpl.
    destruct (run_at (st_run s)); try exact Hs; by apply Hguest.
  - apply v_resume_fits.
    eapply v_fits_run_eq; [apply v_resume_cow_run| |exact Hs].
    by apply v_resume_cow_fits.
  - destruct (run_at (st_run s)) eqn:Hat; try exact Hs.
    + specialize (Hsl eq_refl). unfold backup_run_wake.
      destruct (common_cancelled _); [by apply v_exit_fits|].
      assert (0 <= run_start (st_run s) / BITS_PER_LONG
              < bitmap_size (st_job s)) as Hr
        by (apply (v_in_range (clusters len)); [done|done|lia]).
      destruct (v_word _ _ F2 Hr) as (val & Hl).
      rewrite (v_get_word _ _ _ Hr Hl).
      destruct (Z.testbit val _); [by apply v_next_fits|].
      apply v_resume_fits. unfold bdrv_co_backup.
      destruct (v_cluster_of_sector (run_start (st_run s)) F5) as [C1 C2].
      split; [|rewrite v_do_cow_run; simpl; discriminate].
      match goal with |- fits_core _ (backup_do_cow _ ?a ?b ?s1) =>
        apply (v_do_cow_fits (clusters len) a b s1) end.
      * done.
      * rewrite C1. done.
      * rewrite C2. lia.
    + destruct (existsb _ _); [exact Hs|]. split; [|simpl; discriminate].
      eapply v_fits_core_kept; [apply v_complete_kept|done|done].
Qed.

Lemma v_fits_run len s acts :
  Forall (in_device len) acts -> fits (clusters len) s ->
  fits (clusters len) (run s acts).
Proof.
  revert s. induction acts as [|a acts IH]; intros s Ha Hs; simpl; [done|].
  inversion Ha; subst. apply IH; [done|]. by apply v_fits_step.
Qed.

Lemma v_bitmap_size_enough T :
  0 <= T ->
  (T + BACKUP_BLOCKS_PER_CLUSTER - 1) / BACKUP_BLOCKS_PER_CLUSTER
  <= BITS_PER_LONG
     * ((T + BACKUP_BLOCKS_PER_CLUSTER * BITS_PER_LONG - 1)
        / (BACKUP_BLOCKS_PER_CLUSTER * BITS_PER_LONG)).
Proof.
  intros HT. change BACKUP_BLOCKS_PER_CLUSTER with 128.
  change BITS_PER_LONG with 64. change (128 * 64) with 8192.
  pose proof (Z.div_mod (T + 128 - 1) 128 ltac:(lia)).
  pose proof (Z.mod_pos_bound (T + 128 - 1) 128 ltac:(lia)).
  pose proof (Z.div_mod (T + 8192 - 1) 8192 ltac:(lia)).
  pose proof (Z.mod_pos_bound (T + 8192 - 1) 8192 ltac:(lia)).
  lia.
Qed.

Lemma v_fits_start len speed s :
  backup_start len speed = Some s -> 0 <= len < 2 ^ 52 ->
  fits (clusters len) s.
Proof.
  unfold backup_start. destruct (speed <? 0); [done|]. intros [= <-] Hlen.
  unfold backup_run. apply v_run_loop_fits.
  assert (0 <= len / BDRV_SECTOR_SIZE < 2 ^ 43) as HT.
  { change BDRV_SECTOR_SIZE with 512. split; [apply Z.div_pos; lia|].
    apply Z.div_lt_upper_bound; lia. }
  set (T := len / BDRV_SECTOR_SIZE) in *.
  set (n := (T + BACKUP_BLOCKS_PER_CLUSTER * BITS_PER_LONG - 1)
            / (BACKUP_BLOCKS_PER_CLUSTER * BITS_PER_LONG)).
  assert (0 <= n < 2 ^ 31) as Hn.
  { subst n. change (BACKUP_BLOCKS_PER_CLUSTER * BITS_PER_LONG) with 8192.
    split; [apply Z.div_pos; lia|]. apply Z.div_lt_upper_bound; lia. }
  assert (to_int n = n) as Hint.
  { unfold to_int. rewrite Z.mod_small; lia. }
  unfold fits_core, bitmap_wf. simpl. rewrite Hint, length_replicate.
  split; [done|]. split; [done|]. split.
  { apply v_bitmap_size_enough. lia. }
  by repeat split.
Qed.

(** *** A request past the end of the bitmap *)
Lemma v_loop_abort k i f s :
  k <> 0%nat ->
  ~ 0 <= cow_start f / BITS_PER_LONG < bitmap_size (st_job s) ->
  backup_do_cow_loop k i f s = abort s.
Proof.
  intros Hk Hr. destruct k as [|k]; [done|]. simpl.
  by destruct (v_out_of_range (st_job s) (cow_start f) true Hr) as [-> _].
Qed.

(** *** Every cluster is read at most once *)
Lemma v_get_ext j j' c :
  bitmap j' = bitmap j -> bitmap_size j' = bitmap_size j ->
  backup_get_bitmap j' c = backup_get_bitmap j c.
Proof. unfold backup_get_bitmap. by intros -> ->. Qed.

Lemma v_reads_same s s' :
  bitmap (st_job s') = bitmap (st_job s) ->
  bitmap_size (st_job s') = bitmap_size (st_job s) ->
  read_sectors (st_trace s') = read_sectors (st_trace s) ->
  reads_marked s -> reads_marked s'.
Proof.
  intros B1 B2 T [H1 H2]. unfold reads_marked. rewrite T. split; [done|].
  intros sector Hin. destruct (H2 sector Hin) as (c & -> & Hc).
  exists c. split; [done|]. by rewrite (v_get_ext (st_job s)).
Qed.

Lemma v_reads_kept s s' : kept s s' -> reads_marked s -> reads_marked s'.
Proof. intros (K1 & K2 & _ & _ & _ & K6). by apply v_reads_same. Qed.

Lemma v_loop_reads k i f s :
  reads_marked s -> reads_marked (backup_do_cow_loop k i f s).
Proof.
  revert f. induction k as [|k IH]; intros f Hs; simpl.
  - by apply (v_reads_same s).
  - destruct (backup_get_bitmap (st_job s) (cow_start f)) as [[]|] eqn:Hg;
      [by apply IH| |by apply (v_reads_same s)].
    destruct (backup_set_bitmap (st_job s) (cow_start f) true) as [bm|] eqn:Hset;
      [|by apply (v_reads_same s)].
    destruct Hs as [H1 H2]. unfold reads_marked. simpl.
    rewrite v_read_sectors_app. simpl. split.
    + apply NoDup_app. split; [done|]. split; [|apply NoDup_singleton].
      intros x Hx Hx'. apply list_elem_of_In in Hx.
      apply list_elem_of_In in Hx'. destruct Hx' as [<-|[]].
      destruct (H2 _ Hx) as (c & Hc & Hm).
      assert (c = cow_start f) as ->.
      { change BACKUP_BLOCKS_PER_CLUSTER with 128 in Hc. lia. }
      congruence.
    + intros sector Hin. apply in_app_or in Hin. destruct Hin as [Hin|Hin].
      * destruct (H2 sector Hin) as (c & -> & Hm). exists c.
        split; [done|]. by apply (v_marked_stays _ (cow_start f)).
      * destruct Hin as [<-|[]]. exists (cow_start f). split; [done|].
        by apply v_set_then_get.
Qed.

Lemma v_do_cow_reads i sector_num nb_sectors s :
  reads_marked s -> reads_marked (backup_do_cow i sector_num nb_sectors s).
Proof.
  intros Hs. unfold backup_do_cow, backup_do_cow_continue.
  apply v_loop_reads. apply (v_reads_same s); simpl; try done.
  rewrite v_read_sectors_app. simpl. by rewrite app_nil_r.
Qed.

Lemma v_resume_cow_reads i r s :
  reads_marked s -> reads_marked (resume_cow i r s).
Proof.
  intros Hs. unfold resume_cow. destruct (_ !! _) as [f|]; [|done].
  destruct (cow_at f); [| |done].
  - unfold backup_do_cow_read_done.
    destruct (io_ret r <? 0); [by apply (v_reads_same s)|].
    destruct (negb _).
    + apply (v_reads_same s); simpl; try done.
      rewrite v_read_sectors_app. simpl. by rewrite app_nil_r.
    + unfold backup_do_cow_continue. apply v_loop_reads.
      by apply (v_reads_same s).
  - unfold backup_do_cow_write_done.
    destruct (io_ret r <? 0); [by apply (v_reads_same s)|].
    unfold backup_do_cow_continue. by apply v_loop_reads.
Qed.

Lemma v_reads_step s a : reads_marked s -> reads_marked (step s a).
Proof.
  intros Hs. unfold step. destruct (st_aborted s); [done|].
  destruct a as [|v|sn nb|sn nb|i r|].
  - by apply (v_reads_same s).
  - by apply (v_reads_same s).
  - unfold hook. simpl. destruct (run_at _); try done;
      by apply v_do_cow_reads.
  - unfold hook. simpl. destruct (run_at _); try done;
      by apply v_do_cow_reads.
  - eapply v_reads_kept; [apply v_resume_kept|]. by apply v_resume_cow_reads.
  - destruct (run_at _); try done.
    + unfold backup_run_wake. destruct (common_cancelled _).
      * eapply v_reads_kept; [apply v_exit_kept|]. by apply (v_reads_same s).
      * destruct (backup_get_bitmap _ _) as [[]|].
        -- eapply v_reads_kept; [apply v_next_kept|done].
        -- eapply v_reads_kept; [apply v_resume_kept|].
           unfold bdrv_co_backup. apply v_do_cow_reads.
           by apply (v_reads_same s).
        -- by apply (v_reads_same s).
    + destruct (existsb _ _); [done|].
      eapply v_reads_kept; [apply v_complete_kept|done].
Qed.

Lemma v_reads_run s acts : reads_marked s -> reads_marked (run s acts).
Proof.
  revert s. induction acts as [|a acts IH]; intros s Hs; simpl; [done|].
  by apply IH, v_reads_step.
Qed.

Lemma v_reads_start len speed s :
  backup_start len speed = Some s -> reads_marked s.
Proof.
  unfold backup_start. destruct (speed <? 0); [done|]. intros [= <-].
  unfold backup_run. eapply v_reads_kept; [apply v_run_loop_kept|].
  split; simpl; [apply NoDup_nil_2|]. intros sector [].
Qed.

(** *** Progress is published by the sweep alone *)
Lemma v_cow_kept_refl s : cow_kept s s.
Proof. by repeat split. Qed.

Lemma v_cow_kept_trans s1 s2 s3 :
  cow_kept s1 s2 -> cow_kept s2 s3 -> cow_kept s1 s3.
Proof.
  intros (A1 & A2 & A3 & A4) (B1 & B2 & B3 & B4).
  unfold cow_kept. by rewrite B1, B2, B3, B4.
Qed.

Lemma v_loop_cow_kept k i f s : cow_kept s (backup_do_cow_loop k i f s).
Proof.
  revert f. induction k as [|k IH]; intros f; simpl; [by repeat split|].
  destruct (backup_get_bitmap _ _) as [[]|]; [apply IH| |by repeat split].
  destruct (backup_set_bitmap _ _ _); by repeat split.
Qed.

Lemma v_do_cow_cow_kept i sector_num nb_sectors s :
  cow_kept s (backup_do_cow i sector_num nb_sectors s).
Proof.
  unfold backup_do_cow, backup_do_cow_continue.
  eapply v_cow_kept_trans; [|apply v_loop_cow_kept]. by repeat split.
Qed.

Lemma v_resume_cow_cow_kept i r s : cow_kept s (resume_cow i r s).
Proof.
  unfold resume_cow. destruct (_ !! _) as [f|]; [|apply v_cow_kept_refl].
  destruct (cow_at f); [| |apply v_cow_kept_refl].
  - unfold backup_do_cow_read_done.
    destruct (io_ret r <? 0); [by repeat split|].
    destruct (negb _); [by repeat split|].
    unfold backup_do_cow_continue.
    eapply v_cow_kept_trans; [|apply v_loop_cow_kept]. by repeat split.
  - unfold backup_do_cow_write_done.
    destruct (io_ret r <? 0); [by repeat split|].
    unfold backup_do_cow_continue. apply v_loop_cow_kept.
Qed.

Lemma v_exit_offset s :
  common_offset (st_job (backup_run_exit s)) = common_offset (st_job s).
Proof. by rewrite v_exit_job. Qed.

Lemma v_run_loop_offset s :
  common_offset (st_job (backup_run_loop s)) = common_offset (st_job s).
Proof.
  unfold backup_run_loop. destruct (_ <? _); [|apply v_exit_offset].
  destruct (common_cancelled _); [by rewrite v_exit_offset|].
  by destruct (negb _).
Qed.

Lemma v_next_offset s :
  common_offset (st_job (backup_run_next s)) = common_offset (st_job s).
Proof. unfold backup_run_next. by rewrite v_run_loop_offset. Qed.

Lemma v_cow_done_offset ret s :
  common_offset (st_job (backup_run_cow_done ret s))
  = if ret <? 0 then common_offset (st_job s)
    else to_int64 (common_offset (st_job s) + BACKUP_CLUSTER_SIZE).
Proof.
  unfold backup_run_cow_done. destruct (ret <? 0).
  - by rewrite v_exit_offset.
  - by rewrite v_next_offset.
Qed.

Lemma v_resume_offset i s :
  common_offset (st_job (backup_run_resume i s))
  = match run_at (st_run s), returned s i with
    | RunInCow j, Some ret =>
        if Nat.eqb j i && (0 <=? ret)
        then to_int64 (common_offset (st_job s) + BACKUP_CLUSTER_SIZE)
        else common_offset (st_job s)
    | _, _ => common_offset (st_job s)
    end.
Proof.
  unfold backup_run_resume. destruct (run_at _) as [|j| |]; try done.
  destruct (Nat.eqb j i); simpl; [|by destruct (returned s i)].
  destruct (returned s i) as [ret|]; [|done].
  rewrite v_cow_done_offset.
  destruct (Z.ltb_spec ret 0), (Z.leb_spec 0 ret); try lia; done.
Qed.

Lemma v_do_cow_pending i sector_num nb_sectors s :
  i = length (st_frames s) -> st_aborted s = false ->
  st_aborted (backup_do_cow i sector_num nb_sectors s) = true
  \/ returned (backup_do_cow i sector_num nb_sectors s) i = None
  \/ returned (backup_do_cow i sector_num nb_sectors s) i = Some 0.
Proof.
  intros -> Hab. unfold backup_do_cow, backup_do_cow_continue.
  match goal with |- context [backup_do_cow_loop ?kk ?ii ?ff ?s1] =>
    assert (forall k f', cow_ret f' = 0 ->
              (length (st_frames s) < length (st_frames s1))%nat ->
              st_aborted (backup_do_cow_loop k ii f' s1) = true
              \/ returned (backup_do_cow_loop k ii f' s1) ii = None
              \/ returned (backup_do_cow_loop k ii f' s1) ii = Some 0) as H
  end.
  { intros k. induction k as [|k IH]; intros f' Hret Hlen; simpl.
    - right. right. unfold returned, backup_do_cow_out. simpl.
      rewrite list_lookup_insert_eq by done. simpl. by rewrite Hret.
    - destruct (backup_get_bitmap _ _) as [[]|]; [by apply IH| |by left].
      destruct (backup_set_bitmap _ _ _); [|by left].
      right. left. unfold returned. simpl.
      by rewrite list_lookup_insert_eq. }
  apply H; [done|]. simpl. rewrite length_app. simpl. lia.
Qed.

(** *** The drain of the variant *)
Lemma v_not_pending_returned l :
  existsb pending l = false -> Forall (fun f => cow_at f = CowReturned) l.
Proof.
  induction l as [|f l IH]; simpl; [constructor|].
  intros H. apply orb_false_iff in H. destruct H as [H1 H2].
  constructor; [|by apply IH]. unfold pending in H1. by destruct (cow_at f).
Qed.

Lemma v_drained_exit s : drained (backup_run_exit s).
Proof.
  unfold backup_run_exit, backup_run_complete.
  destruct (existsb _ _) eqn:Hex; intros H; simpl in *; [discriminate|].
  by apply v_not_pending_returned.
Qed.

Lemma v_drained_loop s : drained (backup_run_loop s).
Proof.
  unfold backup_run_loop. destruct (_ <? _); [|apply v_drained_exit].
  destruct (common_cancelled _); [apply v_drained_exit|].
  destruct (negb _); intros H; simpl in H; discriminate.
Qed.

Lemma v_drained_cow_done ret s : drained (backup_run_cow_done ret s).
Proof.
  unfold backup_run_cow_done, backup_run_next.
  destruct (ret <? 0); auto using v_drained_exit, v_drained_loop.
Qed.

Lemma v_drained_resume i s : drained s -> drained (backup_run_resume i s).
Proof.
  intros H. unfold backup_run_resume. destruct (run_at _); auto.
  destruct (Nat.eqb _ _); auto. destruct (returned s i); auto.
  apply v_drained_cow_done.
Qed.

Lemma v_all_returned_resume_cow i r s :
  all_returned s -> resume_cow i r s = s.
Proof.
  intros H. unfold resume_cow.
  destruct (st_frames s !! i) as [f|] eqn:Hl; [|done].
  unfold all_returned in H. rewrite Forall_lookup in H.
  by rewrite (H i f Hl).
Qed.

Lemma v_drained_run_eq s s' :
  st_run s' = st_run s -> run_at (st_run s) <> RunCompleted -> drained s'.
Proof. intros Hr Hat H. rewrite Hr in H. by destruct Hat. Qed.

Lemma v_drained_step s a : drained s -> drained (step s a).
Proof.
  intros Hd. unfold step. destruct (st_aborted s); [done|].
  destruct a as [|v|sn nb|sn nb|i r|]; try exact Hd.
  - unfold hook. simpl. destruct (run_at (st_run s)) eqn:Hat; try exact Hd;
      (eapply v_drained_run_eq; [apply v_do_cow_run|by rewrite Hat]).
  - unfold hook. simpl. destruct (run_at (st_run s)) eqn:Hat; try exact Hd;
      (eapply v_drained_run_eq; [apply v_do_cow_run|by rewrite Hat]).
  - apply v_drained_resume. intros Hat. rewrite v_resume_cow_run in Hat.
    rewrite v_all_returned_resume_cow by auto. auto.
  - destruct (run_at (st_run s)) eqn:Hat; try exact Hd.
    + unfold backup_run_wake. destruct (common_cancelled _);
        [apply v_drained_exit|].
      destruct (backup_get_bitmap _ _) as [[]|].
      * unfold backup_run_next. apply v_drained_loop.
      * apply v_drained_resume. unfold bdrv_co_backup.
        eapply v_drained_run_eq; [apply v_do_cow_run|]. simpl. discriminate.
      * intros H. simpl in H. congruence.
    + destruct (existsb _ _) eqn:Hex; [exact Hd|].
      intros _. by apply v_not_pending_returned.
Qed.

Lemma v_drained_run s acts : drained s -> drained (run s acts).
Proof.
  revert s. induction acts as [|a acts IH]; intros s H; simpl; [done|].
  by apply IH, v_drained_step.
Qed.

Lemma v_drained_start len speed s : backup_start len speed = Some s -> drained s.
Proof.
  unfold backup_start. destruct (speed <? 0); [done|]. intros [= <-].
  apply v_drained_loop.
Qed.

Lemma v_frozen_refl s : frozen s s.
Proof. by repeat split. Qed.

Lemma v_frozen_trans s1 s2 s3 : frozen s1 s2 -> frozen s2 s3 -> frozen s1 s3.
Proof.
  intros (A1 & A2 & A3 & A4 & A5 & A6) (B1 & B2 & B3 & B4 & B5 & B6).
  unfold frozen. by rewrite B1, B2, B3, B4, B5, B6.
Qed.

Lemma v_completed_step s a :
  drained s -> run_at (st_run s) = RunCompleted -> frozen s (step s a).
Proof.
  intros Hd Hat. unfold step. destruct (st_aborted s); [apply v_frozen_refl|].
  destruct a as [|v|sn nb|sn nb|i r|]; try (by repeat split).
  - unfold hook. rewrite Hat. apply v_frozen_refl.
  - unfold hook. rewrite Hat. apply v_frozen_refl.
  - rewrite v_all_returned_resume_cow by auto.
    unfold backup_run_resume. rewrite Hat. apply v_frozen_refl.
  - rewrite Hat. apply v_frozen_refl.
Qed.

Lemma v_completed_run s acts :
  drained s -> run_at (st_run s) = RunCompleted -> frozen s (run s acts).
Proof.
  revert s. induction acts as [|a acts IH]; intros s Hd Hat; simpl;
    [apply v_frozen_refl|].
  pose proof (v_completed_step s a Hd Hat) as Hf.
  eapply v_frozen_trans; [exact Hf|]. apply IH; [by apply v_drained_step|].
  destruct Hf as (_ & _ & -> & _). done.
Qed.

End BackupBits.

(** * The claims *)

(** C1, counterexample: in backup.c a guest write to a one-sector device
    makes the call set bit 0 while its source read is still pending, before
    any target write exists; when the read then fails with EIO the call
    returns the error and the bit stays set. *)
Lemma variant_bit_set_before_io :
  let s0 := Scenarios.variant_start Scenarios.one_sector in
  let s1 := Backup.run s0 [AGuestWrite 0 1] in
  let s2 := Backup.step s1 (AResume 0 Scenarios.io_error) in
  Backup.backup_start Scenarios.one_sector 0 = Some s0
  /\ Backup.backup_get_bitmap (Backup.st_job s0) 0 = Some false
  /\ Backup.backup_get_bitmap (Backup.st_job s1) 0 = Some true
  /\ Backup.st_trace s1 = [EvSleep; EvCow 0 0 1 false; EvRead 0 0 128]
  /\ Backup.returned s2 0 = Some (- EIO)
  /\ Backup.backup_get_bitmap (Backup.st_job s2) 0 = Some true.
Proof. vm_compute. repeat split; reflexivity. Qed.

(** C1 (amended).  In block/backup.c a bit that is set stays set; a bit goes
    from 0 to 1 only in the step in which the target write (or write-zeroes)
    of that cluster, issued earlier by the same [backup_do_cow] call, returns
    success; and a call whose source read or target write for a cluster fails
    returns that error with the cluster's bit clear before and after.  In
    backup.c the bit is set when the source read is issued, and a failing read
    or write returns the error and leaves the bitmap as it is. *)
Theorem bitmap_bit_lifecycle
    (len speed : Z) (src tgt : BlockdevOnError) (iostatus : bool)
    (s0 : BlockBackup.State) (acts : list action) (a : action)
    (vs : Backup.State) (vi : nat) (vf : Backup.Frame) (vr : io_result) :
  BlockBackup.backup_start len speed src tgt iostatus = Some s0 ->
  Backup.st_aborted vs = false ->
  Backup.st_frames vs !! vi = Some vf ->
  Backup.cow_at vf <> Backup.CowReturned ->
  io_ret vr < 0 ->
  let bit s c :=
    BlockBackup.hbitmap_get (BlockBackup.bitmap (BlockBackup.st_job s)) c in
  let s := BlockBackup.run s0 acts in
  let s' := BlockBackup.step s a in
  (forall c acts', bit s c = true -> bit (BlockBackup.run s acts') c = true)
  /\ (forall c, bit s c = false -> bit s' c = true ->
        exists i f r,
          a = AResume i r /\ BlockBackup.st_frames s !! i = Some f
          /\ BlockBackup.cow_at f = BlockBackup.CowWriting
          /\ BlockBackup.cow_start f = c /\ 0 <= io_ret r
          /\ BlockBackup.target_write_issued s i f)
  /\ (forall i f r,
        a = AResume i r -> BlockBackup.st_frames s !! i = Some f ->
        BlockBackup.copying f -> io_ret r < 0 ->
        bit s (BlockBackup.cow_start f) = false
        /\ bit s' (BlockBackup.cow_start f) = false
        /\ BlockBackup.returned s' i = Some (io_ret r))
  /\ (forall k i f,
        Backup.backup_get_bitmap (Backup.st_job vs) (Backup.cow_start f)
        = Some false ->
        let vs' := Backup.backup_do_cow_loop (S k) i f vs in
        Backup.backup_get_bitmap (Backup.st_job vs') (Backup.cow_start f)
        = Some true
        /\ Backup.st_trace vs'
           = Backup.st_trace vs
             ++ [EvRead i
                   (Backup.cow_start f * Backup.BACKUP_BLOCKS_PER_CLUSTER)
                   Backup.BACKUP_BLOCKS_PER_CLUSTER])
  /\ (let vs' := Backup.step vs (AResume vi vr) in
      Backup.bitmap (Backup.st_job vs') = Backup.bitmap (Backup.st_job vs)
      /\ Backup.returned vs' vi = Some (io_ret vr)).
Proof.
  intros Hstart Hab Hvl Hvpc Hvr bit s s'.
  assert (BlockBackup.reg_inv s) as Hreg.
  { apply BlockBackupFacts.run_ok.
    eapply BlockBackupFacts.backup_start_ok, Hstart. }
  destruct (BlockBackupFacts.bitmap_main s a Hreg) as (_ & M2 & M3).
  split; [|split; [|split; [|split]]].
  - intros c acts' Hc. by apply BlockBackupFacts.bitmap_monotone.
  - exact M2.
  - exact M3.
  - intros k i f Hget vs'.
    destruct (BackupFacts.v_bit_before_read k i f vs Hget) as (V1 & V2 & _).
    by split.
  - by apply BackupFacts.v_failure_keeps_bit with (f := vf).
Qed.

(** C1, on a one-sector device: the step that sets bit 0 is the return of
    the write of call 0, and the variant keeps the bit over a failed read. *)
Lemma bitmap_bit_lifecycle_witness :
  let s := BlockBackup.run
             (Scenarios.main_start Scenarios.one_sector
                BLOCKDEV_ON_ERROR_IGNORE)
             [AWake; AResume 0 Scenarios.io_pattern] in
  let vs := Backup.run (Scenarios.variant_start Scenarios.one_sector)
              [AGuestWrite 0 1] in
  (exists i f r,
     AResume 0 Scenarios.io_done = AResume i r
     /\ BlockBackup.st_frames s !! i = Some f
     /\ BlockBackup.cow_at f = BlockBackup.CowWriting
     /\ BlockBackup.cow_start f = 0 /\ 0 <= io_ret r
     /\ BlockBackup.target_write_issued s i f)
  /\ Backup.returned (Backup.step vs (AResume 0 Scenarios.io_error)) 0%nat
     = Some (- EIO).
Proof.
  intros s vs.
  pose proof (bitmap_bit_lifecycle Scenarios.one_sector 0
                BLOCKDEV_ON_ERROR_IGNORE BLOCKDEV_ON_ERROR_IGNORE false
                (Scenarios.main_start Scenarios.one_sector
                   BLOCKDEV_ON_ERROR_IGNORE)
                [AWake; AResume 0 Scenarios.io_pattern]
                (AResume 0 Scenarios.io_done)
                vs 0%nat (Backup.mkFrame 0 1 0 1 0 Backup.CowReading)
                Scenarios.io_error
                eq_refl eq_refl eq_refl ltac:(discriminate) ltac:(vm_compute; reflexivity))
    as (_ & H2 & _ & _ & _ & H5).
  split; [apply (H2 0); reflexivity|exact H5].
Defined.




(** C3, counterexample: on a one-cluster device backup.c reads a cluster of
    zeroes, issues no target operation for it and completes with 0. *)
Lemma variant_skips_zero_cluster :
  let s0 := Scenarios.variant_start BACKUP_CLUSTER_SIZE in
  Backup.backup_start BACKUP_CLUSTER_SIZE 0 = Some s0
  /\ buffer_is_zero (io_data Scenarios.io_zeroes) BACKUP_CLUSTER_SIZE = true
  /\ Backup.st_trace (Backup.run s0 [AWake; AResume 0 Scenarios.io_zeroes])
     = [EvSleep; EvCow 0 0 1 false; EvRead 0 0 128; EvCompleted 0].
Proof. vm_compute. repeat split; reflexivity. Qed.

(** C3 (amended).  In block/backup.c, when the source read of a cluster
    returns success, the call issues exactly one target operation for the
    cluster's [n] sectors: a write-zeroes if the first [n * 512] bytes of the
    buffer are all zero, a write of these bytes otherwise.  In backup.c a
    cluster whose 65536 bytes are all zero gets no target operation, any other
    gets one write of 128 sectors. *)
Theorem zero_cluster_target_operation
    (s : BlockBackup.State) (i : nat) (f : BlockBackup.Frame) (r : io_result)
    (vs : Backup.State) (vi : nat) (vf : Backup.Frame) (vr : io_result) :
  BlockBackup.st_frames s !! i = Some f ->
  BlockBackup.cow_at f = BlockBackup.CowReading ->
  0 <= io_ret r ->
  Backup.st_aborted vs = false ->
  Backup.st_frames vs !! vi = Some vf ->
  Backup.cow_at vf = Backup.CowReading ->
  0 <= io_ret vr ->
  let sector := BlockBackup.cow_start f * BACKUP_SECTORS_PER_CLUSTER in
  let n := BlockBackup.cow_n f in
  let len := n * BDRV_SECTOR_SIZE in
  let s' := BlockBackup.step s (AResume i r) in
  let vs' := Backup.step vs (AResume vi vr) in
  (buffer_is_zero (io_data r) len = true
   <-> forall k b, (k < Z.to_nat len)%nat -> io_data r !! k = Some b ->
         b = x00)
  /\ BlockBackup.st_trace s'
     = BlockBackup.st_trace s
       ++ [if buffer_is_zero (io_data r) len
           then EvWriteZeroes i sector n
           else EvWrite i sector n (take (Z.to_nat len) (io_data r))]
  /\ (if buffer_is_zero (io_data vr) BACKUP_CLUSTER_SIZE
      then Backup.grows Backup.no_target_op vs vs'
      else Backup.st_trace vs'
           = Backup.st_trace vs
             ++ [EvWrite vi
                   (Backup.cow_start vf * Backup.BACKUP_BLOCKS_PER_CLUSTER)
                   Backup.BACKUP_BLOCKS_PER_CLUSTER
                   (take (Z.to_nat BACKUP_CLUSTER_SIZE) (io_data vr))]).
Proof.
  intros Hl Hpc Hr Hab Hvl Hvpc Hvr sector n len s' vs'.
  split; [apply BlockBackupFacts.buffer_is_zero_spec|]. split.
  - by destruct (BlockBackupFacts.zero_detect_main s i f r Hl Hpc Hr).
  - by apply BackupFacts.v_zero_detect.
Qed.

(** C3, on a one-sector device: a sector of zeroes is written with
    write-zeroes. *)
Lemma zero_cluster_target_operation_witness :
  let s := BlockBackup.run
             (Scenarios.main_start Scenarios.one_sector
                BLOCKDEV_ON_ERROR_REPORT) [AWake] in
  BlockBackup.st_trace (BlockBackup.step s (AResume 0 Scenarios.io_zeroes))
  = BlockBackup.st_trace s ++ [EvWriteZeroes 0 0 1].
Proof.
  intros s.
  pose proof (zero_cluster_target_operation s 0%nat
                (BlockBackup.mkFrame 0 1 true None 0 1 1 1 0
                   (BlockBackup.mkReq 0 0 1) BlockBackup.CowReading)
                Scenarios.io_zeroes
                (Backup.run (Scenarios.variant_start Scenarios.one_sector)
                   [AWake])
                0%nat (Backup.mkFrame 0 1 0 1 0 Backup.CowReading)
                Scenarios.io_zeroes
                eq_refl eq_refl ltac:(vm_compute; discriminate)
                eq_refl eq_refl eq_refl ltac:(vm_compute; discriminate))
    as (_ & H & _).
  exact H.
Defined.

(** C4.  In both files the hook before a guest write starts one
    [backup_do_cow] call for exactly the write's sector range (in
    block/backup.c without a place for the failing side) and the call's return
    value is the hook's; nothing but source and target I/O is issued on behalf
    of such a call, in particular the error policy is never asked, and a
    failing read or write makes the call return that error. *)
Theorem interceptor_forwards_do_cow
    (len speed : Z) (src tgt : BlockdevOnError) (iostatus : bool)
    (s0 : BlockBackup.State) (acts : list action)
    (sector_num nb_sectors : Z)
    (vlen vspeed : Z) (vs0 : Backup.State) (vacts : list action) :
  BlockBackup.backup_start len speed src tgt iostatus = Some s0 ->
  Backup.backup_start vlen vspeed = Some vs0 ->
  let s := BlockBackup.run s0 acts in
  let vs := Backup.run vs0 vacts in
  (BlockBackup.st_before_write s = true ->
   let i := length (BlockBackup.st_frames s) in
   let s' := BlockBackup.step s (AGuestWrite sector_num nb_sectors) in
   s' = BlockBackup.backup_before_write_notify
          (BlockBackup.mkTracked sector_num nb_sectors) s
   /\ s' = BlockBackup.backup_do_cow i sector_num nb_sectors false s
   /\ (exists f, BlockBackup.st_frames s' !! i = Some f
                 /\ BlockBackup.cow_sector_num f = sector_num
                 /\ BlockBackup.cow_nb_sectors f = nb_sectors
                 /\ BlockBackup.cow_has_error_is_read f = false)
   /\ exists l, BlockBackup.st_trace s'
                = BlockBackup.st_trace s
                  ++ EvCow i sector_num nb_sectors false :: l
                /\ Forall BlockBackup.io_event l)
  /\ (forall i f r,
        BlockBackup.st_frames s !! i = Some f ->
        BlockBackup.cow_has_error_is_read f = false ->
        let s' := BlockBackup.step s (AResume i r) in
        (exists l, BlockBackup.st_trace s' = BlockBackup.st_trace s ++ l
                   /\ Forall BlockBackup.io_event l)
        /\ (exists f', BlockBackup.st_frames s' !! i = Some f'
                       /\ BlockBackup.static_eq f f'
                       /\ BlockBackup.cow_error_is_read f' = None)
        /\ (BlockBackup.copying f -> io_ret r < 0 ->
            BlockBackup.returned s' i = Some (io_ret r)))
  /\ (Backup.st_aborted vs = false ->
      Backup.run_at (Backup.st_run vs) <> Backup.RunCompleted ->
      let i := length (Backup.st_frames vs) in
      let vs' := Backup.step vs (AGuestWrite sector_num nb_sectors) in
      vs' = Backup.backup_before_write sector_num nb_sectors vs
      /\ vs' = Backup.backup_do_cow i sector_num nb_sectors vs
      /\ (exists f, Backup.st_frames vs' !! i = Some f
                    /\ Backup.cow_sector_num f = sector_num
                    /\ Backup.cow_nb_sectors f = nb_sectors)
      /\ exists l, Backup.st_trace vs'
                   = Backup.st_trace vs
                     ++ EvCow i sector_num nb_sectors false :: l
                   /\ Forall Backup.cluster_read l)
  /\ (forall i f r,
        Backup.st_aborted vs = false ->
        Backup.st_frames vs !! i = Some f ->
        Backup.cow_at f <> Backup.CowReturned -> io_ret r < 0 ->
        Backup.returned (Backup.step vs (AResume i r)) i = Some (io_ret r))
  /\ Forall Backup.whole_cluster (Backup.st_trace vs).
Proof.
  intros Hstart Hvstart s vs.
  assert (BlockBackup.inv s) as Hinv.
  { apply BlockBackupFacts.inv_run.
    eapply BlockBackupFacts.inv_backup_start, Hstart. }
  split; [|split; [|split; [|split]]].
  - intros Hbw i s'.
    destruct (BlockBackupFacts.intercept_main s sector_num nb_sectors Hbw)
      as (H1 & H2 & H3).
    split; [|by split]. subst s'. simpl. by rewrite Hbw.
  - intros i f r Hl Hf. by apply BlockBackupFacts.intercept_resume_main.
  - intros Hab Hat i vs'.
    destruct (BackupFacts.v_hooks vs sector_num nb_sectors Hab Hat)
      as (_ & _ & _ & H).
    destruct (BackupFacts.v_do_cow_frame sector_num nb_sectors vs) as (F1 & F2).
    subst vs'. rewrite H. by repeat split.
  - intros i f r Hab Hl Hpc Hr.
    by destruct (BackupFacts.v_failure_keeps_bit vs i f r Hab Hl Hpc Hr).
  - by eapply BackupFacts.v_trace_whole_cluster.
Qed.

(** C4, on a one-sector device: the guest write of sector 0 while the sweep
    sleeps starts call 0 for sectors [0, 1). *)
Lemma interceptor_forwards_do_cow_witness :
  let s := Scenarios.main_start Scenarios.one_sector BLOCKDEV_ON_ERROR_REPORT in
  BlockBackup.step s (AGuestWrite 0 1)
  = BlockBackup.backup_do_cow 0 0 1 false s.
Proof.
  intros s.
  pose proof (interceptor_forwards_do_cow Scenarios.one_sector 0
                BLOCKDEV_ON_ERROR_REPORT BLOCKDEV_ON_ERROR_REPORT false
                s [] 0 1 Scenarios.one_sector 0
                (Scenarios.variant_start Scenarios.one_sector) []
                eq_refl eq_refl) as (H & _).
  by destruct (H eq_refl) as (_ & H2 & _).
Defined.




(** C6, counterexample: in backup.c the sweep's read of the only cluster
    fails with EIO; no error policy is asked, nothing is retried, and the job
    completes with [-EIO]. *)
Lemma variant_sweep_ignores_policy :
  let s0 := Scenarios.variant_start Scenarios.one_sector in
  let s := Backup.run s0 [AWake; AResume 0 Scenarios.io_error] in
  Backup.backup_start Scenarios.one_sector 0 = Some s0
  /\ Backup.st_trace s
     = [EvSleep; EvCow 0 0 1 false; EvRead 0 0 128; EvCompleted (- EIO)]
  /\ Backup.run_at (Backup.st_run s) = Backup.RunCompleted
  /\ Backup.run_start (Backup.st_run s) = 0.
Proof. vm_compute. repeat split; reflexivity. Qed.

(** C6 (amended).  In block/backup.c, whenever a [backup_do_cow] call of the
    sweep returns a negative value, the sweep asks the error policy with the
    failing side the call stored and the negated value; if the answer is
    report it leaves the loop holding that value, otherwise it stays at the
    same cluster and, unless cancelled, sleeps and then calls [backup_do_cow]
    for that cluster again.  For a failed read the side is the source, for a
    failed write the target.  In backup.c there is no error policy: a negative
    value ends the sweep at once with that value. *)
Theorem sweep_error_policy
    (len speed : Z) (src tgt : BlockdevOnError) (iostatus : bool)
    (s0 : BlockBackup.State) (acts : list action)
    (i : nat) (f : BlockBackup.Frame) (r : io_result)
    (vlen vspeed : Z) (vs0 : Backup.State) (vacts : list action)
    (vs : Backup.State) (vret : Z) :
  BlockBackup.backup_start len speed src tgt iostatus = Some s0 ->
  let s := BlockBackup.run s0 acts in
  BlockBackup.run_at (BlockBackup.st_run s) = BlockBackup.RunInCow i ->
  BlockBackup.st_frames s !! i = Some f ->
  BlockBackup.copying f ->
  io_ret r < 0 ->
  Backup.backup_start vlen vspeed = Some vs0 ->
  vret < 0 ->
  (forall s1 j f1,
     BlockBackup.run_at (BlockBackup.st_run s1) = BlockBackup.RunInCow j ->
     BlockBackup.st_frames s1 !! j = Some f1 ->
     BlockBackup.cow_at f1 = BlockBackup.CowReturned ->
     BlockBackup.cow_ret f1 < 0 ->
     BlockBackup.run_start (BlockBackup.st_run s1)
     < BlockBackup.run_end (BlockBackup.st_run s1) ->
     let read := default false (BlockBackup.cow_error_is_read f1) in
     let error := to_int (- BlockBackup.cow_ret f1) in
     let act := BlockBackup.backup_error_action (BlockBackup.st_job s1) read
                  error in
     let s1' := BlockBackup.backup_run_resume j s1 in
     (exists l, BlockBackup.st_trace s1'
                = BlockBackup.st_trace s1 ++ EvErrorAction read error :: l
                /\ Forall BlockBackup.sweep_event l)
     /\ BlockBackup.run_ret (BlockBackup.st_run s1') = BlockBackup.cow_ret f1
     /\ BlockBackup.run_start (BlockBackup.st_run s1')
        = BlockBackup.run_start (BlockBackup.st_run s1)
     /\ (act = BDRV_ACTION_REPORT -> BlockBackup.exited s1')
     /\ (act <> BDRV_ACTION_REPORT ->
         BlockBackup.common_cancelled (BlockBackup.st_job s1) = false ->
         BlockBackup.run_at (BlockBackup.st_run s1') = BlockBackup.RunSleeping))
  /\ (let read :=
        match BlockBackup.cow_at f with
        | BlockBackup.CowReading => true
        | _ => false
        end in
      let error := to_int (- io_ret r) in
      let act := BlockBackup.backup_error_action (BlockBackup.st_job s) read
                   error in
      let s' := BlockBackup.step s (AResume i r) in
      (exists l, BlockBackup.st_trace s'
                 = BlockBackup.st_trace s ++ EvErrorAction read error :: l
                 /\ Forall BlockBackup.sweep_event l)
      /\ BlockBackup.run_ret (BlockBackup.st_run s') = io_ret r
      /\ BlockBackup.run_start (BlockBackup.st_run s')
         = BlockBackup.run_start (BlockBackup.st_run s)
      /\ (act = BDRV_ACTION_REPORT -> BlockBackup.exited s')
      /\ (act <> BDRV_ACTION_REPORT ->
          BlockBackup.common_cancelled (BlockBackup.st_job s) = false ->
          BlockBackup.run_at (BlockBackup.st_run s') = BlockBackup.RunSleeping
          /\ exists l,
               BlockBackup.st_trace (BlockBackup.step s' AWake)
               = BlockBackup.st_trace s'
                 ++ EvCow (length (BlockBackup.st_frames s'))
                      (BlockBackup.run_start (BlockBackup.st_run s)
                       * BACKUP_SECTORS_PER_CLUSTER) 1 true :: l))
  /\ (Backup.backup_run_cow_done vret vs
      = Backup.backup_run_exit (Backup.set_run_ret vret vs)
      /\ Backup.exited (Backup.backup_run_cow_done vret vs)
      /\ Backup.run_ret (Backup.st_run (Backup.backup_run_cow_done vret vs))
         = vret)
  /\ Forall Backup.whole_cluster (Backup.st_trace (Backup.run vs0 vacts)).
Proof.
  intros Hstart s Hat Hl Hc Hr Hvstart Hvret.
  assert (BlockBackup.inv s) as Hinv.
  { apply BlockBackupFacts.inv_run.
    eapply BlockBackupFacts.inv_backup_start, Hstart. }
  split; [|split; [|split]].
  - intros s1 j f1 H1 H2 H3 H4 H5.
    destruct (BlockBackupFacts.sweep_error_general s1 j f1 H1 H2 H3 H4 H5)
      as (G1 & G2 & G3 & _ & G5 & G6).
    split; [exact G1|]. split; [exact G2|]. split; [exact G3|].
    split; [exact G5|]. intros Ha Hcan. by destruct (G6 Ha Hcan).
  - by apply BlockBackupFacts.sweep_io_error.
  - by apply BackupFacts.v_error_ends_sweep.
  - by eapply BackupFacts.v_trace_whole_cluster.
Qed.

(** C6, on a one-sector device with policy ignore: the sweep's failed read
    is put to the policy as a source error EIO, and the sweep sleeps again at
    cluster 0. *)
Lemma sweep_error_policy_witness :
  let s := BlockBackup.run
             (Scenarios.main_start Scenarios.one_sector
                BLOCKDEV_ON_ERROR_IGNORE) [AWake] in
  let s' := BlockBackup.step s (AResume 0 Scenarios.io_error) in
  (exists l, BlockBackup.st_trace s'
             = BlockBackup.st_trace s ++ EvErrorAction true EIO :: l
             /\ Forall BlockBackup.sweep_event l)
  /\ BlockBackup.run_start (BlockBackup.st_run s') = 0.
Proof.
  intros s s'.
  pose proof (sweep_error_policy Scenarios.one_sector 0
                BLOCKDEV_ON_ERROR_IGNORE BLOCKDEV_ON_ERROR_IGNORE false
                (Scenarios.main_start Scenarios.one_sector
                   BLOCKDEV_ON_ERROR_IGNORE) [AWake] 0%nat
                (BlockBackup.mkFrame 0 1 true None 0 1 1 1 0
                   (BlockBackup.mkReq 0 0 1) BlockBackup.CowReading)
                Scenarios.io_error
                Scenarios.one_sector 0
                (Scenarios.variant_start Scenarios.one_sector) []
                (Scenarios.variant_start Scenarios.one_sector) (- EIO)
                eq_refl eq_refl eq_refl (or_introl eq_refl)
                ltac:(vm_compute; reflexivity) eq_refl
                ltac:(vm_compute; reflexivity))
    as (_ & (H1 & _ & H3 & _) & _).
  split; [exact H1|exact H3].
Defined.



(** C8, counterexample: backup.c copies the only cluster of a one-sector
    device and publishes 65536 bytes of progress for a length of 512. *)
Lemma variant_offset_exceeds_len :
  let s0 := Scenarios.variant_start Scenarios.one_sector in
  let s := Backup.run s0
             [AWake; AResume 0 Scenarios.io_pattern;
              AResume 0 Scenarios.io_done] in
  Backup.backup_start Scenarios.one_sector 0 = Some s0
  /\ Backup.common_len (Backup.st_job s) = 512
  /\ Backup.common_offset (Backup.st_job s) = 65536
  /\ ~ Backup.common_offset (Backup.st_job s)
       <= Backup.common_len (Backup.st_job s).
Proof. vm_compute. repeat split; try reflexivity. intros H. by apply H. Qed.

(** C8 (amended).  In block/backup.c, on a device that keeps its length
    [len] and with guest writes inside the device, no step decreases [offset],
    and [0 <= offset <= len] in every state.  In backup.c [offset] advances by
    65536 for every cluster the sweep has copied, whatever the cluster's
    size. *)
Theorem offset_monotone_bounded
    (len speed : Z) (src tgt : BlockdevOnError) (iostatus : bool)
    (s0 : BlockBackup.State) (acts : list action) (a : action)
    (vs : Backup.State) (vret : Z) :
  BlockBackup.backup_start len speed src tgt iostatus = Some s0 ->
  0 <= len < 2 ^ 63 ->
  Forall (BlockBackup.acct_ok len) acts ->
  0 <= vret ->
  let s := BlockBackup.run s0 acts in
  let offset s := BlockBackup.common_offset (BlockBackup.st_job s) in
  offset s <= offset (BlockBackup.step s a)
  /\ 0 <= offset s <= BlockBackup.common_len (BlockBackup.st_job s)
  /\ BlockBackup.common_len (BlockBackup.st_job s) = len
  /\ Backup.common_offset (Backup.st_job (Backup.backup_run_cow_done vret vs))
     = to_int64 (Backup.common_offset (Backup.st_job vs) + BACKUP_CLUSTER_SIZE).
Proof.
  intros Hstart Hlen Hacts Hvret s offset.
  assert (BlockBackup.inv s) as Hinv.
  { apply BlockBackupFacts.inv_run.
    eapply BlockBackupFacts.inv_backup_start, Hstart. }
  assert (BlockBackup.acct_inv len s) as Hacct.
  { apply BlockBackupFacts.acct_run_all; auto.
    - eapply BlockBackupFacts.backup_start_ok, Hstart.
    - eapply BlockBackupFacts.acct_backup_start; [exact Hstart|lia]. }
  split; [|split; [|split]].
  - by apply BlockBackupFacts.offset_step with (L := len).
  - apply BlockBackupFacts.offset_bound with (L := len); [done|lia].
  - by destruct Hacct as [(? & _) _].
  - by apply BackupFacts.v_progress.
Qed.

(** C8, on a device of 257 sectors: the return of the write of the short
    last cluster moves [offset] from 0 to 512. *)
Lemma offset_monotone_bounded_witness :
  let s := BlockBackup.run
             (Scenarios.main_start (257 * 512) BLOCKDEV_ON_ERROR_REPORT)
             [AGuestWrite 256 1; AResume 0 Scenarios.io_pattern] in
  BlockBackup.common_offset (BlockBackup.st_job s)
  <= BlockBackup.common_offset
       (BlockBackup.st_job (BlockBackup.step s (AResume 0 Scenarios.io_done)))
  /\ 0 <= BlockBackup.common_offset (BlockBackup.st_job s) <= 257 * 512.
Proof.
  intros s.
  pose proof (offset_monotone_bounded (257 * 512) 0 BLOCKDEV_ON_ERROR_REPORT
                BLOCKDEV_ON_ERROR_REPORT false
                (Scenarios.main_start (257 * 512) BLOCKDEV_ON_ERROR_REPORT)
                [AGuestWrite 256 1; AResume 0 Scenarios.io_pattern]
                (AResume 0 Scenarios.io_done)
                (Scenarios.variant_start Scenarios.one_sector) 0
                eq_refl ltac:(lia)
                ltac:(repeat constructor; vm_compute; discriminate)
                ltac:(lia)) as (H1 & H2 & _).
  split; [exact H1|exact H2].
Defined.

(** C9.  In block/backup.c the bookkeeping of a copied cluster is done by
    the call that copied it, whoever made the call: on the return of its
    successful target write the cluster's bit, clear until then, is set and
    [offset] grows by the cluster's [n * 512] bytes; a call made by the
    interceptor adds [n] to [sectors_read] as well.  So [offset] is 512 times
    the sectors of the clusters whose bit is set, each counted once, and the
    next time the sweep computes its delay it hands the rate limiter the
    [sectors_read] accumulated by all calls. *)
Theorem progress_accounting_in_do_cow
    (len speed : Z) (src tgt : BlockdevOnError) (iostatus : bool)
    (s0 : BlockBackup.State) (acts : list action)
    (i : nat) (f : BlockBackup.Frame) (r : io_result) :
  BlockBackup.backup_start len speed src tgt iostatus = Some s0 ->
  0 <= len < 2 ^ 63 ->
  Forall (BlockBackup.acct_ok len) acts ->
  let s := BlockBackup.run s0 acts in
  BlockBackup.st_frames s !! i = Some f ->
  BlockBackup.cow_at f = BlockBackup.CowWriting ->
  0 <= io_ret r ->
  let s' := BlockBackup.step s (AResume i r) in
  let job s := BlockBackup.st_job s in
  let n := BlockBackup.cow_n f in
  BlockBackup.hbitmap_get (BlockBackup.bitmap (job s)) (BlockBackup.cow_start f)
  = false
  /\ BlockBackup.bitmap (job s')
     = BlockBackup.hbitmap_set (BlockBackup.bitmap (job s))
         (BlockBackup.cow_start f)
  /\ n = MIN BACKUP_SECTORS_PER_CLUSTER
           (len / BDRV_SECTOR_SIZE
            - BlockBackup.cow_start f * BACKUP_SECTORS_PER_CLUSTER)
  /\ BlockBackup.common_offset (job s')
     = BlockBackup.common_offset (job s) + n * BDRV_SECTOR_SIZE
  /\ (BlockBackup.cow_has_error_is_read f = false ->
      BlockBackup.sectors_read (job s')
      = to_uint64 (BlockBackup.sectors_read (job s) + n))
  /\ BlockBackup.common_offset (job s)
     = BDRV_SECTOR_SIZE
       * BlockBackup.copied (BlockBackup.bitmap (job s))
           (BlockBackup.dev_sectors len)
           (Z.to_nat (BlockBackup.dev_clusters len))
  /\ (forall s1,
        BlockBackup.run_start (BlockBackup.st_run s1)
        < BlockBackup.run_end (BlockBackup.st_run s1) ->
        BlockBackup.common_cancelled (job s1) = false ->
        BlockBackup.common_speed (job s1) <> 0 ->
        BlockBackup.st_trace (BlockBackup.backup_run_loop s1)
        = BlockBackup.st_trace s1
          ++ [EvRatelimit (BlockBackup.sectors_read (job s1)); EvSleep]
        /\ BlockBackup.sectors_read (job (BlockBackup.backup_run_loop s1)) = 0).
Proof.
  intros Hstart Hlen Hacts s Hl Hpc Hr s' job n.
  assert (BlockBackup.inv s) as Hinv.
  { apply BlockBackupFacts.inv_run.
    eapply BlockBackupFacts.inv_backup_start, Hstart. }
  pose proof Hinv as (Hreg & Hsw & _).
  assert (BlockBackup.acct_inv len s) as [Hc Hrun].
  { apply BlockBackupFacts.acct_run_all; auto.
    - eapply BlockBackupFacts.backup_start_ok, Hstart.
    - eapply BlockBackupFacts.acct_backup_start; [exact Hstart|lia]. }
  destruct (BlockBackupFacts.publish_main s i f r Hl Hpc Hr) as (P1 & P2 & P3).
  destruct (BlockBackupFacts.frame_at_cluster s i f Hreg Hl) as (_ & A2 & A3);
    [by right|].
  destruct (BlockBackupFacts.a_publish len i f s Hreg Hc Hlen Hl Hpc)
    as (_ & Q2 & _).
  pose proof Hc as (_ & _ & _ & C4 & C5 & _).
  destruct (C5 i f I Hl) as (_ & _ & F3); [congruence|].
  split; [exact A2|]. split; [exact P1|]. split.
  { subst n. rewrite A3, F3 by (by right). done. }
  split.
  { subst job s'. simpl in *. rewrite P2.
    unfold BlockBackup.publish in Q2. simpl in Q2. exact Q2. }
  split.
  { intros Hf. apply P3. by eapply BlockBackupFacts.caller_not_sweep. }
  split; [exact C4|].
  intros s1. apply BlockBackupFacts.ratelimit_main.
Qed.

(** C9, on a device of 257 sectors: the interceptor's copy of the short
    last cluster adds one sector to [sectors_read] and 512 to [offset]. *)
Lemma progress_accounting_in_do_cow_witness :
  let s := BlockBackup.run
             (Scenarios.main_start (257 * 512) BLOCKDEV_ON_ERROR_REPORT)
             [AGuestWrite 256 1; AResume 0 Scenarios.io_pattern] in
  let s' := BlockBackup.step s (AResume 0 Scenarios.io_done) in
  BlockBackup.common_offset (BlockBackup.st_job s')
  = BlockBackup.common_offset (BlockBackup.st_job s) + 1 * BDRV_SECTOR_SIZE
  /\ BlockBackup.sectors_read (BlockBackup.st_job s')
     = to_uint64 (BlockBackup.sectors_read (BlockBackup.st_job s) + 1).
Proof.
  intros s s'.
  pose proof (progress_accounting_in_do_cow (257 * 512) 0
                BLOCKDEV_ON_ERROR_REPORT BLOCKDEV_ON_ERROR_REPORT false
                (Scenarios.main_start (257 * 512) BLOCKDEV_ON_ERROR_REPORT)
                [AGuestWrite 256 1; AResume 0 Scenarios.io_pattern]
                0%nat
                (BlockBackup.mkFrame 256 1 false None 2 3 257 1 0
                   (BlockBackup.mkReq 0 2 3) BlockBackup.CowWriting)
                Scenarios.io_done
                eq_refl ltac:(lia)
                ltac:(repeat constructor; vm_compute; discriminate)
                eq_refl eq_refl ltac:(vm_compute; discriminate))
    as (_ & _ & _ & H4 & H5 & _).
  split; [exact H4|exact (H5 eq_refl)].
Defined.



(** * Further properties of block/backup.c *)

(** X1.  In block/backup.c, in every state the job can reach, two different
    [backup_do_cow] calls that are both waiting for a source read or a target
    write are at different clusters; each has its request in the in-flight
    list, and the two requests do not overlap. *)
Theorem one_copier_per_cluster
    (len speed : Z) (src tgt : BlockdevOnError) (iostatus : bool)
    (s0 : BlockBackup.State) (acts : list action)
    (i j : nat) (fi fj : BlockBackup.Frame) :
  BlockBackup.backup_start len speed src tgt iostatus = Some s0 ->
  let s := BlockBackup.run s0 acts in
  i <> j ->
  BlockBackup.st_frames s !! i = Some fi ->
  BlockBackup.st_frames s !! j = Some fj ->
  BlockBackup.copying fi -> BlockBackup.copying fj ->
  BlockBackup.cow_start fi <> BlockBackup.cow_start fj
  /\ In (BlockBackup.cow_request fi)
       (BlockBackup.inflight_reqs (BlockBackup.st_job s))
  /\ BlockBackup.req_owner (BlockBackup.cow_request fi) = i
  /\ BlockBackup.overlaps
       (BlockBackup.req_start (BlockBackup.cow_request fi))
       (BlockBackup.req_end (BlockBackup.cow_request fi))
       (BlockBackup.cow_request fj) = false.
Proof.
  intros Hstart s Hne Hi Hj Hci Hcj.
  assert (BlockBackup.reg_inv s) as Hreg.
  { apply BlockBackupFacts.run_ok.
    eapply BlockBackupFacts.backup_start_ok, Hstart. }
  split.
  - by apply (BlockBackupFacts.copying_elsewhere s i j fi fj).
  - by apply (BlockBackupSweep.copying_disjoint s i j fi fj).
Qed.

(** X1, on a device of 257 sectors: the sweep reads cluster 0 while a guest
    write makes call 1 read cluster 2. *)
Lemma one_copier_per_cluster_witness :
  let fi := BlockBackup.mkFrame 0 1 true None 0 1 257 128 0
              (BlockBackup.mkReq 0 0 1) BlockBackup.CowReading in
  let fj := BlockBackup.mkFrame 256 1 false None 2 3 257 1 0
              (BlockBackup.mkReq 1 2 3) BlockBackup.CowReading in
  BlockBackup.cow_start fi <> BlockBackup.cow_start fj
  /\ BlockBackup.overlaps 0 1 (BlockBackup.cow_request fj) = false.
Proof.
  intros fi fj.
  pose proof (one_copier_per_cluster (257 * 512) 0 BLOCKDEV_ON_ERROR_REPORT
                BLOCKDEV_ON_ERROR_REPORT false
                (Scenarios.main_start (257 * 512) BLOCKDEV_ON_ERROR_REPORT)
                [AWake; AGuestWrite 256 1] 0%nat 1%nat fi fj
                eq_refl ltac:(discriminate) eq_refl eq_refl
                (or_introl eq_refl) (or_introl eq_refl))
    as (H1 & _ & _ & H4).
  split; [exact H1|exact H4].
Defined.

(** X2.  In block/backup.c a job started on a device of length zero
    completes at once with result 0: no call is made, nothing is read or
    written. *)
Theorem empty_device_completes
    (speed : Z) (src tgt : BlockdevOnError) (iostatus : bool)
    (s0 : BlockBackup.State) :
  BlockBackup.backup_start 0 speed src tgt iostatus = Some s0 ->
  BlockBackup.st_trace s0 = [EvCompleted 0]
  /\ BlockBackup.run_at (BlockBackup.st_run s0) = BlockBackup.RunCompleted
  /\ BlockBackup.st_frames s0 = [].
Proof.
  unfold BlockBackup.backup_start. intros H.
  destruct src, iostatus, (speed <? 0); try discriminate; injection H as <-;
    by repeat split.
Qed.

(** X2, with unlimited speed and the policy report. *)
Lemma empty_device_completes_witness :
  BlockBackup.st_trace (Scenarios.main_start 0 BLOCKDEV_ON_ERROR_REPORT)
  = [EvCompleted 0].
Proof.
  pose proof (empty_device_completes 0 BLOCKDEV_ON_ERROR_REPORT
                BLOCKDEV_ON_ERROR_REPORT false
                (Scenarios.main_start 0 BLOCKDEV_ON_ERROR_REPORT) eq_refl)
    as (H & _).
  exact H.
Defined.

(** X3.  In block/backup.c a [backup_do_cow] call for a range whose clusters
    all have their bit set, entered while no in-flight request overlaps the
    range and the length query succeeds, issues no I/O, leaves bitmap and
    [offset] as they are and returns 0 at once. *)
Theorem copied_range_no_io
    (s : BlockBackup.State) (sector_num nb_sectors : Z) (error_is_read : bool) :
  BlockBackup.wait_for_overlapping_requests (BlockBackup.st_job s)
    (sector_num / BACKUP_SECTORS_PER_CLUSTER)
    (DIV_ROUND_UP (sector_num + nb_sectors) BACKUP_SECTORS_PER_CLUSTER)
  = None ->
  0 <= BlockBackup.st_length s ->
  (forall c,
     sector_num / BACKUP_SECTORS_PER_CLUSTER <= c
     < DIV_ROUND_UP (sector_num + nb_sectors) BACKUP_SECTORS_PER_CLUSTER ->
     BlockBackup.hbitmap_get (BlockBackup.bitmap (BlockBackup.st_job s)) c
     = true) ->
  let i := length (BlockBackup.st_frames s) in
  let s' := BlockBackup.backup_do_cow i sector_num nb_sectors error_is_read s in
  BlockBackup.returned s' i = Some 0
  /\ BlockBackup.st_trace s'
     = BlockBackup.st_trace s ++ [EvCow i sector_num nb_sectors error_is_read]
  /\ BlockBackup.bitmap (BlockBackup.st_job s')
     = BlockBackup.bitmap (BlockBackup.st_job s)
  /\ BlockBackup.common_offset (BlockBackup.st_job s')
     = BlockBackup.common_offset (BlockBackup.st_job s).
Proof. apply BlockBackupSweep.do_cow_copied. Qed.

(** X3, on a one-sector device after the sweep has copied its cluster: a
    guest write of sector 0 would return 0 without I/O. *)
Lemma copied_range_no_io_witness :
  let s := BlockBackup.run
             (Scenarios.main_start Scenarios.one_sector
                BLOCKDEV_ON_ERROR_REPORT)
             [AWake; AResume 0 Scenarios.io_pattern;
              AResume 0 Scenarios.io_done] in
  BlockBackup.returned (BlockBackup.backup_do_cow 1 0 1 false s) 1 = Some 0.
Proof.
  intros s.
  assert (Hbits : forall c, 0 <= c < 1 ->
            BlockBackup.hbitmap_get
              (BlockBackup.bitmap (BlockBackup.st_job s)) c = true).
  { intros c Hc. assert (c = 0) as -> by lia. reflexivity. }
  pose proof (copied_range_no_io s 0 1 false eq_refl
                ltac:(vm_compute; discriminate) Hbits) as (H & _).
  exact H.
Defined.

(** X4.  In block/backup.c, when the job has completed without having been
    cancelled and with a non-negative result, the bit of every cluster of the
    device is set: with C1, the bit of each cluster went from 0 to 1 exactly
    once, on the return of a successful target write.  (A failing length
    query answers with a negated errno.) *)
Theorem completed_sweep_copied_all
    (len speed : Z) (src tgt : BlockdevOnError) (iostatus : bool)
    (s0 : BlockBackup.State) (acts : list action) :
  BlockBackup.backup_start len speed src tgt iostatus = Some s0 ->
  BlockBackup.errno_fits len ->
  Forall BlockBackup.length_fits acts ->
  let s := BlockBackup.run s0 acts in
  BlockBackup.run_at (BlockBackup.st_run s) = BlockBackup.RunCompleted ->
  BlockBackup.common_cancelled (BlockBackup.st_job s) = false ->
  0 <= BlockBackup.run_ret (BlockBackup.st_run s) ->
  forall c,
    0 <= c < DIV_ROUND_UP (len / BDRV_SECTOR_SIZE) BACKUP_SECTORS_PER_CLUSTER ->
    BlockBackup.hbitmap_get (BlockBackup.bitmap (BlockBackup.st_job s)) c
    = true.
Proof.
  intros Hstart Hlen Hacts s Hat Hcan Hret c Hc.
  assert (BlockBackup.sweep_done
            (DIV_ROUND_UP (len / BDRV_SECTOR_SIZE) BACKUP_SECTORS_PER_CLUSTER)
            s) as (_ & He & (_ & H2 & H3) & _).
  { apply BlockBackupSweep.sweep_done_run; [|done|].
    - eapply BlockBackupFacts.inv_backup_start, Hstart.
    - by eapply BlockBackupSweep.sweep_done_backup_start. }
  destruct H3 as [H3|[H3|H3]]; [by right|congruence|lia|].
  apply H2. lia.
Qed.

(** X4, on a one-sector device copied by the sweep. *)
Lemma completed_sweep_copied_all_witness :
  BlockBackup.hbitmap_get
    (BlockBackup.bitmap
       (BlockBackup.st_job
          (BlockBackup.run
             (Scenarios.main_start Scenarios.one_sector
                BLOCKDEV_ON_ERROR_REPORT)
             [AWake; AResume 0 Scenarios.io_pattern;
              AResume 0 Scenarios.io_done]))) 0
  = true.
Proof.
  apply (completed_sweep_copied_all Scenarios.one_sector 0
           BLOCKDEV_ON_ERROR_REPORT BLOCKDEV_ON_ERROR_REPORT false
           (Scenarios.main_start Scenarios.one_sector BLOCKDEV_ON_ERROR_REPORT)
           [AWake; AResume 0 Scenarios.io_pattern; AResume 0 Scenarios.io_done]
           eq_refl ltac:(intros H; vm_compute in H; discriminate)
           ltac:(repeat constructor) eq_refl eq_refl
           ltac:(vm_compute; discriminate) 0 ltac:(vm_compute; split; [discriminate|reflexivity])).
Defined.



(** * Further properties of block/backup.c: waiting, drain, progress *)

(** X6.  In block/backup.c, in every state the job can reach, a
    [backup_do_cow] call that is queued in [wait_for_overlapping_requests]
    waits on another call, and that call is in a source read or target write
    with its request in the in-flight list; the queued call has no request of
    its own and does not move when scheduled; and the step in which the call
    it waits on returns makes it runnable again (no wake-up is lost). *)
Theorem queued_call_is_woken
    (len speed : Z) (src tgt : BlockdevOnError) (iostatus : bool)
    (s0 : BlockBackup.State) (acts : list action)
    (j : nat) (f : BlockBackup.Frame) (on : nat) :
  BlockBackup.backup_start len speed src tgt iostatus = Some s0 ->
  let s := BlockBackup.run s0 acts in
  BlockBackup.st_frames s !! j = Some f ->
  BlockBackup.cow_at f = BlockBackup.CowWaiting on ->
  on <> j
  /\ (exists fo,
        BlockBackup.st_frames s !! on = Some fo /\ BlockBackup.copying fo
        /\ In (BlockBackup.cow_request fo)
             (BlockBackup.inflight_reqs (BlockBackup.st_job s)))
  /\ BlockBackup.no_request s j
  /\ (forall r, BlockBackup.step s (AResume j r) = s)
  /\ (forall r,
        let s' := BlockBackup.step s (AResume on r) in
        is_Some (BlockBackup.returned s' on) ->
        exists f', BlockBackup.st_frames s' !! j = Some f'
                   /\ BlockBackup.cow_at f' = BlockBackup.CowGate).
Proof.
  intros Hstart s Hl Hpc.
  assert (BlockBackup.reg_inv s) as Hreg.
  { apply BlockBackupFacts.run_ok.
    eapply BlockBackupFacts.backup_start_ok, Hstart. }
  assert (BlockBackup.waiters_ok s) as Hw.
  { apply BlockBackupDrain.waiters_run.
    - eapply BlockBackupFacts.backup_start_ok, Hstart.
    - eapply BlockBackupDrain.waiters_backup_start, Hstart. }
  destruct (Hw j f on Hl Hpc) as (Hne & fo & Ho & Hc).
  split; [exact Hne|]. split; [|split; [|split]].
  - exists fo. split; [done|]. split; [done|].
    pose proof (BlockBackupFacts.reg_inv_frame _ _ _ Hreg Ho) as Hok.
    unfold BlockBackup.frame_ok in Hok.
    destruct Hc as [E|E]; rewrite E in Hok;
      by destruct Hok as ((_ & ? & _) & _).
  - pose proof (BlockBackupFacts.reg_inv_frame _ _ _ Hreg Hl) as Hok.
    unfold BlockBackup.frame_ok in Hok. rewrite Hpc in Hok. by destruct Hok.
  - intros r. by apply (BlockBackupDrain.waiting_stays s j f on).
  - intros r. by apply (BlockBackupDrain.return_wakes s on r j f).
Qed.

(** X6, on a one-sector device: a guest write of sector 0 arriving while the
    sweep reads cluster 0 queues on the sweep's call and is runnable again
    when that call's read fails. *)
Lemma queued_call_is_woken_witness :
  let s := BlockBackup.run
             (Scenarios.main_start Scenarios.one_sector
                BLOCKDEV_ON_ERROR_REPORT) [AWake; AGuestWrite 0 1] in
  let s' := BlockBackup.step s (AResume 0 Scenarios.io_error) in
  exists f', BlockBackup.st_frames s' !! 1%nat = Some f'
             /\ BlockBackup.cow_at f' = BlockBackup.CowGate.
Proof.
  intros s s'.
  pose proof (queued_call_is_woken Scenarios.one_sector 0
                BLOCKDEV_ON_ERROR_REPORT BLOCKDEV_ON_ERROR_REPORT false
                (Scenarios.main_start Scenarios.one_sector
                   BLOCKDEV_ON_ERROR_REPORT)
                [AWake; AGuestWrite 0 1] 1%nat
                (BlockBackup.mkFrame 0 1 false None 0 1 0 0 0
                   (BlockBackup.mkReq 1 0 0) (BlockBackup.CowWaiting 0))
                0%nat eq_refl eq_refl eq_refl) as (_ & _ & _ & _ & H).
  apply (H Scenarios.io_error). vm_compute. eauto.
Defined.

(** X7.  In block/backup.c, once [backup_run] has reported completion,
    every [backup_do_cow] call has returned, the in-flight list is empty and
    the notifier is removed; whatever is scheduled afterwards, no I/O is
    issued, no call is started or moved, and bitmap and [offset] stay as they
    are. *)
Theorem completion_is_final
    (len speed : Z) (src tgt : BlockdevOnError) (iostatus : bool)
    (s0 : BlockBackup.State) (acts acts' : list action) :
  BlockBackup.backup_start len speed src tgt iostatus = Some s0 ->
  let s := BlockBackup.run s0 acts in
  BlockBackup.run_at (BlockBackup.st_run s) = BlockBackup.RunCompleted ->
  let s' := BlockBackup.run s acts' in
  Forall (fun f => BlockBackup.cow_at f = BlockBackup.CowReturned)
    (BlockBackup.st_frames s)
  /\ BlockBackup.inflight_reqs (BlockBackup.st_job s) = []
  /\ BlockBackup.st_before_write s = false
  /\ BlockBackup.st_trace s' = BlockBackup.st_trace s
  /\ BlockBackup.st_frames s' = BlockBackup.st_frames s
  /\ BlockBackup.run_at (BlockBackup.st_run s') = BlockBackup.RunCompleted
  /\ BlockBackup.bitmap (BlockBackup.st_job s')
     = BlockBackup.bitmap (BlockBackup.st_job s)
  /\ BlockBackup.common_offset (BlockBackup.st_job s')
     = BlockBackup.common_offset (BlockBackup.st_job s).
Proof.
  intros Hstart s Hat s'.
  assert (BlockBackup.reg_inv s) as Hreg.
  { apply BlockBackupFacts.run_ok.
    eapply BlockBackupFacts.backup_start_ok, Hstart. }
  assert (BlockBackup.drained s) as Hd.
  { apply BlockBackupDrain.drained_run.
    eapply BlockBackupDrain.drained_backup_start, Hstart. }
  pose proof Hd as [D1 D2]. specialize (D2 Hat).
  destruct (BlockBackupDrain.completed_run s acts' Hd Hat)
    as (F1 & F2 & F3 & _ & F5 & F6 & _).
  split; [exact D2|]. split.
  { destruct (BlockBackup.inflight_reqs (BlockBackup.st_job s)) as [|r l] eqn:E;
      [done|].
    destruct (BlockBackupDrain.reg_inv_owner s r Hreg) as (fo & Ho & Hc);
      [rewrite E; by left|].
    unfold BlockBackup.all_returned in D2. rewrite Forall_lookup in D2.
    specialize (D2 _ _ Ho). destruct Hc as [Hc|Hc]; congruence. }
  split; [apply D1; by right|].
  subst s'. rewrite F1, F2, F3, F5, F6. by repeat split.
Qed.

(** X7, on a one-sector device copied by the sweep: a guest write after
    completion changes nothing. *)
Lemma completion_is_final_witness :
  let s := BlockBackup.run
             (Scenarios.main_start Scenarios.one_sector
                BLOCKDEV_ON_ERROR_REPORT)
             [AWake; AResume 0 Scenarios.io_pattern;
              AResume 0 Scenarios.io_done] in
  BlockBackup.st_trace (BlockBackup.run s [AGuestWrite 0 1; AWake])
  = BlockBackup.st_trace s.
Proof.
  intros s.
  pose proof (completion_is_final Scenarios.one_sector 0
                BLOCKDEV_ON_ERROR_REPORT BLOCKDEV_ON_ERROR_REPORT false
                (Scenarios.main_start Scenarios.one_sector
                   BLOCKDEV_ON_ERROR_REPORT)
                [AWake; AResume 0 Scenarios.io_pattern;
                 AResume 0 Scenarios.io_done]
                [AGuestWrite 0 1; AWake] eq_refl eq_refl)
    as (_ & _ & _ & H & _).
  exact H.
Defined.

(** X8.  In block/backup.c, on a device that keeps its length [len] and with
    guest writes inside the device, a job that has completed without having
    been cancelled and with a non-negative result has published all of the
    device as progress: [offset] is [len] rounded down to whole sectors, so
    [offset = len] when [len] is a multiple of 512. *)
Theorem completed_sweep_offset
    (len speed : Z) (src tgt : BlockdevOnError) (iostatus : bool)
    (s0 : BlockBackup.State) (acts : list action) :
  BlockBackup.backup_start len speed src tgt iostatus = Some s0 ->
  0 <= len < 2 ^ 63 ->
  Forall (BlockBackup.acct_ok len) acts ->
  Forall BlockBackup.length_fits acts ->
  let s := BlockBackup.run s0 acts in
  BlockBackup.run_at (BlockBackup.st_run s) = BlockBackup.RunCompleted ->
  BlockBackup.common_cancelled (BlockBackup.st_job s) = false ->
  0 <= BlockBackup.run_ret (BlockBackup.st_run s) ->
  BlockBackup.common_offset (BlockBackup.st_job s)
  = BDRV_SECTOR_SIZE * (len / BDRV_SECTOR_SIZE)
  /\ (len mod BDRV_SECTOR_SIZE = 0 ->
      BlockBackup.common_offset (BlockBackup.st_job s)
      = BlockBackup.common_len (BlockBackup.st_job s)).
Proof.
  intros Hstart Hlen Hacts Hfits s Hat Hcan Hret.
  assert (BlockBackup.acct_inv len s) as [(A1 & _ & _ & A4 & _) _].
  { apply BlockBackupFacts.acct_run_all; auto.
    - eapply BlockBackupFacts.backup_start_ok, Hstart.
    - eapply BlockBackupFacts.acct_backup_start; [exact Hstart|lia]. }
  assert (BlockBackup.sweep_done
            (DIV_ROUND_UP (len / BDRV_SECTOR_SIZE) BACKUP_SECTORS_PER_CLUSTER)
            s) as (_ & He & (_ & H2 & H3) & _).
  { apply BlockBackupSweep.sweep_done_run; [|done|].
    - eapply BlockBackupFacts.inv_backup_start, Hstart.
    - eapply BlockBackupSweep.sweep_done_backup_start; [exact Hstart|].
      intros H. lia. }
  destruct H3 as [H3|[H3|H3]]; [by right|congruence|lia|].
  assert (0 <= len / BDRV_SECTOR_SIZE) as HT
    by (apply Z.div_pos; [lia|reflexivity]).
  assert (BlockBackup.common_offset (BlockBackup.st_job s)
          = BDRV_SECTOR_SIZE * (len / BDRV_SECTOR_SIZE)) as Hoff.
  { rewrite A4. f_equal. unfold BlockBackup.dev_clusters, BlockBackup.dev_sectors.
    rewrite BlockBackupFacts.spc in *.
    pose proof (BlockBackupDrain.div_round_up_ge _ HT).
    pose proof (BlockBackupDrain.div_round_up_nonneg _ HT).
    rewrite BlockBackupDrain.copied_full; [lia|done|lia|].
    intros c Hc. apply H2. lia. }
  split; [exact Hoff|]. intros Hmod. rewrite Hoff, A1.
  pose proof (Z.div_mod len BDRV_SECTOR_SIZE ltac:(discriminate)). lia.
Qed.

(** X8, on a one-sector device copied by the sweep: [offset] is 512. *)
Lemma completed_sweep_offset_witness :
  BlockBackup.common_offset
    (BlockBackup.st_job
       (BlockBackup.run
          (Scenarios.main_start Scenarios.one_sector BLOCKDEV_ON_ERROR_REPORT)
          [AWake; AResume 0 Scenarios.io_pattern;
           AResume 0 Scenarios.io_done]))
  = BDRV_SECTOR_SIZE * (Scenarios.one_sector / BDRV_SECTOR_SIZE).
Proof.
  pose proof (completed_sweep_offset Scenarios.one_sector 0
                BLOCKDEV_ON_ERROR_REPORT BLOCKDEV_ON_ERROR_REPORT false
                (Scenarios.main_start Scenarios.one_sector
                   BLOCKDEV_ON_ERROR_REPORT)
                [AWake; AResume 0 Scenarios.io_pattern;
                 AResume 0 Scenarios.io_done]
                eq_refl ltac:(vm_compute; split; [discriminate|reflexivity])
                ltac:(repeat constructor) ltac:(repeat constructor)
                eq_refl eq_refl ltac:(vm_compute; discriminate)) as (H & _).
  exact H.
Defined.





(** * Further properties of block/backup.c: order of I/O, cancellation *)

(** X16.  In block/backup.c, under any schedule, every target write and
    every write-zeroes comes after a source read of the same sectors by the
    same [backup_do_cow] call: the engine never writes to the target a range
    it has not read from the source. *)
Theorem target_writes_follow_reads
    (len speed : Z) (src tgt : BlockdevOnError) (iostatus : bool)
    (s0 : BlockBackup.State) (acts : list action) :
  BlockBackup.backup_start len speed src tgt iostatus = Some s0 ->
  let t := BlockBackup.st_trace (BlockBackup.run s0 acts) in
  (forall p i sector n data,
     t !! p = Some (EvWrite i sector n data) ->
     In (EvRead i sector n) (take p t))
  /\ (forall p i sector n,
        t !! p = Some (EvWriteZeroes i sector n) ->
        In (EvRead i sector n) (take p t)).
Proof.
  intros Hstart t.
  assert (BlockBackup.writes_follow_reads t) as H.
  { apply BlockBackupOrder.follow_run.
    - eapply BlockBackupFacts.backup_start_ok, Hstart.
    - eapply BlockBackupOrder.follow_start, Hstart. }
  split.
  - intros p i sector n data Hp. apply (H p _ Hp).
  - intros p i sector n Hp. apply (H p _ Hp).
Qed.

(** X16, on a one-sector device copied by the sweep: the write at position
    3 of the trace follows the read at position 2. *)
Lemma target_writes_follow_reads_witness :
  let t := BlockBackup.st_trace
             (BlockBackup.run
                (Scenarios.main_start Scenarios.one_sector
                   BLOCKDEV_ON_ERROR_REPORT)
                [AWake; AResume 0 Scenarios.io_pattern]) in
  In (EvRead 0 0 1) (take 3 t).
Proof.
  intros t.
  pose proof (target_writes_follow_reads Scenarios.one_sector 0
                BLOCKDEV_ON_ERROR_REPORT BLOCKDEV_ON_ERROR_REPORT false
                (Scenarios.main_start Scenarios.one_sector
                   BLOCKDEV_ON_ERROR_REPORT)
                [AWake; AResume 0 Scenarios.io_pattern] eq_refl) as (H & _).
  apply (H 3%nat 0%nat 0 1 [x01]). reflexivity.
Defined.

(** X17.  In block/backup.c cancellation does not reach into a
    [backup_do_cow] call: a call continues and a guest write is intercepted
    exactly as without the cancellation request, which only sets the flag;
    for a call not made by the sweep the whole step is the same, and for the
    sweep's own call only [backup_run] looks at the flag, after the call has
    returned. *)
Theorem cancellation_spares_calls
    (s : BlockBackup.State) (i : nat) (r : io_result)
    (sector_num nb_sectors : Z) :
  BlockBackup.step s ACancel = BlockBackup.cancel s
  /\ BlockBackup.resume_cow i r (BlockBackup.step s ACancel)
     = BlockBackup.step (BlockBackup.resume_cow i r s) ACancel
  /\ (BlockBackup.run_at (BlockBackup.st_run s) <> BlockBackup.RunInCow i ->
      BlockBackup.step (BlockBackup.step s ACancel) (AResume i r)
      = BlockBackup.step (BlockBackup.step s (AResume i r)) ACancel)
  /\ BlockBackup.step (BlockBackup.step s ACancel)
       (AGuestWrite sector_num nb_sectors)
     = BlockBackup.step
         (BlockBackup.step s (AGuestWrite sector_num nb_sectors)) ACancel.
Proof.
  split; [done|]. split; [apply BlockBackupOrder.resume_cow_cancel|]. split.
  - intros Hat. simpl.
    change (BlockBackup.set_job
              (BlockBackup.set_cancelled true (BlockBackup.st_job s)) s)
      with (BlockBackup.cancel s).
    rewrite BlockBackupOrder.resume_cow_cancel.
    pose proof (BlockBackupFacts.resume_cow_run i r s) as Hr.
    unfold BlockBackup.backup_run_resume. simpl. rewrite Hr.
    destruct (BlockBackup.run_at (BlockBackup.st_run s)) as [|j| |]; try done.
    destruct (Nat.eqb_spec j i) as [->|]; [by destruct Hat|done].
  - simpl. destruct (BlockBackup.st_before_write s); [|done].
    unfold BlockBackup.backup_before_write_notify. simpl.
    apply BlockBackupOrder.do_cow_cancel.
Qed.

(** X17, on a one-sector device: a guest write intercepted after the
    cancellation request starts the same call. *)
Lemma cancellation_spares_calls_witness :
  let s := Scenarios.main_start Scenarios.one_sector BLOCKDEV_ON_ERROR_REPORT in
  BlockBackup.step (BlockBackup.step s ACancel) (AGuestWrite 0 1)
  = BlockBackup.step (BlockBackup.step s (AGuestWrite 0 1)) ACancel.
Proof.
  intros s.
  destruct (cancellation_spares_calls s 0%nat Scenarios.io_done 0 1)
    as (_ & _ & _ & H).
  exact H.
Defined.

(** * Further properties of backup.c: bitmap, asserts, reads, progress *)

(** X11.  The bitmap of backup.c is a vector of bits: for clusters whose
    word lies inside the array, [backup_set_bitmap] succeeds and keeps the
    array's length, [backup_get_bitmap] then returns the value written for
    that cluster and the old value for every other cluster, whether the bit
    was set or cleared; for a cluster whose word index is [bitmap_size] or
    more both functions fail their assert. *)
Theorem variant_bitmap_set_get
    (j : Backup.BackupBlockJob) (c c' : Z) (dirty : bool) :
  Backup.bitmap_wf j ->
  0 <= c -> c / Backup.BITS_PER_LONG < Backup.bitmap_size j ->
  0 <= c' -> c' / Backup.BITS_PER_LONG < Backup.bitmap_size j ->
  (exists bm,
     Backup.backup_set_bitmap j c dirty = Some bm
     /\ length bm = length (Backup.bitmap j)
     /\ Backup.backup_get_bitmap (Backup.set_bitmap bm j) c'
        = if c' =? c then Some dirty else Backup.backup_get_bitmap j c')
  /\ (exists b, Backup.backup_get_bitmap j c = Some b)
  /\ (forall c0 d,
        0 <= c0 -> Backup.bitmap_size j <= c0 / Backup.BITS_PER_LONG ->
        Backup.backup_get_bitmap j c0 = None
        /\ Backup.backup_set_bitmap j c0 d = None).
Proof.
  intros Hwf H0 Hc H0' Hc'.
  assert (0 <= c / Backup.BITS_PER_LONG) by (apply Z.div_pos; [lia|reflexivity]).
  assert (0 <= c' / Backup.BITS_PER_LONG)
    by (apply Z.div_pos; [lia|reflexivity]).
  split; [apply BackupBits.v_set_get; [done|lia|lia]|]. split.
  - destruct (BackupBits.v_word j c Hwf ltac:(lia)) as (val & Hl).
    eexists. apply BackupBits.v_get_word; [lia|exact Hl].
  - intros c0 d _ Hout. apply BackupBits.v_out_of_range. lia.
Qed.

(** X11, on a bitmap of one word with bit 3 set: clearing bit 3 leaves bit 5
    as it was. *)
Lemma variant_bitmap_set_get_witness :
  let j := Backup.mkJob 0 0 0 false 0 [8] 1 in
  exists bm,
    Backup.backup_set_bitmap j 3 false = Some bm
    /\ length bm = 1%nat
    /\ Backup.backup_get_bitmap (Backup.set_bitmap bm j) 5
       = Backup.backup_get_bitmap j 5.
Proof.
  intros j.
  destruct (variant_bitmap_set_get j 3 5 false eq_refl ltac:(lia)
              ltac:(vm_compute; reflexivity) ltac:(lia)
              ltac:(vm_compute; reflexivity)) as ((bm & H1 & H2 & H3) & _).
  exists bm. by repeat split.
Defined.

(** X12.  In backup.c, on a device of [len] bytes ([0 <= len < 2 ^ 52]),
    [backup_start] allocates a bitmap with a bit for every cluster of the
    device, so that as long as guest reads and writes lie inside the device no
    assert of [backup_get_bitmap] or [backup_set_bitmap] fails, under any
    schedule; the array keeps its [bitmap_size] words. *)
Theorem variant_asserts_hold
    (len speed : Z) (s0 : Backup.State) (acts : list action) :
  Backup.backup_start len speed = Some s0 ->
  0 <= len < 2 ^ 52 ->
  Forall (Backup.in_device len) acts ->
  let s := Backup.run s0 acts in
  Backup.st_aborted s = false
  /\ Backup.bitmap_wf (Backup.st_job s)
  /\ Backup.clusters len
     <= Backup.BITS_PER_LONG * Backup.bitmap_size (Backup.st_job s)
  /\ Backup.run_end (Backup.st_run s) = Backup.clusters len.
Proof.
  intros Hstart Hlen Hacts s.
  assert (Backup.fits (Backup.clusters len) s) as ((F1 & F2 & F3 & F4 & _) & _).
  { apply BackupBits.v_fits_run; [done|].
    by eapply BackupBits.v_fits_start. }
  by repeat split.
Qed.

(** X12, on a one-sector device with a guest write and a guest read of its
    sector. *)
Lemma variant_asserts_hold_witness :
  Backup.st_aborted
    (Backup.run (Scenarios.variant_start Scenarios.one_sector)
       [AGuestWrite 0 1; AResume 0 Scenarios.io_pattern; AGuestRead 0 1])
  = false.
Proof.
  pose proof (variant_asserts_hold Scenarios.one_sector 0
                (Scenarios.variant_start Scenarios.one_sector)
                [AGuestWrite 0 1; AResume 0 Scenarios.io_pattern;
                 AGuestRead 0 1]
                eq_refl ltac:(vm_compute; split; [discriminate|reflexivity])
                ltac:(repeat constructor; vm_compute; discriminate))
    as (H & _).
  exact H.
Defined.

(** X13.  In backup.c a guest read or write of at least one sector whose
    first cluster has no word in the bitmap, arriving while the job runs,
    fails the assert of [backup_get_bitmap]: the process is aborted, before
    any I/O for the request. *)
Theorem variant_request_past_bitmap_aborts
    (s : Backup.State) (sector_num nb_sectors : Z) :
  Backup.st_aborted s = false ->
  Backup.run_at (Backup.st_run s) <> Backup.RunCompleted ->
  0 <= sector_num -> 1 <= nb_sectors ->
  0 <= Backup.bitmap_size (Backup.st_job s)
  <= sector_num / Backup.BACKUP_BLOCKS_PER_CLUSTER / Backup.BITS_PER_LONG ->
  let sw := Backup.step s (AGuestWrite sector_num nb_sectors) in
  let sr := Backup.step s (AGuestRead sector_num nb_sectors) in
  Backup.st_aborted sw = true /\ Backup.st_aborted sr = true
  /\ Backup.st_trace sw
     = Backup.st_trace s
       ++ [EvCow (length (Backup.st_frames s)) sector_num nb_sectors false]
  /\ forall a, Backup.step sw a = sw.
Proof.
  intros Hab Hat H0 Hnb Hsize sw sr.
  assert (Backup.backup_do_cow (length (Backup.st_frames s)) sector_num
            nb_sectors s
          = Backup.abort
              (Backup.emit
                 (EvCow (length (Backup.st_frames s)) sector_num nb_sectors
                    false)
                 (Backup.set_frames
                    (Backup.st_frames s
                     ++ [Backup.mkFrame sector_num nb_sectors
                           (sector_num / Backup.BACKUP_BLOCKS_PER_CLUSTER)
                           ((sector_num + nb_sectors
                             + Backup.BACKUP_BLOCKS_PER_CLUSTER - 1)
                            / Backup.BACKUP_BLOCKS_PER_CLUSTER) 0
                           Backup.CowReading]) s))) as Hcow.
  { unfold Backup.backup_do_cow, Backup.backup_do_cow_continue.
    apply BackupBits.v_loop_abort; simpl; [|lia].
    change Backup.BACKUP_BLOCKS_PER_CLUSTER with 128.
    assert (sector_num / 128 + 1 <= (sector_num + nb_sectors + 128 - 1) / 128).
    { replace (sector_num / 128 + 1) with ((sector_num + 1 * 128) / 128)
        by (rewrite Z.div_add by lia; lia).
      apply Z.div_le_mono; lia. }
    lia. }
  destruct (BackupFacts.v_hooks s sector_num nb_sectors Hab Hat)
    as (_ & _ & Hr & Hw).
  subst sw sr. rewrite Hr, Hw, Hcow. repeat split; try done.
Qed.

(** X13, on a one-sector device: a guest write of sector 8192, which lies
    in cluster 64. *)
Lemma variant_request_past_bitmap_aborts_witness :
  Backup.st_aborted
    (Backup.step (Scenarios.variant_start Scenarios.one_sector)
       (AGuestWrite 8192 1))
  = true.
Proof.
  pose proof (variant_request_past_bitmap_aborts
                (Scenarios.variant_start Scenarios.one_sector) 8192 1
                eq_refl ltac:(discriminate) ltac:(lia) ltac:(lia)
                ltac:(vm_compute; split; discriminate)) as (H & _).
  exact H.
Defined.

(** X14.  In backup.c every source read is issued at the first sector of a
    cluster whose bit is set, and no two source reads are issued at the same
    sector: under any schedule each cluster is read at most once in the life
    of the job, also after its read or write has failed. *)
Theorem variant_reads_cluster_once
    (len speed : Z) (s0 : Backup.State) (acts : list action) :
  Backup.backup_start len speed = Some s0 ->
  let s := Backup.run s0 acts in
  NoDup (Backup.read_sectors (Backup.st_trace s))
  /\ forall sector,
       In sector (Backup.read_sectors (Backup.st_trace s)) ->
       exists c, sector = c * Backup.BACKUP_BLOCKS_PER_CLUSTER
                 /\ Backup.backup_get_bitmap (Backup.st_job s) c = Some true.
Proof.
  intros Hstart s. apply BackupBits.v_reads_run.
  eapply BackupBits.v_reads_start, Hstart.
Qed.

(** X14, on a one-sector device: after the failed read of the guest write
    the sweep does not read cluster 0 again. *)
Lemma variant_reads_cluster_once_witness :
  Backup.read_sectors
    (Backup.st_trace
       (Backup.run (Scenarios.variant_start Scenarios.one_sector)
          [AGuestWrite 0 1; AResume 0 Scenarios.io_error; AWake]))
  = [0]
  /\ NoDup [0].
Proof.
  pose proof (variant_reads_cluster_once Scenarios.one_sector 0
                (Scenarios.variant_start Scenarios.one_sector)
                [AGuestWrite 0 1; AResume 0 Scenarios.io_error; AWake]
                eq_refl) as (H & _).
  split; [reflexivity|exact H].
Defined.

(** X15.  In backup.c [offset] is advanced by the sweep alone: a step
    changes it only when the copy the sweep is waiting for returns a
    non-negative value, and then by 65536; a copy made for a guest read or
    write never counts.  When the sweep wakes at a cluster whose bit is set
    already, it makes no call, leaves [offset] as it is and goes on to the
    next cluster. *)
Theorem variant_offset_by_sweep_only (s : Backup.State) (a : action) :
  let off s := Backup.common_offset (Backup.st_job s) in
  (off (Backup.step s a) = off s
   \/ exists i r ret,
        a = AResume i r
        /\ Backup.run_at (Backup.st_run s) = Backup.RunInCow i
        /\ Backup.returned (Backup.resume_cow i r s) i = Some ret
        /\ 0 <= ret
        /\ off (Backup.step s a) = to_int64 (off s + BACKUP_CLUSTER_SIZE))
  /\ (Backup.st_aborted s = false ->
      Backup.run_at (Backup.st_run s) = Backup.RunSleeping ->
      Backup.common_cancelled (Backup.st_job s) = false ->
      Backup.backup_get_bitmap (Backup.st_job s)
        (Backup.run_start (Backup.st_run s)) = Some true ->
      let s' := Backup.step s AWake in
      s' = Backup.backup_run_next s
      /\ Backup.st_frames s' = Backup.st_frames s
      /\ off s' = off s
      /\ Backup.run_start (Backup.st_run s')
         = Backup.run_start (Backup.st_run s) + 1
      /\ Backup.grows Backup.sweep_event s s').
Proof.
  intros off. subst off. cbv beta. split.
  - unfold Backup.step. destruct (Backup.st_aborted s); [by left|].
    destruct a as [|v|sn nb|sn nb|i r|]; try (by left).
    + left. unfold Backup.hook. simpl.
      destruct (Backup.run_at _); try done;
        by destruct (BackupBits.v_do_cow_cow_kept
                       (length (Backup.st_frames s)) sn nb s) as (_ & ? & _).
    + left. unfold Backup.hook. simpl.
      destruct (Backup.run_at _); try done;
        by destruct (BackupBits.v_do_cow_cow_kept
                       (length (Backup.st_frames s)) sn nb s) as (_ & ? & _).
    + destruct (BackupBits.v_resume_cow_cow_kept i r s) as (K1 & K2 & _).
      simpl. rewrite BackupBits.v_resume_offset, K1, K2.
      destruct (Backup.run_at (Backup.st_run s)) as [|j| |] eqn:Hat;
        try (by left).
      destruct (Backup.returned (Backup.resume_cow i r s) i) as [ret|] eqn:Hr;
        [|by left].
      destruct (Nat.eqb_spec j i) as [->|]; simpl; [|by left].
      destruct (Z.leb_spec 0 ret); [|by left].
      right. exists i, r, ret. by repeat split.
    + left. destruct (Backup.run_at (Backup.st_run s)); try done.
      * unfold Backup.backup_run_wake. destruct (Backup.common_cancelled _).
        { by rewrite BackupBits.v_exit_offset. }
        destruct (Backup.backup_get_bitmap _ _) as [[]|] eqn:Hg; try done.
        { apply BackupBits.v_next_offset. }
        rewrite BackupBits.v_resume_offset.
        unfold Backup.bdrv_co_backup.
        match goal with |- context [Backup.backup_do_cow ?i0 ?a0 ?b0 ?s1] =>
          destruct (BackupBits.v_do_cow_cow_kept i0 a0 b0 s1) as (K1 & K2 & _);
          assert (Backup.returned (Backup.backup_do_cow i0 a0 b0 s1) i0 = None)
            as Hnone
        end.
        { unfold Backup.backup_do_cow, Backup.backup_do_cow_continue. simpl.
          change Backup.BACKUP_BLOCKS_PER_CLUSTER with 128.
          rewrite Z.div_mul by discriminate.
          replace (Backup.run_start (Backup.st_run s) * 128 + 1 + 128 - 1)
            with ((Backup.run_start (Backup.st_run s) + 1) * 128) by lia.
          rewrite Z.div_mul by discriminate.
          replace (Z.to_nat (Backup.run_start (Backup.st_run s) + 1
                             - Backup.run_start (Backup.st_run s)))
            with 1%nat by lia.
          simpl. rewrite Hg.
          destruct (BackupFacts.v_get_then_set _ _ _ Hg) as (bm & ->).
          unfold Backup.returned. simpl.
          rewrite list_lookup_insert_eq; [done|].
          rewrite length_app. simpl. lia. }
        rewrite Hnone, K1, K2. simpl. done.
      * by destruct (existsb _ _).
  - intros Hab Hat Hcan Hg s'. subst s'. unfold Backup.step.
    rewrite Hab, Hat. unfold Backup.backup_run_wake. rewrite Hcan, Hg.
    split; [done|].
    destruct (BackupBits.v_next_kept s) as (_ & _ & K3 & _).
    split; [done|]. split; [apply BackupBits.v_next_offset|]. split.
    + unfold Backup.backup_run_next.
      by destruct (BackupBits.v_run_loop_at
                     (Backup.set_run_start
                        (Backup.run_start (Backup.st_run s) + 1) s))
        as [-> _].
    + apply BackupFacts.v_next_grows.
Qed.

(** X15, on a device of two clusters: cluster 0 is copied for a guest
    write, with [offset] still 0; the sweep then skips it. *)
Lemma variant_offset_by_sweep_only_witness :
  let s := Backup.run (Scenarios.variant_start (2 * BACKUP_CLUSTER_SIZE))
             [AGuestWrite 0 1; AResume 0 Scenarios.io_pattern;
              AResume 0 Scenarios.io_done] in
  Backup.common_offset (Backup.st_job s) = 0
  /\ Backup.step s AWake = Backup.backup_run_next s
  /\ Backup.st_frames (Backup.step s AWake) = Backup.st_frames s.
Proof.
  intros s.
  destruct (variant_offset_by_sweep_only s AWake) as (_ & H).
  destruct (H eq_refl eq_refl eq_refl eq_refl) as (H1 & H2 & _).
  split; [reflexivity|]. split; [exact H1|exact H2].
Defined.

(** X18.  In backup.c [backup_run] reports completion only when every
    [backup_do_cow] call has returned; afterwards, with the hooks no longer
    consulted, no schedule adds an event, moves a call or changes bitmap or
    [offset]. *)
Theorem variant_completion_is_final
    (len speed : Z) (s0 : Backup.State) (acts acts' : list action) :
  Backup.backup_start len speed = Some s0 ->
  let s := Backup.run s0 acts in
  Backup.run_at (Backup.st_run s) = Backup.RunCompleted ->
  let s' := Backup.run s acts' in
  Forall (fun f => Backup.cow_at f = Backup.CowReturned) (Backup.st_frames s)
  /\ Backup.st_trace s' = Backup.st_trace s
  /\ Backup.st_frames s' = Backup.st_frames s
  /\ Backup.run_at (Backup.st_run s') = Backup.RunCompleted
  /\ Backup.bitmap (Backup.st_job s') = Backup.bitmap (Backup.st_job s)
  /\ Backup.common_offset (Backup.st_job s')
     = Backup.common_offset (Backup.st_job s).
Proof.
  intros Hstart s Hat s'.
  assert (Backup.drained s) as Hd.
  { apply BackupBits.v_drained_run.
    eapply BackupBits.v_drained_start, Hstart. }
  destruct (BackupBits.v_completed_run s acts' Hd Hat)
    as (F1 & F2 & F3 & _ & F5 & F6).
  split; [by apply Hd|]. subst s'. rewrite F1, F2, F3, F5, F6.
  by repeat split.
Qed.

(** X18, on a one-sector device copied by the sweep: a guest read after
    completion changes nothing. *)
Lemma variant_completion_is_final_witness :
  let s := Backup.run (Scenarios.variant_start Scenarios.one_sector)
             [AWake; AResume 0 Scenarios.io_pattern;
              AResume 0 Scenarios.io_done] in
  Backup.st_trace (Backup.run s [AGuestRead 0 1; AWake]) = Backup.st_trace s.
Proof.
  intros s.
  pose proof (variant_completion_is_final Scenarios.one_sector 0
                (Scenarios.variant_start Scenarios.one_sector)
                [AWake; AResume 0 Scenarios.io_pattern;
                 AResume 0 Scenarios.io_done]
                [AGuestRead 0 1; AWake] eq_refl eq_refl) as (_ & H & _).
  exact H.
Defined.
